(** * astrometry-worker: the solver pipeline and the job runner

    A shallow embedding of [astro_extract.py] (normalisation [to_native],
    the great-circle separation [angsep_deg], the object merge and the
    [.wcs] header step of [run_solve_field], the two parsers of field
    objects, the photo metadata) and of [astro_jobs_cli.py] (the job store,
    the worker and the three CLI commands), with the properties of the
    design document proved or refuted on it, and further properties read
    off the code.

    Conventions of the embedding.
    - A Python [float] is a real number ([R]): no rounding, no NaN, no
      infinity.  Text is a [string] of bytes; case folding and white space
      are the ASCII ones.
    - A Python [dict] with text keys is a [gmap string _]; a list is a
      [list].
    - A computation that can raise has an [option] result; [None] is the
      raised exception. *)

From Stdlib Require Import Reals Lra ZArith QArith Ascii.
From stdpp Require Import gmap strings list pretty sorting.

Set Warnings "-register-all,-clear-no-such-hyp".

(** ** Text helpers: [str.lower], [str.strip] *)

Module Text.

Definition is_upper (c : ascii) : bool :=
  let n := nat_of_ascii c in (65 <=? n)%nat && (n <=? 90)%nat.

Definition lower_char (c : ascii) : ascii :=
  if is_upper c then ascii_of_nat (nat_of_ascii c + 32) else c.

(** [s.lower()] *)
Fixpoint lower (s : string) : string :=
  match s with
  | EmptyString => EmptyString
  | String c s' => String (lower_char c) (lower s')
  end.

(** The characters [str.strip()] removes: tab, line feed, vertical tab,
    form feed, carriage return, the four separators 28..31, space. *)
Definition is_space (c : ascii) : bool :=
  let n := nat_of_ascii c in
  ((9 <=? n)%nat && (n <=? 13)%nat) || ((28 <=? n)%nat && (n <=? 32)%nat).

Fixpoint lstrip (s : string) : string :=
  match s with
  | EmptyString => EmptyString
  | String c s' => if is_space c then lstrip s' else s
  end.

Definition rstrip (s : string) : string := String.rev (lstrip (String.rev s)).

(** [s.strip()] *)
Definition strip (s : string) : string := rstrip (lstrip s).

(** Python truth value of a text: non-empty. *)
Definition nonempty (s : string) : bool :=
  match s with EmptyString => false | _ => true end.

End Text.

(** ** Geometry: [angsep_deg] *)

Module Geometry.

Local Open Scope R_scope.

(** [math.radians], [math.degrees] *)
Definition radians (x : R) : R := x * (PI / 180).
Definition degrees (x : R) : R := x * (180 / PI).

(** [angsep_deg(ra1_deg, dec1_deg, ra2_deg, dec2_deg)]: spherical law of
    cosines, the cosine clamped to [-1, 1] before [acos]. *)
Definition angsep_deg (ra1_deg dec1_deg ra2_deg dec2_deg : R) : R :=
  let ra1 := radians ra1_deg in
  let dec1 := radians dec1_deg in
  let ra2 := radians ra2_deg in
  let dec2 := radians dec2_deg in
  degrees
    (acos
       (Rmax (-1)
          (Rmin 1
             (sin dec1 * sin dec2 + cos dec1 * cos dec2 * cos (ra1 - ra2))))).

End Geometry.

(** ** Object reconciliation: [run_solve_field], from [def norm] to the
    final [merged.sort] *)

Module Reconciler.
Import Text Geometry.

(** A value stored under a key of a mention: text or a float. *)
Inductive field := VStr (s : string) | VNum (x : R).

(** A mention is a dict with text keys. *)
Abbreviation obj := (gmap string field).

(** [if v: o[k] = v] for an optional text [v] ([None] and the empty text
    are false). *)
Definition set_if_true (k : string) (v : option string) (o : obj) : obj :=
  match v with
  | Some s => if nonempty s then <[k := VStr s]> o else o
  | None => o
  end.

(** The record built for one line of the block "Your field contains:":
    [obj = {"raw": line, "name": name}], then [catalog] and [id] when they
    are true. *)
Definition stdout_mention (line name : string) (catalog ident : option string) : obj :=
  let o : obj := <["name" := VStr name]> (<["raw" := VStr line]> ∅) in
  let o := set_if_true "catalog" catalog o in
  set_if_true "id" ident o.

(** The record [parse_objs_file] appends for one line [t], from what the
    three parsing attempts left in [name], [ra], [dec], [catalog], [ident]. *)
Definition objs_record (t : string) (name : option string) (ra dec : option R)
    (catalog ident : option string) : obj :=
  match name, ra, dec with
  | Some name, Some ra, Some dec =>
      if nonempty name then
        let item : obj :=
          <["dec_deg" := VNum dec]> (<["ra_deg" := VNum ra]> (<["name" := VStr name]> ∅)) in
        let item := set_if_true "catalog" catalog item in
        set_if_true "id" ident item
      else {[ "raw" := VStr t ]}
  | _, _, _ => {[ "raw" := VStr t ]}
  end.

(** [def norm(s): return s.lower().strip()] *)
Definition norm (s : string) : string := strip (lower s).

(** [norm] called on a stored value: a float has no [lower]
    (AttributeError). *)
Definition norm_field (v : field) : option string :=
  match v with VStr s => Some (norm s) | VNum _ => None end.

(** [key = norm(o2.get("name", o2.get("raw", empty)))], [empty] the empty text *)
Definition mention_key (o2 : obj) : option string :=
  norm_field (default (default (VStr EmptyString) (o2 !! "raw")) (o2 !! "name")).

(** The inner loop: the first [p] with ["name" in p and norm(p["name"]) == key]. *)
Fixpoint find_match (key : string) (objs_with_radec : list obj) : option (option obj) :=
  match objs_with_radec with
  | [] => Some None
  | p :: rest =>
      match p !! "name" with
      | Some v =>
          k ← norm_field v;
          if String.eqb k key then Some (Some p) else find_match key rest
      | None => find_match key rest
      end
  end.

(** [o2.update({k: v for k, v in match.items() if k not in ("raw",)})] *)
Definition update_from (m o2 : obj) : obj := delete "raw" m ∪ o2.

(** One turn of the first loop: the copy [o2 = dict(o)], enriched, and its
    [key].  A dict is true when it is not empty. *)
Definition enrich (objs_with_radec : list obj) (o : obj) : option (obj * string) :=
  let o2 := o in
  key ← mention_key o2;
  m ← find_match key objs_with_radec;
  let o2 :=
    match m with
    | Some p => if bool_decide (p ≠ ∅) then update_from p o2 else o2
    | None => o2
    end in
  Some (o2, key).

(** The first loop: [merged] and [used] after it. *)
Fixpoint enrich_all (objs_with_radec objects : list obj) : option (list obj * gset string) :=
  match objects with
  | [] => Some ([], ∅)
  | o :: objects' =>
      '(o2, key) ← enrich objs_with_radec o;
      '(merged, used) ← enrich_all objs_with_radec objects';
      Some (o2 :: merged, {[ key ]} ∪ used)
  end.

(** The second loop: the records of the [.objs] file appended to [merged]. *)
Fixpoint append_unused (used : gset string) (objs_with_radec : list obj) : option (list obj) :=
  match objs_with_radec with
  | [] => Some []
  | p :: rest =>
      match p !! "name" with
      | Some v =>
          key ← norm_field v;
          tail ← append_unused used rest;
          Some (if bool_decide (key ∈ used) then tail else p :: tail)
      | None => append_unused used rest
      end
  end.

(** [merged] before separations are computed. *)
Definition merge (objects objs_with_radec : list obj) : option (list obj) :=
  '(merged, used) ← enrich_all objs_with_radec objects;
  tail ← append_unused used objs_with_radec;
  Some (merged ++ tail).

Section Separation.

(** [float(s)] on a text: Python's float parser, [None] when it raises. *)
Variable float_of_str : string → option R.

Definition py_float (v : field) : option R :=
  match v with VNum x => Some x | VStr s => float_of_str s end.

(** One turn of the separation loop. [ra_c], [dec_c] are
    [astro.get("ra_center")], [astro.get("dec_center")], which only ever hold
    floats. *)
Definition with_sep (ra_c dec_c : option R) (o : obj) : option obj :=
  match ra_c, dec_c, o !! "ra_deg", o !! "dec_deg" with
  | Some ra_c, Some dec_c, Some ra, Some dec =>
      ra ← py_float ra;
      dec ← py_float dec;
      let sep_deg := angsep_deg ra_c dec_c ra dec in
      Some (<["sep_arcmin" := VNum (sep_deg * 60)]> o)
  | _, _, _, _ => Some o
  end.

(** The default of [x.get("sep_arcmin", 1e9)]. *)
Definition missing_sep : R := 1e9.

(** [key=lambda x: x.get("sep_arcmin", 1e9)] *)
Definition sort_key (x : obj) : field := default (VNum missing_sep) (x !! "sep_arcmin").

Definition Rltb (x y : R) : bool := if Rlt_dec x y then true else false.

(** [a < b] on two keys; text against float raises TypeError. *)
Definition field_lt (a b : field) : option bool :=
  match a, b with
  | VNum x, VNum y => Some (Rltb x y)
  | VStr s, VStr t => Some (String.ltb s t)
  | _, _ => None
  end.

(** [list.sort(key=...)] is a stable sort that only uses [<] on keys:
    [x] goes after the entries whose key is smaller and before the others. *)
Fixpoint insert_sorted (x : obj) (l : list obj) : option (list obj) :=
  match l with
  | [] => Some [x]
  | y :: l' =>
      lt ← field_lt (sort_key y) (sort_key x);
      if (lt : bool) then l'' ← insert_sorted x l'; Some (y :: l'')
      else Some (x :: y :: l')
  end.

Fixpoint sort_by_sep (l : list obj) : option (list obj) :=
  match l with
  | [] => Some []
  | x :: l' => sorted ← sort_by_sep l'; insert_sorted x sorted
  end.

(** [merged] after the separation loop.  The loop writes into the records
    of [merged]; those taken from the [.objs] list are that list's own
    records, each appended once and read by nothing afterwards, so the
    sharing does not show in the result. *)
Definition separations (ra_c dec_c : option R) (merged : list obj) : option (list obj) :=
  mapM (with_sep ra_c dec_c) merged.

(** The value stored in [astro["objects"]]. *)
Definition reconcile (ra_c dec_c : option R) (objects objs_with_radec : list obj)
    : option (list obj) :=
  merged ← merge objects objs_with_radec;
  merged ← separations ra_c dec_c merged;
  sort_by_sep merged.

End Separation.

(** The shapes the two parsers produce. *)
Definition text_mention (o : obj) : Prop :=
  ∃ line name catalog ident, o = stdout_mention line name catalog ident.

Definition aux_record (p : obj) : Prop :=
  ∃ t name ra dec catalog ident, p = objs_record t name ra dec catalog ident.

(** [p] carries a name whose normal form is [key]. *)
Definition named_as (key : string) (p : obj) : Prop :=
  ∃ s, p !! "name" = Some (VStr s) ∧ norm s = key.

(** [p] is the first entry of [B] named [key]. *)
Definition first_named (key : string) (B : list obj) (p : obj) : Prop :=
  ∃ B1 B2, B = B1 ++ p :: B2 ∧ named_as key p ∧ Forall (λ q, ¬ named_as key q) B1.

(** The separation of an entry, when it has one. *)
Definition sep_of (o : obj) : option R :=
  match o !! "sep_arcmin" with Some (VNum x) => Some x | _ => None end.

(** The keys of the text mentions: [used] after the first loop. *)
Definition keys_of (A : list obj) : gset string := list_to_set (omap mention_key A).

(** [p] has a name and no text mention has the same key. *)
Definition unmatched (used : gset string) (p : obj) : bool :=
  match p !! "name" with
  | Some (VStr s) => bool_decide (norm s ∉ used)
  | _ => false
  end.

(** Names are text. *)
Definition name_is_text (p : obj) : Prop :=
  ∀ v, p !! "name" = Some v → ∃ s, v = VStr s.

(** No separation yet, and coordinates are floats. *)
Definition plain (o : obj) : Prop :=
  o !! "sep_arcmin" = None
  ∧ (∀ v, o !! "ra_deg" = Some v → ∃ x, v = VNum x)
  ∧ (∀ v, o !! "dec_deg" = Some v → ∃ x, v = VNum x).

(** The sort key as a number. *)
Definition num_key (o : obj) : R := default missing_sep (sep_of o).

(** The key of [o] is a float. *)
Definition numeric (o : obj) : Prop := sort_key o = VNum (num_key o).

Definition key_le (a b : obj) : Prop := (num_key a <= num_key b)%R.

(** The sort on float keys, without the error plumbing. *)
Fixpoint insert_num (x : obj) (l : list obj) : list obj :=
  match l with
  | [] => [x]
  | y :: l' => if Rltb (num_key y) (num_key x) then y :: insert_num x l' else x :: y :: l'
  end.

Fixpoint sort_num (l : list obj) : list obj :=
  match l with
  | [] => []
  | x :: l' => insert_num x (sort_num l')
  end.

End Reconciler.

(** ** The [.wcs] header step of [run_solve_field] *)

Module Wcs.
Import Reconciler.

(** A value of a FITS header card, as [float()] sees it. [COther] is a value
    [float()] rejects (an undefined or complex card). *)
Inductive card := CNum (x : R) | CStr (s : string) | CBool (b : bool) | COther.

(** A value of the [astro] dict. *)
Inductive aval :=
| AFloat (x : R)
| APair (w h : R)
| AObjects (l : list obj)
| ACd (cd : gmap string R).

(** What [wcs_file.exists()] and [fits.getheader] give. *)
Inductive wcs_file :=
| NoWcs
| UnreadableWcs
| Header (hdr : gmap string card).

Definition cd_keys : list string := ["CD1_1"; "CD1_2"; "CD2_1"; "CD2_2"].

Section Header.

Variable float_of_str : string → option R.

(** [float(hdr.get(k))]; [float(None)] raises TypeError. *)
Definition float_of_card (v : option card) : option R :=
  match v with
  | Some (CNum x) => Some x
  | Some (CStr s) => float_of_str s
  | Some (CBool b) => Some (if b then 1%R else 0%R)
  | Some COther => None
  | None => None
  end.

(** [astro.setdefault(k, v)] *)
Definition setdefault (k : string) (v : aval) (astro : gmap string aval) : gmap string aval :=
  match astro !! k with
  | Some _ => astro
  | None => <[k := v]> astro
  end.

(** [{k: float(hdr.get(k)) for k in keys if hdr.get(k) is not None}] *)
Fixpoint cd_entries (hdr : gmap string card) (keys : list string) : option (gmap string R) :=
  match keys with
  | [] => Some ∅
  | k :: keys' =>
      match hdr !! k with
      | None => cd_entries hdr keys'
      | Some c =>
          x ← float_of_card (Some c);
          cd ← cd_entries hdr keys';
          Some (<[k := x]> cd)
      end
  end.

(** The block [if wcs_file.exists(): try: ... except Exception: pass]. *)
Definition wcs_step (wcs : wcs_file) (astro : gmap string aval) : gmap string aval :=
  match wcs with
  | NoWcs => astro
  | UnreadableWcs => astro
  | Header hdr =>
      match float_of_card (hdr !! "CRVAL1") with
      | None => astro
      | Some ra =>
          let astro := setdefault "ra_center" (AFloat ra) astro in
          match float_of_card (hdr !! "CRVAL2") with
          | None => astro
          | Some dec =>
              let astro := setdefault "dec_center" (AFloat dec) astro in
              match cd_entries hdr cd_keys with
              | None => astro
              | Some cd =>
                  if bool_decide (cd ≠ ∅) then <["cd_matrix" := ACd cd]> astro else astro
              end
          end
      end
  end.

End Header.

End Wcs.

(** ** Normalisation: [to_native] *)

Module Native.

(** Python objects, as far as [to_native] tells them apart.  An object of a
    library class is carried with what the calls [to_native] makes on it
    return.  A text form is the text [str] returns: an object whose [str]
    raises is not among these. *)
Inductive pyobj :=
| PyNone
| PyBool (b : bool)
| PyInt (n : Z)
| PyFloat (x : R)
| PyStr (s : string)
| PyRational (as_float : option R)
    (* Fraction or Decimal; [float(obj)], None when it raises *)
| PyIFDRational (as_float : option R) (text : string)
    (* [float(obj)] and [str(obj)] *)
| PyBytes (decoded : option string) (hex : string)
    (* bytes or bytearray; [obj.decode("utf-8", errors="replace")] and [obj.hex()] *)
| PyNpScalar (item : pyobj)
    (* numpy.generic that is no Python bool, int, float, str or bytes;
       [obj.item()] *)
| PyNdarray (tolist : list pyobj) (text : string)
    (* numpy.ndarray of one or more dimensions; [obj.tolist()] and [str(obj)] *)
| PyDict (items : list (pyobj * pyobj))
| PyList (l : list pyobj)
| PyTuple (l : list pyobj)
| PySet (l : list pyobj)
    (* the elements in iteration order *)
| PyOther (text : string).
    (* any other object; [str(obj)] *)

(** [d[k] = v] on a dict with text keys, kept in insertion order. *)
Fixpoint dict_set (k : string) (v : pyobj) (d : list (pyobj * pyobj)) : list (pyobj * pyobj) :=
  match d with
  | [] => [(PyStr k, v)]
  | (k', v') :: d' =>
      match k' with
      | PyStr s => if String.eqb s k then (k', v) :: d' else (k', v') :: dict_set k v d'
      | _ => (k', v') :: dict_set k v d'
      end
  end.

Definition dict_of (items : list (string * pyobj)) : list (pyobj * pyobj) :=
  foldl (λ d kv, dict_set kv.1 kv.2 d) [] items.

Section ToNative.

(** [str(obj)] for the built-in objects whose text form is not modelled
    (floats, containers, bytes, rationals, numpy objects). *)
Variable repr_of : pyobj → string.

(** [str(k)] *)
Definition py_str (obj : pyobj) : string :=
  match obj with
  | PyStr s => s
  | PyNone => "None"
  | PyBool true => "True"
  | PyBool false => "False"
  | PyInt n => pretty n
  | PyIFDRational _ text => text
  | PyNdarray _ text => text
  | PyOther text => text
  | _ => repr_of obj
  end.

(** [to_native(obj)]; [None] when it raises. *)
Fixpoint to_native (obj : pyobj) : option pyobj :=
  match obj with
  | PyNone | PyBool _ | PyInt _ | PyFloat _ | PyStr _ => Some obj
  | PyRational as_float => x ← as_float; Some (PyFloat x)
  | PyIFDRational as_float text =>
      match as_float with
      | Some x => Some (PyFloat x)
      | None => Some (PyStr text)
      end
  | PyBytes decoded hex =>
      match decoded with
      | Some s => Some (PyStr s)
      | None => Some (PyStr hex)
      end
  | PyNpScalar item => Some item
  | PyNdarray tolist text =>
      match mapM to_native tolist with
      | Some l => Some (PyList l)
      | None => Some (PyStr text)
      end
  | PyDict items =>
      items' ← mapM (λ kv, v ← to_native kv.2; Some (py_str kv.1, v)) items;
      Some (PyDict (dict_of items'))
  | PyList l | PyTuple l | PySet l =>
      l' ← mapM to_native l; Some (PyList l')
  | PyOther text => Some (PyStr text)
  end.

End ToNative.

(** The JSON-safe values: [None], booleans, numbers, text, lists of such,
    and dicts from distinct text keys to such. *)
Fixpoint native (v : pyobj) : Prop :=
  match v with
  | PyNone | PyBool _ | PyInt _ | PyFloat _ | PyStr _ => True
  | PyList l => foldr (λ x P, native x ∧ P) True l
  | PyDict items =>
      NoDup (items.*1)
      ∧ foldr (λ kv P, (∃ s, kv.1 = PyStr s) ∧ native kv.2 ∧ P) True items
  | _ => False
  end.

(** Every numpy scalar inside [obj] has a JSON-safe [item()]. *)
Fixpoint tame (obj : pyobj) : Prop :=
  match obj with
  | PyNpScalar item => native item
  | PyNdarray l _ | PyList l | PyTuple l | PySet l => foldr (λ x P, tame x ∧ P) True l
  | PyDict items => foldr (λ kv P, tame kv.2 ∧ P) True items
  | _ => True
  end.

End Native.

(** ** The job store and the job runner: [astro_jobs_cli.py]

    The store is [$JOBS_DIR] seen through the layout of the script: a job
    identifier is one path component, a write replaces a file in one step,
    and the image handed to [submit] lies outside the store. *)

Module Jobs.
Import Text.

(** A JSON value: what [json.loads] returns and [json.dumps] takes. *)
Inductive json :=
| JNull
| JBool (b : bool)
| JInt (n : Z)
| JFloat (x : Q)
| JStr (s : string)
| JArr (l : list json)
| JObj (o : gmap string json).

(** What a file holds: [Doc j] is the text [json.dumps(j)], on which
    [json.loads] gives [j] back; [Text s] is any other text, on which
    [json.loads] raises. *)
Inductive content := Doc (j : json) | Text (s : string).

(** [$JOBS_DIR/<job_id>/]: the directories [input] (with the files copied
    into it) and [output] (with [result.json]), [status.json], [task.log].
    [None] is an absent directory or file. *)
Record job_dir := JobDir {
  input_dir : option (gmap string string);
  output_dir : option (option content);
  status_file : option content;
  log_file : option string;
}.

(** [$JOBS_DIR]: a job identifier is a key when its directory exists. *)
Abbreviation store := (gmap string job_dir).

(** The disk now, and the states it went through before, newest first:
    what a process reading the store at any moment may have seen. *)
Record world := World { disk : store; seen : list store }.

Definition snapshots (w : world) : list store := disk w :: seen w.

Inductive outcome (A : Type) :=
| Ok (a : A)
| Raised (e : string).
Arguments Ok {A} a.
Arguments Raised {A} e.

(** A command: it may change the disk and may raise. *)
Definition M (A : Type) : Type := world → outcome A * world.

Definition ret {A} (a : A) : M A := λ w, (Ok a, w).
Definition raise {A} (e : string) : M A := λ w, (Raised e, w).
Definition bind {A B} (m : M A) (k : A → M B) : M B :=
  λ w, match m w with
       | (Ok a, w') => k a w'
       | (Raised e, w') => (Raised e, w')
       end.
Definition get_disk : M store := λ w, (Ok (disk w), w).
Definition put_disk (d : store) : M unit :=
  λ w, (Ok tt, World d (disk w :: seen w)).

Global Instance M_ret : MRet M := @ret.
Global Instance M_bind : MBind M := λ A B k m, bind m k.

(** Python truth value. *)
Definition truthy (j : json) : bool :=
  match j with
  | JNull => false
  | JBool b => b
  | JInt n => negb (n =? 0)%Z
  | JFloat x => negb (Qnum x =? 0)%Z
  | JStr s => nonempty s
  | JArr l => match l with [] => false | _ => true end
  | JObj o => bool_decide (o ≠ ∅)
  end.

(** [d.get(k)] on a dict *)
Definition get (k : string) (o : gmap string json) : json := default JNull (o !! k).

(** The line feed. *)
Definition nl : string := String (ascii_of_nat 10) EmptyString.

(** The last [n] characters of a text: [s[-n:]] *)
Definition last_chars (n : nat) (s : string) : string :=
  String.substring (String.length s - n) n s.

(** [ensure_job_dirs]: [mkdir(parents=True, exist_ok=True)] on [input] and
    [output], for a job identifier that is one path component ([component]
    below), so that [JOBS_DIR / job_id] is a directory directly below
    [$JOBS_DIR]. *)
Definition ensure_layout (d : option job_dir) : job_dir :=
  match d with
  | None => JobDir (Some ∅) (Some None) None None
  | Some j =>
      JobDir (Some (default ∅ (input_dir j))) (Some (default None (output_dir j)))
        (status_file j) (log_file j)
  end.

Definition ensure_job_dirs (job_id : string) : M unit :=
  d ← get_disk;
  put_disk (<[job_id := ensure_layout (d !! job_id)]> d).

(** Writing below [$JOBS_DIR/<job_id>/]: [paths.status_file.write_text(...)],
    [paths.result_file.write_text(...)], the appends to [paths.log_file] and
    the copy into [paths.input].  Each needs its directory. *)
Definition write_status_file (job_id : string) (c : content) : M unit :=
  d ← get_disk;
  match d !! job_id with
  | Some j => put_disk (<[job_id := JobDir (input_dir j) (output_dir j) (Some c) (log_file j)]> d)
  | None => raise "FileNotFoundError"
  end.

Definition write_result_file (job_id : string) (c : content) : M unit :=
  d ← get_disk;
  match d !! job_id with
  | Some (JobDir input (Some _) status log) =>
      put_disk (<[job_id := JobDir input (Some (Some c)) status log]> d)
  | _ => raise "FileNotFoundError"
  end.

Definition append_log (job_id : string) (s : string) : M unit :=
  d ← get_disk;
  match d !! job_id with
  | Some j =>
      put_disk (<[job_id := JobDir (input_dir j) (output_dir j) (status_file j)
                              (Some (default EmptyString (log_file j) +:+ s))]> d)
  | None => raise "FileNotFoundError"
  end.

Definition copy_input (job_id name data : string) : M unit :=
  d ← get_disk;
  match d !! job_id with
  | Some (JobDir (Some files) output status log) =>
      put_disk (<[job_id := JobDir (Some (<[name := data]> files)) output status log]> d)
  | _ => raise "FileNotFoundError"
  end.

(** The documents of a job on a disk. *)
Definition status_doc (d : store) (job_id : string) : option content :=
  d !! job_id ≫= status_file.

Definition result_doc (d : store) (job_id : string) : option content :=
  match d !! job_id with
  | Some j => default None (output_dir j)
  | None => None
  end.

(** [write_status(job_id, state, message, params)], with [now] the value of
    [time.time()]. *)
Definition write_status (job_id state : string) (message : option string)
    (params : option (gmap string json)) (now : Q) : M json :=
  ensure_job_dirs job_id;;
  d ← get_disk;
  let current :=
    match status_doc d job_id with
    | Some (Doc j) => j
    | Some (Text _) => JObj ∅
    | None => JObj (<["created_at" := JFloat now]> (<["job_id" := JStr job_id]> ∅))
    end in
  match current with
  | JObj current =>
      let params :=
        match params with
        | Some p => if truthy (JObj p) then JObj p else get "params" current
        | None => get "params" current
        end in
      let current :=
        <["updated_at" := JFloat now]>
          (<["params" := params]>
             (<["message" := from_option JStr JNull message]>
                (<["state" := JStr state]>
                   (<["job_id" := JStr job_id]> current)))) in
      write_status_file job_id (Doc (JObj current));;
      ret (JObj current)
  | _ => raise "AttributeError: no attribute 'update'"
  end.

(** [read_status(job_id)]; Python's [None] is [JNull]. *)
Definition read_status (job_id : string) : M json :=
  ensure_job_dirs job_id;;
  d ← get_disk;
  match status_doc d job_id with
  | None => ret JNull
  | Some (Doc j) => ret j
  | Some (Text _) => ret JNull
  end.

(** What [subprocess.run(cmd, shell=True, capture_output=True, text=True)]
    does. *)
Record completed_process := Completed {
  returncode : Z;
  stdout : string;
  stderr : string;
}.

Inductive run_result :=
| RunRaises (e : string)
| RunReturns (proc : completed_process).

(** The image a submission names, behind [Path(args.image).resolve()]. *)
Inductive image_file :=
| Missing
| Directory
| Regular (data : string).

Section Runner.

(** The environment of the two scripts. *)
Variable JOBS_DIR : string.
Variable ASTRO_EXTRACT_BIN : string.
Variable shlex_quote : string → string.
Variable str_of_float : Q → string.
(** [str(x)] of a JSON value that is neither text, [None], a boolean nor
    an integer. *)
Variable repr_of : json → string.
(** Running a command line. *)
Variable subprocess_run : string → run_result.
(** [json.loads] on the text a child printed; [None] when it raises. *)
Variable json_loads : string → option json.
(** [Path(image).resolve()], [src.name], and the file behind a path. *)
Variable resolve : string → string.
Variable path_name : string → string.
Variable file_at : string → image_file.

(** [str(x)] *)
Definition py_str (j : json) : string :=
  match j with
  | JStr s => s
  | JNull => "None"
  | JBool true => "True"
  | JBool false => "False"
  | JInt n => pretty n
  | _ => repr_of j
  end.

Definition opt_json {A} (f : A → json) (x : option A) : json := from_option f JNull x.

(** The [params] dict of [run_worker] and [cmd_submit]. *)
Definition params_dict (scale_low scale_high : option Q) (downsample timeout : option Z)
    : gmap string json :=
  <["timeout" := opt_json JInt timeout]>
    (<["downsample" := opt_json JInt downsample]>
       (<["scale_high" := opt_json JFloat scale_high]>
          (<["scale_low" := opt_json JFloat scale_low]> ∅))).

Definition join (sep : string) (parts : list string) : string :=
  match parts with
  | [] => EmptyString
  | p :: ps => foldl (λ acc q, acc +:+ sep +:+ q) p ps
  end.

Definition option_args {A} (flag : string) (show : A → string) (x : option A) : list string :=
  match x with Some v => [flag; show v] | None => [] end.

(** [cmd] of [run_worker]. *)
Definition worker_cmd_line (image_path : string) (scale_low scale_high : option Q)
    (downsample timeout : option Z) : string :=
  join " "
    ([shlex_quote ASTRO_EXTRACT_BIN; "--image"; shlex_quote image_path]
     ++ option_args "--scale-low" (λ x, shlex_quote (str_of_float x)) scale_low
     ++ option_args "--scale-high" (λ x, shlex_quote (str_of_float x)) scale_high
     ++ option_args "--downsample" (λ n, shlex_quote (pretty n)) downsample
     ++ option_args "--timeout" (λ n, shlex_quote (pretty n)) timeout).

(** The result document built from a finished child. *)
Definition interpret (proc : completed_process) : json :=
  if bool_decide (returncode proc = 0 ∨ returncode proc = 2)%Z then
    match json_loads (stdout proc) with
    | Some result => result
    | None =>
        JObj (<["raw" := JStr (last_chars 2000 (stdout proc))]>
                (<["error" := JStr "Invalid JSON from astro_extract"]>
                   (<["ok" := JBool false]> ∅)))
    end
  else
    JObj (<["error" := JStr ("astro_extract exit code " +:+ pretty (returncode proc))]>
            (<["ok" := JBool false]> ∅)).

(** [run_worker]; [now1], [now2] are the clock at its two [write_status]. *)
Definition run_worker (job_id image_path : string) (scale_low scale_high : option Q)
    (downsample timeout : option Z) (now1 now2 : Q) : M Z :=
  let params := params_dict scale_low scale_high downsample timeout in
  ensure_job_dirs job_id;;
  write_status job_id "processing" (Some "Solving image…") (Some params) now1;;
  let cmd := worker_cmd_line image_path scale_low scale_high downsample timeout in
  match subprocess_run cmd with
  | RunRaises e =>
      write_status job_id "error" (Some ("Execution failed: " +:+ e)) None now2;;
      ret 1%Z
  | RunReturns proc =>
      append_log job_id
        ("[cmd] " +:+ cmd +:+ nl
         +:+ "[stdout]" +:+ nl +:+ stdout proc +:+ nl
         +:+ "[stderr]" +:+ nl +:+ stderr proc +:+ nl);;
      let result := interpret proc in
      write_result_file job_id (Doc result);;
      match result with
      | JObj r =>
          if truthy (get "ok" r) then
            write_status job_id "done" (Some "Analysis complete") None now2;;
            ret 0%Z
          else
            write_status job_id "error" (Some (py_str (get "error" r))) None now2;;
            ret 2%Z
      | _ => raise "AttributeError: no attribute 'get'"
      end
  end.

(** What [cmd_submit] hands to [subprocess.Popen]: the arguments of the
    [_worker] command. *)
Record spawned := Spawn {
  sp_job_id : string;
  sp_image : string;
  sp_scale_low : option Q;
  sp_scale_high : option Q;
  sp_downsample : option Z;
  sp_timeout : option Z;
}.

(** What a command printed, its return code, the worker it launched. *)
Record report := Report {
  printed : json;
  code : Z;
  launched : option spawned;
}.

(** What [submit] prints for an image that does not exist. *)
Definition image_not_found (src : string) : report :=
  Report (JObj (<["error" := JStr ("Image not found: " +:+ src)]>
                  (<["ok" := JBool false]> ∅))) 1 None.

(** [cmd_submit]; [job_id] is [uuid.uuid4().hex]. *)
Definition cmd_submit (job_id image : string) (scale_low scale_high : option Q)
    (downsample timeout : option Z) (now : Q) : M report :=
  ensure_job_dirs job_id;;
  let src := resolve image in
  match file_at src with
  | Missing => ret (image_not_found src)
  | Directory => raise "IsADirectoryError"
  | Regular data =>
      let dst := JOBS_DIR +:+ "/" +:+ job_id +:+ "/input/" +:+ path_name src in
      copy_input job_id (path_name src) data;;
      let params := params_dict scale_low scale_high downsample timeout in
      write_status job_id "queued" (Some "Job created") (Some params) now;;
      append_log job_id EmptyString;;
      ret (Report (JObj (<["job_id" := JStr job_id]> (<["ok" := JBool true]> ∅))) 0
             (Some (Spawn job_id dst scale_low scale_high downsample timeout)))
  end.

(** What [status] prints for a job it does not find. *)
Definition not_found (job_id : string) : report :=
  Report (JObj (<["job_id" := JStr job_id]>
                  (<["error" := JStr "Job not found"]> (<["ok" := JBool false]> ∅)))) 1 None.

(** [cmd_status] *)
Definition cmd_status (job_id : string) : M report :=
  st ← read_status job_id;
  if negb (truthy st) then ret (not_found job_id)
  else
    match st with
    | JObj st => ret (Report (JObj (st ∪ {[ "ok" := JBool true ]})) 0 None)
    | _ => raise "TypeError: not a mapping"
    end.

(** What [result] prints when there is no result document. *)
Definition not_ready (job_id state : string) : report :=
  Report (JObj (<["job_id" := JStr job_id]>
                  (<["error" := JStr ("Job not ready (state=" +:+ state +:+ ")")]>
                     (<["ok" := JBool false]> ∅)))) 1 None.

(** [cmd_result]; [decode_error] stands for the text of the exception
    [json.loads] raises on a file that is not JSON. *)
Definition cmd_result (job_id : string) (decode_error : string) : M report :=
  ensure_job_dirs job_id;;
  d ← get_disk;
  match result_doc d job_id with
  | None =>
      st ← read_status job_id;
      if negb (truthy st) then ret (not_ready job_id "unknown")
      else
        match st with
        | JObj st => ret (not_ready job_id (py_str (get "state" st)))
        | _ => raise "AttributeError: no attribute 'get'"
        end
  | Some (Text _) =>
      ret (Report (JObj (<["job_id" := JStr job_id]>
                           (<["error" := JStr ("Invalid result JSON: " +:+ decode_error)]>
                              (<["ok" := JBool false]> ∅)))) 2 None)
  | Some (Doc data) => ret (Report data 0 None)
  end.

End Runner.

(** The [state] a status document shows. *)
Definition job_state (d : store) (job_id : string) : option json :=
  match status_doc d job_id with
  | Some (Doc (JObj o)) => o !! "state"
  | _ => None
  end.

Definition has_result (d : store) (job_id : string) : Prop :=
  is_Some (result_doc d job_id).

(** On disk [d], a reader that sees [state] in the status of the job also
    finds its result document. *)
Definition result_behind (state : string) (job_id : string) (d : store) : Prop :=
  job_state d job_id = Some (JStr state) → has_result d job_id.

(** [mkdir] on the layout of one job. *)
Definition ensure_disk (job_id : string) (d : store) : store :=
  <[job_id := ensure_layout (d !! job_id)]> d.

(** The files of a job: status, result, log, copied inputs. *)
Definition job_files (d : store) (job_id : string)
    : option content * option content * option string * gmap string string :=
  (status_doc d job_id, result_doc d job_id,
   match d !! job_id with Some j => log_file j | None => None end,
   match d !! job_id with Some j => default ∅ (input_dir j) | None => ∅ end).

(** The three directories of a job exist. *)
Definition has_layout (d : store) (job_id : string) : Prop :=
  ∃ j, d !! job_id = Some j ∧ is_Some (input_dir j) ∧ is_Some (output_dir j).

Definition empty_layout : job_dir := JobDir (Some ∅) (Some None) None None.

(** The dict [write_status] starts from, when the stored one can be updated. *)
Definition status_base (job_id : string) (now : Q) (file : option content)
    : option (gmap string json) :=
  match file with
  | Some (Doc (JObj o)) => Some o
  | Some (Doc _) => None
  | Some (Text _) => Some ∅
  | None => Some (<["created_at" := JFloat now]> (<["job_id" := JStr job_id]> ∅))
  end.

(** A store with one job, as [submit] leaves it for an existing image. *)
Definition queued_world : world :=
  (cmd_submit "/srv/astro_jobs" (λ p, p) (λ _, "m42.jpg") (λ _, Regular "JPEG")
     "4f2a" "/data/m42.jpg" None None (Some 2%Z) (Some 600%Z) 0%Q (World ∅ [])).2.

(** The worker on that job when the child cannot be run or read. *)
Definition failed_run (e : string) : outcome Z * world :=
  run_worker "astro_extract.py" (λ s, s) (λ _, EmptyString) (λ _, EmptyString) (λ _, RunRaises e) (λ _, None)
    "4f2a" "/srv/astro_jobs/4f2a/input/m42.jpg" None None (Some 2%Z) (Some 600%Z)
    1%Q 2%Q queued_world.

(** The identifiers the store is keyed by: one path component, that is a
    text that is not empty, is neither [.] nor [..], has at most 255
    characters, and holds neither [/] nor the NUL character.  The
    identifiers [submit] makes ([uuid.uuid4().hex]) are of this kind.  For
    any other text [JOBS_DIR / job_id] is not a directory directly below
    [$JOBS_DIR], and the store does not say what [mkdir] does with it. *)
Fixpoint no_separator (s : string) : bool :=
  match s with
  | EmptyString => true
  | String c s' =>
      negb (Ascii.eqb c "/") && negb (Ascii.eqb c (ascii_of_nat 0)) && no_separator s'
  end.

Definition component (job_id : string) : bool :=
  nonempty job_id
  && negb (String.eqb job_id ".") && negb (String.eqb job_id "..")
  && (String.length job_id <=? 255)%nat
  && no_separator job_id.

(** Every job directory of the store is named by one path component. *)
Definition flat (d : store) : Prop := ∀ j, is_Some (d !! j) → component j = true.

End Jobs.

(** ** More text helpers: [str.split], [str.count], [str.replace],
    [str.isalpha], [str.join] *)

Module Tokens.
Import Text.

(** [s.split(c)] for a one-character separator: every [c] cuts, empty
    pieces are kept. *)
Fixpoint split_on (c : ascii) (s : string) : list string :=
  match s with
  | EmptyString => [EmptyString]
  | String a s' =>
      if Ascii.eqb a c then EmptyString :: split_on c s'
      else
        match split_on c s' with
        | w :: ws => String a w :: ws
        | [] => [String a EmptyString]
        end
  end.

(** [s.count(c)] *)
Fixpoint count_char (c : ascii) (s : string) : nat :=
  match s with
  | EmptyString => 0
  | String a s' => (if Ascii.eqb a c then 1 else 0) + count_char c s'
  end.

(** [s.split(c, 1)] when [c in s]: the text before the first [c] and the
    text after it; [None] when [c] is not in [s]. *)
Fixpoint split_once (c : ascii) (s : string) : option (string * string) :=
  match s with
  | EmptyString => None
  | String a s' =>
      if Ascii.eqb a c then Some (EmptyString, s')
      else
        match split_once c s' with
        | Some (l, r) => Some (String a l, r)
        | None => None
        end
  end.

(** [s.split()]: the maximal runs of characters that are not white space. *)
Fixpoint split_ws (s : string) : list string :=
  match s with
  | EmptyString => []
  | String a s' =>
      if is_space a then split_ws s'
      else
        match s' with
        | EmptyString => [String a EmptyString]
        | String b _ =>
            if is_space b then String a EmptyString :: split_ws s'
            else
              match split_ws s' with
              | w :: ws => String a w :: ws
              | [] => [String a EmptyString]
              end
        end
  end.

(** [s.replace(a, b)] for single characters *)
Fixpoint replace_char (a b : ascii) (s : string) : string :=
  match s with
  | EmptyString => EmptyString
  | String c s' => String (if Ascii.eqb c a then b else c) (replace_char a b s')
  end.

Definition is_letter (c : ascii) : bool :=
  let n := nat_of_ascii c in
  ((65 <=? n)%nat && (n <=? 90)%nat) || ((97 <=? n)%nat && (n <=? 122)%nat).

Fixpoint all_letters (s : string) : bool :=
  match s with
  | EmptyString => true
  | String c s' => is_letter c && all_letters s'
  end.

(** [s.isalpha()], on ASCII text: not empty, and letters only. *)
Definition isalpha (s : string) : bool := nonempty s && all_letters s.

(** [s.startswith(c)] for a one-character prefix *)
Definition starts_with (c : ascii) (s : string) : bool :=
  match s with
  | String a _ => Ascii.eqb a c
  | EmptyString => false
  end.

(** [" ".join(parts)] *)
Definition unwords (parts : list string) : string :=
  match parts with
  | [] => EmptyString
  | p :: ps => foldl (λ acc q, acc +:+ " " +:+ q) p ps
  end.

(** A word: a text that is not empty and holds no white space. *)
Fixpoint no_space (s : string) : bool :=
  match s with
  | EmptyString => true
  | String c s' => negb (is_space c) && no_space s'
  end.

Definition word (w : string) : Prop := nonempty w = true ∧ no_space w = true.

End Tokens.

(** ** The block "Your field contains:" of the solver's report
    ([run_solve_field], the loop that fills [objects]) *)

Module FieldBlock.
Import Text Tokens Reconciler.

Definition marker : string := "Your field contains:".

(** The body of the loop for one stripped, non-empty [line]. *)
Definition mention_of_line (line : string) : obj :=
  match split_once "/" line with
  | Some (lhs, rhs) =>
      let lhs := strip lhs in
      let rhs := strip rhs in
      let name := rhs in
      let parts := split_ws lhs in
      if (2 <=? length parts)%nat then
        stdout_mention line name (head parts) (Some (unwords (drop 1 parts)))
      else
        stdout_mention line name None (Some lhs)
  | None =>
      let parts := split_ws line in
      if (2 <=? length parts)%nat && isalpha (default EmptyString (head parts)) then
        stdout_mention line line (head parts) (Some (unwords (drop 1 parts)))
      else
        stdout_mention line line None None
  end.

(** The loop over the lines after the marker: it stops at the first line
    that is blank once stripped. *)
Fixpoint field_block (lines : list string) : list obj :=
  match lines with
  | [] => []
  | l :: rest =>
      let line := strip l in
      if nonempty line then mention_of_line line :: field_block rest else []
  end.

(** [lines.index(x)]; [None] for ValueError. *)
Fixpoint index_of (x : string) (lines : list string) : option nat :=
  match lines with
  | [] => None
  | l :: rest => if String.eqb l x then Some 0%nat else S <$> index_of x rest
  end.

(** [objects], from [lines = stdout.splitlines()].  A line equal to the
    marker makes the test ["Your field contains:" in stdout] true; without
    such a line [lines.index] raises ValueError, which leaves [objects]
    empty as the failed test does. *)
Definition stdout_objects (lines : list string) : list obj :=
  match index_of marker lines with
  | Some i => field_block (take 50 (drop (S i) lines))
  | None => []
  end.

(** What the record [o] of the stripped line [line] looks like: the line
    under ["raw"], a name, and either no catalog or a one-word catalog with a
    non-empty identifier; no other key than these and ["id"]. *)
Definition block_mention (line : string) (o : obj) : Prop :=
  text_mention o
  ∧ o !! "raw" = Some (VStr line)
  ∧ (∃ name, o !! "name" = Some (VStr name))
  ∧ (o !! "catalog" = None
     ∨ ∃ c i, o !! "catalog" = Some (VStr c) ∧ word c
              ∧ o !! "id" = Some (VStr i) ∧ nonempty i = true)
  ∧ dom o ⊆ ({[ "raw"; "name"; "catalog"; "id" ]} : gset string).

End FieldBlock.

(** ** [parse_objs_file] *)

Module ObjsFile.
Import Text Tokens Reconciler.

(** What is behind [objs_path]: nothing, something that cannot be opened
    for reading (a directory, a file without read permission), or a text
    file with its lines. *)
Inductive objs_file :=
| NoObjs
| UnreadableObjs
| ObjsLines (lines : list string).

Section Parse.

(** [float(s)] on a text: Python's float parser, [None] when it raises. *)
Variable float_of_str : string → option R.

Definition nth_text (i : nat) (l : list string) : string := default EmptyString (l !! i).

(** The first attempt, on a line with two commas or more: [name], [ra],
    [dec] after the [try] block. *)
Definition csv_attempt (t : string) : option string * option R * option R :=
  if (2 <=? count_char "," t)%nat then
    let parts := strip <$> split_on "," t in
    let name := Some (nth_text 0 parts) in
    match float_of_str (nth_text 1 parts) with
    | None => (name, None, None)
    | Some ra =>
        match float_of_str (nth_text 2 parts) with
        | None => (name, Some ra, None)
        | Some dec => (name, Some ra, Some dec)
        end
    end
  else (None, None, None).

(** [for i in range(len(toks)-1)]: a token [ra] or [dec] (any case) sets
    the coordinate from the next token when that one is a float. *)
Fixpoint scan_tokens (toks : list string) (ra dec : option R) : option R * option R :=
  match toks with
  | k :: ((v :: _) as rest) =>
      let ra :=
        if String.eqb (lower k) "ra" then
          match float_of_str v with Some x => Some x | None => ra end
        else ra in
      let dec :=
        if String.eqb (lower k) "dec" then
          match float_of_str v with Some x => Some x | None => dec end
        else dec in
      scan_tokens rest ra dec
  | _ => (ra, dec)
  end.

Definition is_none {A} (x : option A) : bool :=
  match x with None => true | Some _ => false end.

(** The second and third attempts, run when a coordinate is still missing. *)
Definition token_attempt (t : string) (name : option string) (ra dec : option R)
    : option string * option R * option R :=
  if is_none ra || is_none dec then
    let toks := split_ws (replace_char "009" " " (replace_char "=" " " t)) in
    let '(ra, dec) := scan_tokens toks ra dec in
    let '(name, ra, dec) :=
      if (is_none ra || is_none dec) && (3 <=? length toks)%nat then
        match float_of_str (nth_text 1 toks), float_of_str (nth_text 2 toks) with
        | Some ra_cand, Some dec_cand => (head toks, Some ra_cand, Some dec_cand)
        | _, _ => (name, ra, dec)
        end
      else (name, ra, dec) in
    let name :=
      match name, toks with
      | None, _ :: _ => Some (strip (unwords (take 1 toks)))
      | _, _ => name
      end in
    (name, ra, dec)
  else (name, ra, dec).

(** Catalog and identifier, from a name of two words or more whose first
    word is alphabetic. *)
Definition catalog_of (name : option string) : option string * option string :=
  match name with
  | Some n =>
      if nonempty n then
        let parts := split_ws n in
        if (2 <=? length parts)%nat && isalpha (default EmptyString (head parts)) then
          (head parts, Some (unwords (drop 1 parts)))
        else (None, None)
      else (None, None)
  | None => (None, None)
  end.

(** The item appended for one stripped line [t] that is neither empty nor a
    comment. *)
Definition parse_objs_line (t : string) : obj :=
  let '(name, ra, dec) := csv_attempt t in
  let '(name, ra, dec) := token_attempt t name ra dec in
  let '(catalog, ident) := catalog_of name in
  objs_record t name ra dec catalog ident.

(** A line the loop skips: empty once stripped, or a comment. *)
Definition skipped (t : string) : bool := negb (nonempty t) || starts_with "#" t.

(** The loop [for line in f]. *)
Definition parse_lines (lines : list string) : list obj :=
  parse_objs_line <$> filter (λ t, skipped t = false) (strip <$> lines).

(** [parse_objs_file]; [None] when opening the file raises. *)
Definition parse_objs_file (file : objs_file) : option (list obj) :=
  match file with
  | NoObjs => Some []
  | UnreadableObjs => None
  | ObjsLines lines => Some (parse_lines lines)
  end.

End Parse.

(** A float parser that knows two texts, for examples. *)
Definition two_floats (s : string) : option R :=
  if String.eqb s "83.82" then Some 83.82%R
  else if String.eqb s "-5.39" then Some (-5.39)%R
  else None.

(** The tokens of a line, as the second attempt cuts them. *)
Definition tokens (t : string) : list string :=
  split_ws (replace_char "009" " " (replace_char "=" " " t)).

(** A record with a position: a non-empty name, both coordinates as
    floats, no ["raw"], and either no catalog or a one-word catalog with a
    non-empty identifier. *)
Definition located (p : obj) : Prop :=
  (∃ name ra dec,
     p !! "name" = Some (VStr name) ∧ nonempty name = true
     ∧ p !! "ra_deg" = Some (VNum ra) ∧ p !! "dec_deg" = Some (VNum dec))
  ∧ p !! "raw" = None
  ∧ (p !! "catalog" = None
     ∨ ∃ c i, p !! "catalog" = Some (VStr c) ∧ word c
              ∧ p !! "id" = Some (VStr i) ∧ nonempty i = true)
  ∧ dom p ⊆ ({[ "name"; "ra_deg"; "dec_deg"; "catalog"; "id" ]} : gset string).

End ObjsFile.

(** ** The objects of a solved field, from the two parsers to the sorted
    list *)

Module Pipeline.
Import Text Geometry Reconciler.

(** The separation an entry must carry when the field centre is
    ([ra_c], [dec_c]): the great-circle distance in arc-minutes when the
    entry has both coordinates, none otherwise. *)
Definition sep_from (ra_c dec_c : R) (o : obj) : Prop :=
  match o !! "ra_deg", o !! "dec_deg" with
  | Some (VNum ra), Some (VNum dec) =>
      o !! "sep_arcmin" = Some (VNum (angsep_deg ra_c dec_c ra dec * 60))
  | _, _ => o !! "sep_arcmin" = None
  end.

End Pipeline.

(** ** Photo metadata: [extract_photo_metadata] *)

Module Capture.
Import Native.

(** [v is None] *)
Definition is_py_none (v : pyobj) : bool :=
  match v with PyNone => true | _ => false end.

(** The inner function [pick]: the value of the first key that is in [exif], also
    when that value is [None]. *)
Fixpoint pick (exif : gmap string pyobj) (keys : list string) : pyobj :=
  match keys with
  | [] => PyNone
  | k :: keys' =>
      match exif !! k with
      | Some v => v
      | None => pick exif keys'
      end
  end.

(** [exif] after [if not exif: exif = read_exif_with_pillow(path)]. *)
Definition exif_of (exiftool pillow : gmap string pyobj) : gmap string pyobj :=
  if bool_decide (dom exiftool = (∅ : gset string)) then pillow else exiftool.

Section Photo.

(** [float(x)] on a value of the EXIF dict; [None] when it raises. *)
Variable float_of : pyobj → option R.

(** The block that fills [gps]; the result is the dict stored under
    ["gps"], [None] when nothing is stored. *)
Definition gps_of (lat lon alt : pyobj) : option pyobj :=
  if negb (is_py_none lat) && negb (is_py_none lon) then
    la ← float_of lat;
    lo ← float_of lon;
    let gps := [(PyStr "lat", PyFloat la); (PyStr "lon", PyFloat lo)] in
    if negb (is_py_none alt) then
      al ← float_of alt;
      Some (PyDict (gps ++ [(PyStr "alt", PyFloat al)]))
    else Some (PyDict gps)
  else None.

(** [extract_photo_metadata]: [exiftool] and [pillow] are the dicts the two
    readers return (empty when a reader fails), [size] is the width and
    height [Image.open] gives, [None] when it raises.  The result is the
    final dict, as its items in insertion order. *)
Definition extract_photo_metadata (exiftool pillow : gmap string pyobj)
    (size : option (Z * Z)) : list (string * pyobj) :=
  let exif := exif_of exiftool pillow in
  let capture :=
    [("datetime", pick exif ["DateTimeOriginal"; "CreateDate"; "ModifyDate"]);
     ("exposure", pick exif ["ExposureTime"]);
     ("iso", pick exif ["ISO"]);
     ("f_number", pick exif ["FNumber"; "ApertureValue"]);
     ("focal_length_mm", pick exif ["FocalLength"]);
     ("camera_make", pick exif ["Make"]);
     ("camera_model", pick exif ["Model"])] in
  let lat := pick exif ["GPSLatitude"] in
  let lon := pick exif ["GPSLongitude"] in
  let alt := pick exif ["GPSAltitude"] in
  let capture :=
    match gps_of lat lon alt with
    | Some gps => capture ++ [("gps", gps)]
    | None => capture
    end in
  let capture :=
    match size with
    | Some (w, h) => capture ++ [("image_width", PyInt w); ("image_height", PyInt h)]
    | None => capture
    end in
  filter (λ kv, is_py_none kv.2 = false) capture.

End Photo.

(** The keys a capture dict may hold, in the order they are set. *)
Definition capture_keys : list string :=
  ["datetime"; "exposure"; "iso"; "f_number"; "focal_length_mm"; "camera_make";
   "camera_model"; "gps"; "image_width"; "image_height"].

(** [exif.get(k)] *)
Definition tag (exif : gmap string pyobj) (k : string) : pyobj := default PyNone (exif !! k).

(** [{"lat": la, "lon": lo}] with an optional ["alt"], all floats. *)
Definition gps_dict (g : pyobj) : Prop :=
  ∃ la lo,
    g = PyDict [(PyStr "lat", PyFloat la); (PyStr "lon", PyFloat lo)]
    ∨ ∃ al, g = PyDict [(PyStr "lat", PyFloat la); (PyStr "lon", PyFloat lo);
                        (PyStr "alt", PyFloat al)].

End Capture.

(** ** What [to_native] needs in order not to raise *)

Module Conversion.
Import Native.

(** Every [Fraction] or [Decimal] that [to_native] reaches converts to a
    float.  The elements of a numpy array do not count: an exception below
    an array is caught and the array becomes its text. *)
Fixpoint floatable (obj : pyobj) : Prop :=
  match obj with
  | PyRational as_float => is_Some as_float
  | PyDict items => foldr (λ kv P, floatable kv.2 ∧ P) True items
  | PyList l | PyTuple l | PySet l => foldr (λ x P, floatable x ∧ P) True l
  | _ => True
  end.

End Conversion.

(** ** The store, step by step *)

Module Ledger.
Import Text Jobs.

(** The directory of one job replaced by [f] of it, its layout made first. *)
Definition update_dir (job_id : string) (f : job_dir → job_dir) (d : store) : store :=
  <[job_id := f (ensure_layout (d !! job_id))]> d.

(** The disk after [status.json], [result.json], [task.log] or a file of
    [input] has been written. *)
Definition set_status (job_id : string) (c : content) : store → store :=
  update_dir job_id (λ j, JobDir (input_dir j) (output_dir j) (Some c) (log_file j)).

Definition set_result (job_id : string) (c : content) : store → store :=
  update_dir job_id (λ j, JobDir (input_dir j) (Some (Some c)) (status_file j) (log_file j)).

Definition add_log (job_id : string) (s : string) : store → store :=
  update_dir job_id
    (λ j, JobDir (input_dir j) (output_dir j) (status_file j)
            (Some (default EmptyString (log_file j) +:+ s))).

Definition add_input (job_id name data : string) : store → store :=
  update_dir job_id
    (λ j, JobDir (Some (<[name := data]> (default ∅ (input_dir j)))) (output_dir j)
            (status_file j) (log_file j)).

(** The text of [task.log]; empty when there is no log. *)
Definition log_of (d : store) (job_id : string) : string :=
  match d !! job_id with
  | Some j => default EmptyString (log_file j)
  | None => EmptyString
  end.

(** The files copied into [input]. *)
Definition inputs_of (d : store) (job_id : string) : gmap string string :=
  match d !! job_id with
  | Some j => default ∅ (input_dir j)
  | None => ∅
  end.

(** [params or current.get("params")] *)
Definition sticky_params (params : option (gmap string json)) (o : gmap string json) : json :=
  match params with
  | Some p => if truthy (JObj p) then JObj p else get "params" o
  | None => get "params" o
  end.

(** The dict [write_status] stores and returns, from the dict [o] it starts
    from: [current.update({...})]. *)
Definition updated_status (job_id state : string) (message : option string)
    (params : option (gmap string json)) (now : Q) (o : gmap string json)
    : gmap string json :=
  <["updated_at" := JFloat now]>
    (<["params" := sticky_params params o]>
       (<["message" := from_option JStr JNull message]>
          (<["state" := JStr state]>
             (<["job_id" := JStr job_id]> o)))).

(** The five keys [write_status] sets. *)
Definition status_keys : list string :=
  ["job_id"; "state"; "message"; "params"; "updated_at"].

(** The text [run_worker] appends to the log of a finished child. *)
Definition log_entry (cmd : string) (proc : completed_process) : string :=
  "[cmd] " +:+ cmd +:+ nl
  +:+ "[stdout]" +:+ nl +:+ stdout proc +:+ nl
  +:+ "[stderr]" +:+ nl +:+ stderr proc +:+ nl.

(** The states of the job that a list of disks shows. *)
Definition states_of (job_id : string) (ds : list store) : list (option json) :=
  (λ d, job_state d job_id) <$> ds.

(** A worker on job [4f2a], as [submit] launches it for [m42.jpg]. *)
Definition demo_worker (subprocess_run : string → run_result)
    (json_loads : string → option json) : M Z :=
  run_worker "astro_extract.py" (λ s, s) (λ _, EmptyString) (λ _, EmptyString)
    subprocess_run json_loads
    "4f2a" "/srv/astro_jobs/4f2a/input/m42.jpg" None None (Some 2%Z) (Some 600%Z)
    1%Q 2%Q.

(** The dict [write_status] starts from at time 1 when that job has no
    status yet. *)
Definition fresh_status : gmap string json :=
  <["created_at" := JFloat 1%Q]> (<["job_id" := JStr "4f2a"]> ∅).

End Ledger.

(** * Properties *)

(** ** Geometry and reconciliation *)

Section ReconcilerFacts.
Import Text Geometry Reconciler.

Section GeometryFacts.
Local Open Scope R_scope.

(** An angle of [0, pi] radians is an angle of [0, 180] degrees. *)
Lemma degrees_range (x : R) : 0 <= x <= PI → 0 <= degrees x <= 180.
Proof.
  intros [H0 H1]. pose proof PI_RGT_0 as Hpi. unfold degrees.
  assert (Hinv : 0 < / PI) by (apply Rinv_0_lt_compat; lra).
  assert (Hone : PI * / PI = 1) by (apply Rinv_r; lra).
  unfold Rdiv. split; [nra|].
  replace 180 with (PI * (180 * / PI)) at 2
    by (rewrite (Rmult_comm 180), <- Rmult_assoc, Hone; lra).
  apply Rmult_le_compat_r; nra.
Qed.

Lemma angsep_deg_bounds (ra1 dec1 ra2 dec2 : R) :
  0 <= angsep_deg ra1 dec1 ra2 dec2 <= 180.
Proof. unfold angsep_deg. apply degrees_range, acos_bound. Qed.

End GeometryFacts.

Example norm_folds_and_trims : norm "  Crescent NEBULA " = "crescent nebula".
Proof. reflexivity. Qed.

(** One merge, read through the names and catalogs of its entries: the
    first record named like the mention wins over the second, the two
    records named M43 are both appended, the line without coordinates is
    not. *)
Example merge_on_a_small_field :
  let A := [stdout_mention "M 42" "M 42" (Some "M") (Some "42")] in
  let B := [objs_record "m 42, 83, -5" (Some "m 42") (Some 83%R) (Some (-5)%R)
              (Some "first") None;
            objs_record "M 42, 84, -5" (Some "M 42") (Some 84%R) (Some (-5)%R)
              (Some "second") None;
            objs_record "M43 83 -5" (Some "M43") (Some 83%R) (Some (-5)%R) None None;
            objs_record "m43 84 -5" (Some "m43") (Some 84%R) (Some (-5)%R) None None;
            objs_record "no coordinates here" None None None None None] in
  option_map (map (λ o : obj, (o !! "raw", o !! "name", o !! "catalog"))) (merge A B)
  = Some [(Some (VStr "M 42"), Some (VStr "m 42"), Some (VStr "first"));
          (None, Some (VStr "M43"), None);
          (None, Some (VStr "m43"), None)].
Proof. vm_compute. reflexivity. Qed.

(** Concrete lists of parser records have the parser shapes. *)
Ltac parser_shapes :=
  repeat constructor;
  first [ by eexists _, _, _, _ | by eexists _, _, _, _, _, _ ].

Lemma text_mention_name o : text_mention o → ∃ s, o !! "name" = Some (VStr s).
Proof.
  intros (line & name & c & i & ->). exists name. unfold stdout_mention, set_if_true.
  destruct c as [c|], i as [i|]; repeat case_match; by simplify_map_eq.
Qed.

Lemma text_mention_plain o : text_mention o → plain o.
Proof.
  intros (line & name & c & i & ->). unfold stdout_mention, set_if_true, plain.
  destruct c as [c|], i as [i|]; repeat case_match; simplify_map_eq; naive_solver.
Qed.

Lemma aux_record_name p : aux_record p → name_is_text p.
Proof.
  intros (t & name & ra & dec & c & i & ->) v. unfold objs_record, set_if_true.
  destruct name, ra, dec, c as [c|], i as [i|]; repeat case_match;
    simplify_map_eq; naive_solver.
Qed.

Lemma aux_record_plain p : aux_record p → plain p.
Proof.
  intros (t & name & ra & dec & c & i & ->). unfold objs_record, set_if_true, plain.
  destruct name, ra, dec, c as [c|], i as [i|]; repeat case_match;
    simplify_map_eq; naive_solver.
Qed.

Lemma named_nonempty (p : obj) v : p !! "name" = Some v → p ≠ ∅.
Proof. intros H ->. by rewrite lookup_empty in H. Qed.

Lemma update_from_lookup (p o : obj) k :
  update_from p o !! k =
    match (if String.eqb k "raw" then None else p !! k) with
    | Some v => Some v
    | None => o !! k
    end.
Proof.
  unfold update_from. rewrite lookup_union.
  destruct (String.eqb_spec k "raw") as [->|Hne].
  - rewrite lookup_delete_eq. by destruct (o !! "raw").
  - rewrite lookup_delete_ne by done.
    destruct (p !! k), (o !! k); done.
Qed.

Lemma update_from_plain p o : plain p → plain o → plain (update_from p o).
Proof.
  intros (Hp1 & Hp2 & Hp3) (Ho1 & Ho2 & Ho3). unfold plain.
  rewrite !update_from_lookup. simpl. rewrite Hp1.
  split; [done|]. split; intros v.
  - destruct (p !! "ra_deg") eqn:E; naive_solver.
  - destruct (p !! "dec_deg") eqn:E; naive_solver.
Qed.


Lemma not_named_as_cons key (p : obj) s :
  p !! "name" = Some (VStr s) → norm s ≠ key → ¬ named_as key p.
Proof. intros Hp Hne (s' & Hs' & Hk). congruence. Qed.

Lemma not_named_as_None key (p : obj) : p !! "name" = None → ¬ named_as key p.
Proof. intros Hp (s' & Hs' & _). congruence. Qed.

Lemma find_match_spec key B :
  Forall name_is_text B →
  (∃ p, find_match key B = Some (Some p) ∧ first_named key B p)
  ∨ (find_match key B = Some None ∧ Forall (λ q, ¬ named_as key q) B).
Proof.
  induction 1 as [|p B Hp HB IH]; simpl.
  - right. by split.
  - destruct (p !! "name") as [v|] eqn:Hname.
    + destruct (Hp v Hname) as [s ->]. simpl.
      destruct (String.eqb_spec (norm s) key) as [Heq|Hne].
      * left. exists p. split; [done|]. exists [], B. repeat split; [|done].
        by exists s.
      * destruct IH as [(q & Hq & B1 & B2 & -> & Hn & HB1)|[Hq Hall]].
        -- left. exists q. split; [done|]. exists (p :: B1), B2.
           repeat split; [done|]. constructor; [|done].
           by eapply not_named_as_cons.
        -- right. split; [done|]. constructor; [|done].
           by eapply not_named_as_cons.
    + destruct IH as [(q & Hq & B1 & B2 & -> & Hn & HB1)|[Hq Hall]].
      * left. exists q. split; [done|]. exists (p :: B1), B2.
        repeat split; [done|]. constructor; [|done]. by apply not_named_as_None.
      * right. split; [done|]. constructor; [|done]. by apply not_named_as_None.
Qed.

Lemma first_named_name key B p : first_named key B p → ∃ v, p !! "name" = Some v.
Proof. intros (_ & _ & _ & (s & Hs & _) & _). eauto. Qed.

Lemma text_mention_key o : text_mention o → ∃ key, mention_key o = Some key.
Proof.
  intros [s Hs]%text_mention_name. unfold mention_key. rewrite Hs. simpl. eauto.
Qed.

(** What one turn of the first loop returns. *)
Lemma enrich_spec B o :
  Forall name_is_text B → text_mention o →
  ∃ key o2, mention_key o = Some key ∧ enrich B o = Some (o2, key) ∧
    ((∃ p, first_named key B p ∧ o2 = update_from p o)
     ∨ (Forall (λ q, ¬ named_as key q) B ∧ o2 = o)).
Proof.
  intros HB Ho. destruct (text_mention_key o Ho) as [key Hkey].
  unfold enrich. rewrite Hkey. simpl.
  destruct (find_match_spec key B HB) as [(p & -> & Hp)|[-> Hnone]]; simpl.
  - destruct (first_named_name _ _ _ Hp) as [v Hv].
    rewrite bool_decide_eq_true_2 by by eapply named_nonempty.
    exists key, (update_from p o). eauto 10.
  - exists key, o. eauto 10.
Qed.

Lemma enrich_all_spec B A :
  Forall name_is_text B → Forall text_mention A →
  ∃ head, enrich_all B A = Some (head, keys_of A) ∧
    Forall2 (λ o o2, ∃ key, mention_key o = Some key ∧
      ((∃ p, first_named key B p ∧ o2 = update_from p o)
       ∨ (Forall (λ q, ¬ named_as key q) B ∧ o2 = o))) A head.
Proof.
  intros HB. induction 1 as [|o A Ho HA (head & IH & IH2)]; simpl.
  - exists []. split; [done|]. constructor.
  - destruct (enrich_spec B o HB Ho) as (key & o2 & Hkey & -> & Hcase). simpl.
    rewrite IH. simpl. exists (o2 :: head). split.
    + unfold keys_of. simpl. by rewrite Hkey.
    + constructor; eauto.
Qed.

Lemma append_unused_spec used B :
  Forall name_is_text B →
  append_unused used B = Some (filter (λ p, unmatched used p) B).
Proof.
  induction 1 as [|p B Hp HB IH]; simpl; [done|].
  rewrite filter_cons.
  destruct (decide (unmatched used p)) as [Hu|Hu]; unfold unmatched in Hu;
    destruct (p !! "name") as [v|] eqn:Hname; try done.
  - destruct (Hp v Hname) as [s ->]. simpl. rewrite IH. simpl.
    apply bool_decide_unpack in Hu. by rewrite bool_decide_eq_false_2.
  - destruct (Hp v Hname) as [s ->]. simpl. rewrite IH. simpl.
    rewrite bool_decide_eq_true_2; [done|].
    destruct (decide (norm s ∈ used)); [done|]. exfalso. apply Hu.
    by apply bool_decide_pack.
Qed.

Lemma merge_spec A B :
  Forall text_mention A → Forall aux_record B →
  ∃ head, merge A B = Some (head ++ filter (λ p, unmatched (keys_of A) p) B) ∧
    Forall2 (λ o o2, ∃ key, mention_key o = Some key ∧
      ((∃ p, first_named key B p ∧ o2 = update_from p o)
       ∨ (Forall (λ q, ¬ named_as key q) B ∧ o2 = o))) A head.
Proof.
  intros HA HB.
  assert (HB' : Forall name_is_text B) by (eapply Forall_impl; [done|apply aux_record_name]).
  destruct (enrich_all_spec B A HB' HA) as (head & Hhead & H2).
  exists head. split; [|done].
  unfold merge. rewrite Hhead. simpl. by rewrite append_unused_spec.
Qed.

(** Claim C1.  For all lists [A] of text mentions and [B] of records of the
    [.objs] file, the merge returns a list whose first [length A] entries
    are the entries of [A], one each and in order.  The entry made from
    [o] is [o] itself when no record of [B] is named like [o]; otherwise it
    is [o] with every field but ["raw"] of the first such record laid over
    it, and the records after that one play no part.  All later entries
    come from [B]. *)
Theorem merge_keeps_each_text_mention (A B : list obj) :
  Forall text_mention A → Forall aux_record B →
  ∃ merged, merge A B = Some merged ∧ length A ≤ length merged ∧
    (∀ i o, A !! i = Some o →
       ∃ key o2, mention_key o = Some key ∧ merged !! i = Some o2 ∧
         ((∃ p, first_named key B p ∧
             ∀ k, o2 !! k =
                    match (if String.eqb k "raw" then None else p !! k) with
                    | Some v => Some v
                    | None => o !! k
                    end)
          ∨ (Forall (λ q, ¬ named_as key q) B ∧ o2 = o))) ∧
    (∀ i q, length A ≤ i → merged !! i = Some q → q ∈ B).
Proof.
  intros HA HB. destruct (merge_spec A B HA HB) as (head & Hm & H2).
  pose proof (Forall2_length _ _ _ H2) as Hlen.
  eexists. split; [exact Hm|]. split; [rewrite length_app; lia|]. split.
  - intros i o Hi.
    destruct (Forall2_lookup_l _ _ _ _ _ H2 Hi) as (o2 & Ho2 & key & Hkey & Hcase).
    exists key, o2. split; [done|]. split.
    { rewrite lookup_app_l; [done|]. by eapply lookup_lt_Some. }
    destruct Hcase as [(p & Hp & ->)|[Hnone ->]]; [left|right; done].
    exists p. split; [done|]. intros k. apply update_from_lookup.
  - intros i q Hi Hq. rewrite lookup_app_r in Hq by lia.
    apply list_elem_of_lookup_2, list_elem_of_filter in Hq. tauto.
Qed.

Lemma merge_keeps_each_text_mention_witness :
  let A := [stdout_mention "NGC 6888 / Crescent Nebula" "Crescent Nebula"
              (Some "NGC") (Some "6888")] in
  let B := [objs_record "crescent nebula, 303, 38" (Some "crescent nebula")
              (Some 303%R) (Some 38%R) None None;
            objs_record "Crescent Nebula 1 2" (Some "Crescent Nebula")
              (Some 1%R) (Some 2%R) (Some "Crescent") (Some "Nebula")] in
  Forall text_mention A ∧ Forall aux_record B ∧
  ∃ merged, merge A B = Some merged ∧ length A ≤ length merged.
Proof.
  intros A B.
  assert (HA : Forall text_mention A) by parser_shapes.
  assert (HB : Forall aux_record B) by parser_shapes.
  split; [exact HA|]. split; [exact HB|].
  destruct (merge_keeps_each_text_mention A B HA HB) as (merged & Hm & Hlen & _).
  exists merged. by split.
Defined.

Lemma merge_head_named A B head :
  Forall text_mention A →
  Forall2 (λ o o2, ∃ key, mention_key o = Some key ∧
      ((∃ p, first_named key B p ∧ o2 = update_from p o)
       ∨ (Forall (λ q, ¬ named_as key q) B ∧ o2 = o))) A head →
  Forall (λ o2, is_Some (o2 !! "name")) head.
Proof.
  intros HA H2. induction H2 as [|o o2 A head (key & Hkey & Hcase) H2 IH]; [constructor|].
  apply Forall_cons in HA as [Ho HA]. constructor; [|by apply IH].
  destruct (text_mention_name o Ho) as [s Hs].
  destruct Hcase as [(p & Hp & ->)|[_ ->]]; [|by rewrite Hs].
  rewrite update_from_lookup. simpl.
  destruct (first_named_name _ _ _ Hp) as [v ->]. done.
Qed.

(** Claim C2, as amended.  The merged list is the [length A] entries made
    from [A] followed by the records of [B] that have a name no text
    mention shares, each of them once and in the order of [B], also when
    several of them have the same normal name.  A record of [B] without a
    name matches no key and is not in the merged list. *)
Theorem merge_appends_unmatched_records (A B : list obj) :
  Forall text_mention A → Forall aux_record B →
  ∃ head merged, merge A B = Some merged ∧
    length head = length A ∧
    merged = head ++ filter (λ p, unmatched (keys_of A) p) B ∧
    (∀ p, p ∈ B → p !! "name" = None → (∀ key, ¬ named_as key p) ∧ p ∉ merged).
Proof.
  intros HA HB. destruct (merge_spec A B HA HB) as (head & Hm & H2).
  exists head, (head ++ filter (λ p, unmatched (keys_of A) p) B).
  split; [done|]. split; [by erewrite <- Forall2_length|]. split; [done|].
  intros p Hp Hname. split; [intros key; by apply not_named_as_None|].
  intros [Hin|Hin]%elem_of_app.
  - pose proof (merge_head_named A B head HA H2) as Hn.
    rewrite Forall_forall in Hn. apply Hn in Hin. rewrite Hname in Hin.
    by destruct Hin.
  - apply list_elem_of_filter in Hin as [Hu _]. unfold unmatched in Hu.
    by rewrite Hname in Hu.
Qed.

Lemma merge_appends_unmatched_records_witness :
  let A := [stdout_mention "M 42" "M 42" (Some "M") (Some "42")] in
  let B := [objs_record "m 42, 83, -5" (Some "m 42") (Some 83%R) (Some (-5)%R) None None;
            objs_record "M43 83 -5" (Some "M43") (Some 83%R) (Some (-5)%R) None None;
            objs_record "m43 84 -5" (Some "m43") (Some 84%R) (Some (-5)%R) None None;
            objs_record "no coordinates here" None None None None None] in
  Forall text_mention A ∧ Forall aux_record B ∧
  ∃ head merged, merge A B = Some merged ∧ length head = length A ∧
    merged = head ++ filter (λ p, unmatched (keys_of A) p) B.
Proof.
  intros A B.
  assert (HA : Forall text_mention A) by parser_shapes.
  assert (HB : Forall aux_record B) by parser_shapes.
  split; [exact HA|]. split; [exact HB|].
  destruct (merge_appends_unmatched_records A B HA HB) as (head & merged & Hm & Hlen & Heq & _).
  exists head, merged. by repeat split.
Defined.

(** Claim C2 fails as stated: a record of the [.objs] file that has no name
    is not in the merged list. *)
Lemma raw_only_record_is_dropped :
  let p := objs_record "no coordinates here" None None None None None in
  aux_record p ∧ p !! "name" = None ∧ merge [] [p] = Some [] ∧
  ¬ (∀ merged, merge [] [p] = Some merged → p ∈ merged).
Proof.
  intros p. split.
  { by exists "no coordinates here", None, None, None, None, None. }
  split; [done|]. split; [done|].
  intros H. specialize (H [] eq_refl). by apply elem_of_nil in H.
Qed.

Section Sorting.
Local Open Scope R_scope.

Lemma Rltb_true x y : Rltb x y = true ↔ x < y.
Proof. unfold Rltb. destruct (Rlt_dec x y); naive_solver. Qed.

Lemma Rltb_false x y : Rltb x y = false ↔ y <= x.
Proof. unfold Rltb. destruct (Rlt_dec x y); split; intros; try done; lra. Qed.

Lemma insert_sorted_num x l :
  numeric x → Forall numeric l → insert_sorted x l = Some (insert_num x l).
Proof.
  intros Hx. induction 1 as [|y l Hy Hl IH]; simpl; [done|].
  rewrite Hx, Hy. simpl. destruct (Rltb _ _); [|done]. by rewrite IH.
Qed.

Lemma insert_num_perm x l : insert_num x l ≡ₚ x :: l.
Proof.
  induction l as [|y l IH]; simpl; [done|].
  destruct (Rltb _ _); [|done]. rewrite IH. apply Permutation_swap.
Qed.

Lemma sort_num_perm l : sort_num l ≡ₚ l.
Proof.
  induction l as [|x l IH]; simpl; [done|]. by rewrite insert_num_perm, IH.
Qed.

Lemma sort_by_sep_num l :
  Forall numeric l → sort_by_sep l = Some (sort_num l).
Proof.
  induction 1 as [|x l Hx Hl IH]; simpl; [done|].
  rewrite IH. simpl. apply insert_sorted_num; [done|].
  by rewrite sort_num_perm.
Qed.

Lemma insert_num_sorted x l :
  StronglySorted key_le l → StronglySorted key_le (insert_num x l).
Proof.
  induction 1 as [|y l Hl IH Hy]; simpl.
  - repeat constructor.
  - destruct (Rltb _ _) eqn:E.
    + apply Rltb_true in E. constructor; [done|].
      rewrite insert_num_perm. constructor; [unfold key_le; lra|done].
    + apply Rltb_false in E. constructor; [by constructor|].
      constructor; [done|]. eapply Forall_impl; [exact Hy|].
      unfold key_le. intros; simpl in *; lra.
Qed.

Lemma sort_num_sorted l : StronglySorted key_le (sort_num l).
Proof.
  induction l; simpl; [constructor|by apply insert_num_sorted].
Qed.

Lemma insert_num_filter (P : obj → Prop) `{!∀ o, Decision (P o)} x l :
  (∀ a b, P a → P b → num_key a = num_key b) →
  filter P (insert_num x l) = filter P (x :: l).
Proof.
  intros HP. induction l as [|y l IH]; simpl; [done|].
  destruct (Rltb _ _) eqn:E; [|done]. apply Rltb_true in E.
  rewrite filter_cons, IH, !filter_cons.
  destruct (decide (P y)) as [Hy|Hy], (decide (P x)) as [Hx|Hx]; try done.
  specialize (HP _ _ Hx Hy). lra.
Qed.

Lemma sort_num_filter (P : obj → Prop) `{!∀ o, Decision (P o)} l :
  (∀ a b, P a → P b → num_key a = num_key b) →
  filter P (sort_num l) = filter P l.
Proof.
  intros HP. induction l as [|x l IH]; simpl; [done|].
  rewrite insert_num_filter by done. by rewrite !filter_cons, IH.
Qed.

Lemma StronglySorted_lookup {A} (Rel : A → A → Prop) l i j a b :
  StronglySorted Rel l → (i < j)%nat → l !! i = Some a → l !! j = Some b → Rel a b.
Proof.
  intros Hs. revert i j. induction Hs as [|x l Hl IH Hx]; intros i j Hij Hi Hj; [done|].
  destruct j as [|j]; [lia|]. simpl in Hj. destruct i as [|i]; simpl in Hi.
  - simplify_eq. rewrite Forall_forall in Hx. apply Hx.
    by eapply list_elem_of_lookup_2.
  - eapply (IH i j); [lia|done..].
Qed.

End Sorting.

Section SortedOutput.
Local Open Scope R_scope.
Variable float_of_str : string → option R.

Lemma missing_sep_large : 10800 < missing_sep.
Proof. unfold missing_sep. lra. Qed.

Lemma first_named_elem key B p : first_named key B p → p ∈ B.
Proof. intros (B1 & B2 & -> & _). set_solver. Qed.

Lemma merge_plain A B merged :
  Forall text_mention A → Forall aux_record B →
  merge A B = Some merged → Forall plain merged.
Proof.
  intros HA HB Hm. destruct (merge_spec A B HA HB) as (head & Hm' & H2).
  rewrite Hm in Hm'. injection Hm' as ->.
  assert (HBp : Forall plain B) by (eapply Forall_impl; [done|apply aux_record_plain]).
  apply Forall_app. split.
  - clear Hm. induction H2 as [|o o2 A head (key & _ & Hcase) H2 IH]; [constructor|].
    apply Forall_cons in HA as [Ho HA]. constructor; [|by apply IH].
    apply text_mention_plain in Ho.
    destruct Hcase as [(p & Hp & ->)|[_ ->]]; [|done].
    apply update_from_plain; [|done].
    rewrite Forall_forall in HBp. by apply HBp, (first_named_elem key).
  - rewrite Forall_forall in HBp. apply Forall_forall.
    intros p [_ Hp]%list_elem_of_filter. by apply HBp.
Qed.

Lemma with_sep_plain ra_c dec_c o :
  plain o →
  ∃ o', with_sep float_of_str ra_c dec_c o = Some o' ∧ numeric o' ∧
    (sep_of o' = None
     ∨ ∃ a b c d, sep_of o' = Some (angsep_deg a b c d * 60)).
Proof.
  intros (Hsep & Hra & Hdec). unfold with_sep.
  assert (Hplain : numeric o ∧ sep_of o = None).
  { unfold numeric, num_key, sort_key, sep_of. by rewrite Hsep. }
  destruct ra_c as [ra_c|]; [|exists o; naive_solver].
  destruct dec_c as [dec_c|]; [|exists o; naive_solver].
  destruct (o !! "ra_deg") as [v|] eqn:E1; [|exists o; naive_solver].
  destruct (o !! "dec_deg") as [w|] eqn:E2; [|exists o; naive_solver].
  destruct (Hra v eq_refl) as [x ->]. destruct (Hdec w eq_refl) as [y ->]. simpl.
  eexists. split; [done|]. split.
  - unfold numeric, num_key, sort_key, sep_of. by rewrite lookup_insert_eq.
  - right. exists ra_c, dec_c, x, y. unfold sep_of. by rewrite lookup_insert_eq.
Qed.

Lemma separations_plain ra_c dec_c merged :
  Forall plain merged →
  ∃ pre, separations float_of_str ra_c dec_c merged = Some pre ∧
    Forall numeric pre ∧
    Forall (λ o, ∀ x, sep_of o = Some x → x <= 10800) pre.
Proof.
  unfold separations. induction 1 as [|o l Ho Hl (pre & IH & Hn & Hb)].
  - exists []. by repeat split.
  - destruct (with_sep_plain ra_c dec_c o Ho) as (o' & Ho' & Hnum & Hsep).
    exists (o' :: pre). rewrite mapM_Some in IH. split.
    { apply mapM_Some. by constructor. }
    split; [by constructor|]. constructor; [|done].
    intros x Hx. destruct Hsep as [Hs|(a & b & c & d & Hs)]; [congruence|].
    rewrite Hs in Hx. injection Hx as <-.
    pose proof (angsep_deg_bounds a b c d). lra.
Qed.

(** Claim C3.  For all text mentions [A], records [B] and field centre,
    the reconciler returns a list [out] that is a permutation of the merged
    list [pre] with its separations; in [out] separations never decrease,
    every entry with a separation stands before every entry without one,
    and the entries of any class with one common separation, or with none,
    are in the order they had in [pre]. *)
Theorem reconcile_sorted_stable (ra_c dec_c : option R) (A B : list obj) :
  Forall text_mention A → Forall aux_record B →
  ∃ merged pre out,
    merge A B = Some merged ∧
    separations float_of_str ra_c dec_c merged = Some pre ∧
    reconcile float_of_str ra_c dec_c A B = Some out ∧
    out ≡ₚ pre ∧
    (∀ i j a b x y, out !! i = Some a → out !! j = Some b →
       sep_of a = Some x → sep_of b = Some y → (i < j)%nat → x <= y) ∧
    (∀ i j a b, out !! i = Some a → out !! j = Some b →
       is_Some (sep_of a) → sep_of b = None → (i < j)%nat) ∧
    (∀ (P : obj → Prop) (P_dec : ∀ o, Decision (P o)),
       (∀ a b, P a → P b → sep_of a = sep_of b) →
       filter P out = filter P pre).
Proof.
  intros HA HB.
  destruct (merge_spec A B HA HB) as (head & Hm & _).
  set (merged := head ++ filter (λ p, unmatched (keys_of A) p) B) in *.
  pose proof (merge_plain A B merged HA HB Hm) as Hplain.
  destruct (separations_plain ra_c dec_c merged Hplain) as (pre & Hpre & Hnum & Hbound).
  exists merged, pre, (sort_num pre).
  assert (Hout : reconcile float_of_str ra_c dec_c A B = Some (sort_num pre)).
  { unfold reconcile. rewrite Hm. simpl. rewrite Hpre. simpl. by apply sort_by_sep_num. }
  assert (Hbound' : Forall (λ o, ∀ x, sep_of o = Some x → x <= 10800) (sort_num pre)).
  { by rewrite sort_num_perm. }
  rewrite Forall_forall in Hbound'.
  pose proof (sort_num_sorted pre) as Hsorted.
  pose proof missing_sep_large as Hlarge.
  repeat split; try done.
  - apply sort_num_perm.
  - intros i j a b x y Hi Hj Ha Hb Hij.
    pose proof (StronglySorted_lookup _ _ _ _ _ _ Hsorted Hij Hi Hj) as Hle.
    unfold key_le, num_key in Hle. by rewrite Ha, Hb in Hle.
  - intros i j a b Hi Hj [x Ha] Hb.
    destruct (Nat.lt_trichotomy i j) as [Hlt|[->|Hgt]]; [done|congruence|].
    pose proof (StronglySorted_lookup _ _ _ _ _ _ Hsorted Hgt Hj Hi) as Hle.
    unfold key_le, num_key in Hle. rewrite Ha, Hb in Hle. simpl in Hle.
    pose proof (Hbound' a (list_elem_of_lookup_2 _ _ _ Hi) x Ha). lra.
  - intros P HdecP HP. apply sort_num_filter. intros a b Ha Hb.
    unfold num_key. by rewrite (HP a b Ha Hb).
Qed.

(** Claim C10.  [angsep_deg] lies in [0, 180] for all real arguments; a
    separation in arc-minutes is therefore at most 10800, below the key
    [1e9] of an entry without one, and of two such keys the sort finds the
    separation smaller, never the other way round. *)
Theorem separation_below_missing_key (ra1 dec1 ra2 dec2 : R) (o o' : obj) :
  let sep_deg := angsep_deg ra1 dec1 ra2 dec2 in
  let found : obj := <["sep_arcmin" := VNum (sep_deg * 60)]> o in
  let lacking : obj := delete "sep_arcmin" o' in
  0 <= sep_deg <= 180 ∧
  sep_deg * 60 <= 10800 ∧
  sep_deg * 60 < missing_sep ∧
  field_lt (sort_key found) (sort_key lacking) = Some true ∧
  field_lt (sort_key lacking) (sort_key found) = Some false.
Proof.
  intros sep_deg found lacking.
  pose proof (angsep_deg_bounds ra1 dec1 ra2 dec2) as Hb. fold sep_deg in Hb.
  pose proof missing_sep_large as Hlarge.
  unfold sort_key, found, lacking. rewrite lookup_insert_eq, lookup_delete_eq. simpl.
  repeat split; try lra.
  - f_equal. apply Rltb_true. lra.
  - f_equal. apply Rltb_false. lra.
Qed.

End SortedOutput.

Lemma reconcile_sorted_stable_witness :
  let A := [stdout_mention "NGC 6888 / Crescent Nebula" "Crescent Nebula"
              (Some "NGC") (Some "6888");
            stdout_mention "The star Sadr" "The star Sadr" (Some "The") (Some "star Sadr")] in
  let B := [objs_record "crescent nebula, 303, 38" (Some "crescent nebula")
              (Some 303%R) (Some 38%R) None None;
            objs_record "IC 1318 305 40" (Some "IC 1318") (Some 305%R) (Some 40%R)
              (Some "IC") (Some "1318");
            objs_record "no coordinates here" None None None None None] in
  Forall text_mention A ∧ Forall aux_record B ∧
  ∃ pre out,
    reconcile (λ _, None) (Some 304%R) (Some 39%R) A B = Some out ∧ out ≡ₚ pre.
Proof.
  intros A B.
  assert (HA : Forall text_mention A) by parser_shapes.
  assert (HB : Forall aux_record B) by parser_shapes.
  split; [exact HA|]. split; [exact HB|].
  destruct (reconcile_sorted_stable (λ _, None) (Some 304%R) (Some 39%R) A B HA HB)
    as (merged & pre & out & _ & _ & Hout & Hperm & _).
  exists pre, out. by split.
Defined.

End ReconcilerFacts.

(** ** The header step *)

Section HeaderFacts.
Import Reconciler Wcs.

Section WcsFacts.
Variable float_of_str : string → option R.
Local Abbreviation float_of_card := (float_of_card float_of_str).
Local Abbreviation cd_entries := (cd_entries float_of_str).
Local Abbreviation wcs_step := (wcs_step float_of_str).

Lemma cd_entries_cons hdr k keys :
  cd_entries hdr (k :: keys) =
    match hdr !! k with
    | None => cd_entries hdr keys
    | Some c =>
        x ← float_of_card (Some c);
        cd ← cd_entries hdr keys;
        Some (<[k := x]> cd)
    end.
Proof. reflexivity. Qed.

Lemma cd_entries_Some hdr keys cd :
  cd_entries hdr keys = Some cd →
  ∀ k x, cd !! k = Some x ↔
    k ∈ keys ∧ ∃ c, hdr !! k = Some c ∧ float_of_card (Some c) = Some x.
Proof.
  revert cd. induction keys as [|k0 keys IH]; intros cd Hcd k x.
  - injection Hcd as <-. rewrite lookup_empty. split; [intros [=]|]. intros [[]%elem_of_nil _].
  - rewrite cd_entries_cons in Hcd. destruct (hdr !! k0) as [c0|] eqn:E0.
    + destruct (float_of_card (Some c0)) as [x0|] eqn:F0; [|done].
      destruct (Wcs.cd_entries _ hdr keys) as [cd'|]; [|done].
      injection Hcd as <-. specialize (IH cd' eq_refl k x).
      destruct (decide (k0 = k)) as [->|Hne].
      * rewrite lookup_insert_eq. split.
        -- intros [= <-]. split; [left|]. eauto.
        -- intros (_ & c & Hc & Hx). congruence.
      * rewrite lookup_insert_ne by done. rewrite IH, elem_of_cons. naive_solver.
    + specialize (IH cd Hcd k x). rewrite IH, elem_of_cons.
      split; [naive_solver|]. intros ([->|Hin] & c & Hc & Hx); [congruence|eauto].
Qed.

Lemma cd_entries_is_Some hdr keys :
  (∀ k c, k ∈ keys → hdr !! k = Some c → is_Some (float_of_card (Some c))) →
  is_Some (cd_entries hdr keys).
Proof.
  induction keys as [|k0 keys IH]; intros H; [done|].
  destruct IH as [cd Hcd]. { intros k c Hk. apply H. by right. }
  rewrite cd_entries_cons.
  destruct (hdr !! k0) as [c0|] eqn:E0; [|by rewrite Hcd].
  destruct (H k0 c0 ltac:(left) E0) as [x ->]. simpl. by rewrite Hcd.
Qed.

Lemma setdefault_other k v (astro : gmap string aval) k' :
  k ≠ k' → setdefault k v astro !! k' = astro !! k'.
Proof.
  intros Hne. unfold setdefault. destruct (astro !! k); [done|].
  by rewrite lookup_insert_ne.
Qed.

(** Claim C9, as amended.  With a readable [.wcs] header and no matrix in
    [astro] before: when none of the four fields [CD1_1], [CD1_2], [CD2_1],
    [CD2_2] is in the header, no matrix is stored; a stored matrix is a
    dict that holds exactly the fields among the four that the header has,
    at least one and possibly fewer than four, each as a float; and a
    matrix is stored as soon as [CRVAL1], [CRVAL2] and every present field
    of the four convert to a float and one of the four is present. *)
Theorem cd_matrix_holds_present_fields (hdr : gmap string card) (astro : gmap string aval) :
  astro !! "cd_matrix" = None →
  let out := wcs_step (Header hdr) astro in
  ((∀ k, k ∈ cd_keys → hdr !! k = None) → out !! "cd_matrix" = None) ∧
  (∀ v, out !! "cd_matrix" = Some v →
     ∃ cd, v = ACd cd ∧
       (∃ k, k ∈ cd_keys ∧ is_Some (hdr !! k)) ∧
       (∀ k x, cd !! k = Some x ↔
          k ∈ cd_keys ∧ ∃ c, hdr !! k = Some c ∧ float_of_card (Some c) = Some x)) ∧
  (is_Some (float_of_card (hdr !! "CRVAL1")) →
   is_Some (float_of_card (hdr !! "CRVAL2")) →
   (∀ k c, k ∈ cd_keys → hdr !! k = Some c → is_Some (float_of_card (Some c))) →
   (∃ k, k ∈ cd_keys ∧ is_Some (hdr !! k)) →
   is_Some (out !! "cd_matrix")).
Proof.
  intros Hnone out.
  assert (Hstored : ∀ v, out !! "cd_matrix" = Some v →
    ∃ cd, v = ACd cd ∧ cd ≠ ∅ ∧ cd_entries hdr cd_keys = Some cd).
  { intros v. unfold out, Wcs.wcs_step.
    destruct (float_of_card (hdr !! "CRVAL1")); [|congruence].
    destruct (float_of_card (hdr !! "CRVAL2"));
      [|rewrite setdefault_other by done; congruence].
    destruct (cd_entries hdr cd_keys) as [cd|];
      [|rewrite !setdefault_other by done; congruence].
    case_bool_decide as Hcd; [|rewrite !setdefault_other by done; congruence].
    rewrite lookup_insert_eq. intros [= <-]. eauto. }
  split; [|split].
  - intros Habsent. destruct (out !! "cd_matrix") as [v|] eqn:E; [|done].
    destruct (Hstored v eq_refl) as (cd & _ & Hne & Hcd). exfalso. apply Hne.
    apply map_empty. intros k. destruct (cd !! k) as [x|] eqn:Ek; [|done].
    apply (cd_entries_Some _ _ _ Hcd) in Ek as (Hk & c & Hc & _).
    rewrite Habsent in Hc; done.
  - intros v Hv. destruct (Hstored v Hv) as (cd & -> & Hne & Hcd).
    exists cd. split; [done|]. split; [|by apply cd_entries_Some].
    apply map_choose in Hne as (k & x & Hk).
    apply (cd_entries_Some _ _ _ Hcd) in Hk as (Hk & c & Hc & _). eauto.
  - intros [ra Hra] [dec Hdec] Hall (k & Hk & c & Hc).
    destruct (cd_entries_is_Some hdr cd_keys Hall) as [cd Hcd].
    destruct (Hall k c Hk Hc) as [x Hx].
    assert (cd !! k = Some x) as Hkx by (apply (cd_entries_Some _ _ _ Hcd); eauto).
    unfold out, Wcs.wcs_step. rewrite Hra, Hdec, Hcd.
    rewrite bool_decide_eq_true_2; [by rewrite lookup_insert_eq|].
    intros ->. by rewrite lookup_empty in Hkx.
Qed.

End WcsFacts.

Lemma cd_matrix_holds_present_fields_witness :
  let hdr : gmap string card := <["CRVAL2" := CNum 0]> (<["CRVAL1" := CNum 0]> ∅) in
  (∅ : gmap string aval) !! "cd_matrix" = None ∧
  wcs_step (λ _, None) (Header hdr) ∅ !! "cd_matrix" = None.
Proof.
  intros hdr.
  assert (H0 : (∅ : gmap string aval) !! "cd_matrix" = None) by reflexivity.
  split; [exact H0|].
  destruct (cd_matrix_holds_present_fields (λ _, None) hdr ∅ H0) as (Habsent & _).
  apply Habsent. intros k Hk. unfold cd_keys in Hk.
  repeat (apply elem_of_cons in Hk as [->|Hk]; [reflexivity|]).
  by apply elem_of_nil in Hk.
Defined.

(** Claim C9 fails as stated: a header with [CD1_1] alone gets a matrix with
    that one field. *)
Lemma partial_cd_matrix_is_stored :
  let hdr : gmap string card :=
    <["CD1_1" := CNum 1]> (<["CRVAL2" := CNum 0]> (<["CRVAL1" := CNum 0]> ∅)) in
  hdr !! "CD1_2" = None ∧
  wcs_step (λ _, None) (Header hdr) ∅ !! "cd_matrix" = Some (ACd {[ "CD1_1" := 1%R ]}).
Proof. split; reflexivity. Qed.

End HeaderFacts.

(** ** Normalisation *)

Section NativeFacts.
Import Native.

Section PyobjInd.
Variable P : pyobj → Prop.
Hypothesis HNone : P PyNone.
Hypothesis HBool : ∀ b, P (PyBool b).
Hypothesis HInt : ∀ n, P (PyInt n).
Hypothesis HFloat : ∀ x, P (PyFloat x).
Hypothesis HStr : ∀ s, P (PyStr s).
Hypothesis HRational : ∀ f, P (PyRational f).
Hypothesis HIFD : ∀ f t, P (PyIFDRational f t).
Hypothesis HBytes : ∀ d h, P (PyBytes d h).
Hypothesis HNpScalar : ∀ item, P item → P (PyNpScalar item).
Hypothesis HNdarray : ∀ l t, Forall P l → P (PyNdarray l t).
Hypothesis HDict : ∀ items, Forall (λ kv, P kv.1 ∧ P kv.2) items → P (PyDict items).
Hypothesis HList : ∀ l, Forall P l → P (PyList l).
Hypothesis HTuple : ∀ l, Forall P l → P (PyTuple l).
Hypothesis HSet : ∀ l, Forall P l → P (PySet l).
Hypothesis HOther : ∀ t, P (PyOther t).

Lemma pyobj_nested_ind : ∀ obj, P obj.
Proof using All.
  fix IH 1. intros [| | | | | | | |item|l t|items|l|l|l|t].
  - apply HNone.
  - apply HBool.
  - apply HInt.
  - apply HFloat.
  - apply HStr.
  - apply HRational.
  - apply HIFD.
  - apply HBytes.
  - apply HNpScalar, IH.
  - apply HNdarray. induction l as [|x l IHl]; constructor; [apply IH|apply IHl].
  - apply HDict. induction items as [|[k v] items IHl]; constructor;
      [split; apply IH|apply IHl].
  - apply HList. induction l as [|x l IHl]; constructor; [apply IH|apply IHl].
  - apply HTuple. induction l as [|x l IHl]; constructor; [apply IH|apply IHl].
  - apply HSet. induction l as [|x l IHl]; constructor; [apply IH|apply IHl].
  - apply HOther.
Qed.
End PyobjInd.

Lemma native_list l : native (PyList l) ↔ Forall native l.
Proof.
  simpl. induction l as [|x l IH]; simpl; [by split|].
  rewrite Forall_cons, IH. done.
Qed.

Lemma native_dict_items (items : list (pyobj * pyobj)) :
  foldr (λ kv P, (∃ s, kv.1 = PyStr s) ∧ native kv.2 ∧ P) True items
  ↔ Forall (λ kv, (∃ s, kv.1 = PyStr s) ∧ native kv.2) items.
Proof.
  induction items as [|kv items IH]; simpl; [by split|].
  rewrite Forall_cons, IH. tauto.
Qed.

Lemma native_dict items :
  native (PyDict items) ↔
    NoDup (items.*1) ∧ Forall (λ kv, (∃ s, kv.1 = PyStr s) ∧ native kv.2) items.
Proof. simpl. by rewrite native_dict_items. Qed.

Lemma tame_list (l : list pyobj) : foldr (λ x P, tame x ∧ P) True l ↔ Forall tame l.
Proof.
  induction l as [|x l IH]; simpl; [by split|]. rewrite Forall_cons, IH. done.
Qed.

Lemma tame_items (items : list (pyobj * pyobj)) :
  foldr (λ kv P, tame kv.2 ∧ P) True items ↔ Forall (λ kv, tame kv.2) items.
Proof.
  induction items as [|x l IH]; simpl; [by split|]. rewrite Forall_cons, IH. done.
Qed.

(** Writing to a dict with text keys. *)
Lemma dict_set_fresh k v d :
  PyStr k ∉ d.*1 → dict_set k v d = d ++ [(PyStr k, v)].
Proof.
  induction d as [|[k' v'] d IH]; simpl; [done|].
  rewrite not_elem_of_cons. intros [Hne Hnin].
  destruct k' as [| | | |s| | | | | | | | | |]; try by rewrite IH.
  destruct (String.eqb_spec s k) as [->|_]; [done|]. by rewrite IH.
Qed.

Lemma dict_set_keys k v d :
  Forall (λ kv, ∃ s, kv.1 = PyStr s) d →
  (dict_set k v d).*1 = d.*1
  ∨ ((PyStr k ∉ d.*1) ∧ (dict_set k v d).*1 = d.*1 ++ [PyStr k]).
Proof.
  induction 1 as [|[k' v'] d [s Hs] Hd IH]; simpl.
  - right. split; [apply not_elem_of_nil|done].
  - simpl in Hs. subst k'. destruct (String.eqb_spec s k) as [->|Hne]; simpl.
    + by left.
    + destruct IH as [IH|[Hnin IH]]; [left; f_equal; exact IH|right].
      split; [|f_equal; exact IH]. rewrite not_elem_of_cons. split; [congruence|done].
Qed.

Lemma dict_set_wf (Q : pyobj → Prop) k v d :
  Q v →
  Forall (λ kv, (∃ s, kv.1 = PyStr s) ∧ Q kv.2) d →
  Forall (λ kv, (∃ s, kv.1 = PyStr s) ∧ Q kv.2) (dict_set k v d).
Proof.
  intros Hv. induction 1 as [|[k' v'] d [[s Hs] Hq] Hd IH]; simpl.
  - repeat constructor; eauto.
  - simpl in Hs. subst k'. destruct (String.eqb s k); constructor; eauto.
Qed.

Lemma dict_set_NoDup k v d :
  Forall (λ kv, ∃ s, kv.1 = PyStr s) d → NoDup (d.*1) → NoDup ((dict_set k v d).*1).
Proof.
  intros Hd Hnd. destruct (dict_set_keys k v d Hd) as [->|[Hnin ->]]; [done|].
  apply NoDup_app. repeat split; [done| |apply NoDup_singleton].
  intros x Hx ->%list_elem_of_singleton. done.
Qed.

Lemma dict_of_wf (Q : pyobj → Prop) items acc :
  Forall (λ kv, Q kv.2) items →
  Forall (λ kv, (∃ s, kv.1 = PyStr s) ∧ Q kv.2) acc → NoDup (acc.*1) →
  let d := foldl (λ d kv, dict_set kv.1 kv.2 d) acc items in
  Forall (λ kv, (∃ s, kv.1 = PyStr s) ∧ Q kv.2) d ∧ NoDup (d.*1).
Proof.
  intros Hitems. revert acc. induction Hitems as [|[k v] items Hv _ IH]; intros acc Hacc Hnd; simpl.
  - done.
  - apply IH.
    + by apply dict_set_wf.
    + apply dict_set_NoDup; [|done]. eapply Forall_impl; [exact Hacc|]. naive_solver.
Qed.

Lemma dict_of_text_keys (items : list (pyobj * pyobj)) acc (f : pyobj → string) :
  (∀ s, f (PyStr s) = s) →
  Forall (λ kv, ∃ s, kv.1 = PyStr s) items → NoDup (acc.*1 ++ items.*1) →
  foldl (λ d kv, dict_set kv.1 kv.2 d) acc (map (λ kv, (f kv.1, kv.2)) items) = acc ++ items.
Proof.
  intros Hf Hitems. revert acc.
  induction Hitems as [|[k v] items [s Hs] _ IH]; intros acc Hnd; simpl.
  - by rewrite app_nil_r.
  - simpl in Hs. subst k. rewrite Hf.
    rewrite dict_set_fresh.
    + rewrite IH; [by rewrite <- app_assoc|].
      rewrite fmap_app. simpl. by rewrite <- app_assoc.
    + apply NoDup_app in Hnd as (_ & Hnd & _). intros Hin. apply (Hnd _ Hin). left.
Qed.

Section ToNativeFacts.
Variable repr_of : pyobj → string.
Local Abbreviation to_native := (to_native repr_of).
Local Abbreviation py_str := (py_str repr_of).

(** A JSON-safe value is returned as it is. *)
Lemma to_native_native v : native v → to_native v = Some v.
Proof.
  induction v as [| | | | | | | |item IH|l t IH|items IH|l IH|l IH|l IH|t]
    using pyobj_nested_ind; try done.
  - intros Hn%native_dict. destruct Hn as [Hnd Hall]. cbn [Native.to_native].
    assert (Hmap : mapM (λ kv, v ← to_native kv.2; Some (py_str kv.1, v)) items
                   = Some (map (λ kv, (py_str kv.1, kv.2)) items)).
    { apply mapM_Some. clear Hnd. induction items as [|kv items IHi]; [constructor|].
      apply Forall_cons in IH as [[_ IHv] IH]. apply Forall_cons in Hall as [[_ Hv] Hall].
      constructor; [|by apply IHi]. by rewrite (IHv Hv). }
    rewrite Hmap. simpl. unfold dict_of.
    rewrite (dict_of_text_keys items [] py_str); [done|done| |done].
    eapply Forall_impl; [exact Hall|]. naive_solver.
  - intros Hn%native_list. cbn [Native.to_native].
    assert (Hmap : mapM to_native l = Some l).
    { apply mapM_Some. induction l as [|x l IHl]; [constructor|].
      apply Forall_cons in IH as [IHx IH]. apply Forall_cons in Hn as [Hx Hn].
      constructor; [by apply IHx|by apply IHl]. }
    by rewrite Hmap.
Qed.

Lemma mapM_native (l l' : list pyobj) :
  Forall (λ obj, ∀ v, tame obj → to_native obj = Some v → native v) l →
  Forall tame l → mapM to_native l = Some l' → Forall native l'.
Proof.
  intros IH Ht Hm. apply mapM_Some in Hm.
  induction Hm as [|x y l l' Hxy Hm IHm]; [constructor|].
  apply Forall_cons in IH as [IHx IH]. apply Forall_cons in Ht as [Hx Ht].
  constructor; [by apply IHx|by apply IHm].
Qed.

(** On a tame object the result is JSON-safe. *)
Lemma to_native_gives_native obj v :
  tame obj → to_native obj = Some v → native v.
Proof.
  revert v.
  induction obj as [| | | | |f|f t|d h|item IH|l t IH|items IH|l IH|l IH|l IH|t]
    using pyobj_nested_ind; intros v Ht Hv; cbn [Native.to_native] in Hv.
  - by injection Hv as <-.
  - by injection Hv as <-.
  - by injection Hv as <-.
  - by injection Hv as <-.
  - by injection Hv as <-.
  - destruct f; by simplify_eq/=.
  - destruct f; by simplify_eq/=.
  - destruct d; by simplify_eq/=.
  - simpl in Ht. by injection Hv as <-.
  - simpl in Ht. apply tame_list in Ht.
    destruct (mapM to_native l) as [l'|] eqn:Hm; injection Hv as <-; [|done].
    apply native_list. by eapply mapM_native.
  - simpl in Ht. apply tame_items in Ht.
    destruct (mapM _ items) as [items'|] eqn:Hm; [|done]. injection Hv as <-.
    apply native_dict. unfold dict_of.
    assert (Hvals : Forall (λ kv : string * pyobj, native kv.2) items').
    { apply mapM_Some in Hm. clear -Hm IH Ht.
      induction Hm as [|x y l l' Hxy Hm IHm]; [constructor|].
      apply Forall_cons in IH as [[_ IHx] IH]. apply Forall_cons in Ht as [Hx Ht].
      constructor; [|by apply IHm].
      destruct (to_native x.2) as [w|] eqn:Hw; [|done]. injection Hxy as <-.
      by apply IHx. }
    destruct (dict_of_wf native items' [] Hvals) as [H1 H2]; [constructor|constructor|].
    split; [exact H2|exact H1].
  - simpl in Ht. apply tame_list in Ht.
    destruct (mapM to_native l) as [l'|] eqn:Hm; [|done]. injection Hv as <-.
    apply native_list. by eapply mapM_native.
  - simpl in Ht. apply tame_list in Ht.
    destruct (mapM to_native l) as [l'|] eqn:Hm; [|done]. injection Hv as <-.
    apply native_list. by eapply mapM_native.
  - simpl in Ht. apply tame_list in Ht.
    destruct (mapM to_native l) as [l'|] eqn:Hm; [|done]. injection Hv as <-.
    apply native_list. by eapply mapM_native.
  - by injection Hv as <-.
Qed.

(** Idempotence away from numpy scalars whose [item()] is not JSON-safe. *)
Lemma to_native_idempotent_tame obj v :
  tame obj → to_native obj = Some v → to_native v = Some v.
Proof. intros Ht Hv. by eapply to_native_native, to_native_gives_native. Qed.

End ToNativeFacts.

Example to_native_on_a_dict :
  to_native (λ _, EmptyString)
    (PyDict [(PyInt 1, PyTuple [PyInt 1; PyBytes (Some "ab") "6162"]);
             (PyStr "1", PyNone);
             (PyStr "a", PySet [PyIFDRational None "1/0"])])
  = Some (PyDict [(PyStr "1", PyNone); (PyStr "a", PyList [PyStr "1/0"])]).
Proof. reflexivity. Qed.

(** Claim C8 at a failing input.  For the numpy scalar
    [numpy.complex128(1+2j)], whose [item()] is the Python complex [(1+2j)],
    [to_native] returns that complex number, and on it returns the text
    ["(1+2j)"]: the second application changes the value. *)
Theorem to_native_numpy_scalar_not_idempotent :
  let repr_of : pyobj → string := λ _, EmptyString in
  let obj := PyNpScalar (PyOther "(1+2j)") in
  to_native repr_of obj = Some (PyOther "(1+2j)") ∧
  to_native repr_of (PyOther "(1+2j)") = Some (PyStr "(1+2j)") ∧
  ¬ (∀ v, to_native repr_of obj = Some v → to_native repr_of v = Some v).
Proof.
  intros repr_of obj. split; [done|]. split; [done|].
  intros H. specialize (H _ eq_refl). discriminate H.
Qed.

End NativeFacts.

(** ** The job store, the commands and the worker *)

Section JobFacts.
Import Text Jobs.

Lemma bind_run {A B} (m : M A) (k : A → M B) w :
  (m ≫= k) w =
    match m w with
    | (Ok a, w') => k a w'
    | (Raised e, w') => (Raised e, w')
    end.
Proof. reflexivity. Qed.

Lemma ensure_job_dirs_run job_id w :
  ensure_job_dirs job_id w = (Ok tt, World (ensure_disk job_id (disk w)) (snapshots w)).
Proof. reflexivity. Qed.

Lemma ensure_disk_lookup job_id d :
  ensure_disk job_id d !! job_id = Some (ensure_layout (d !! job_id)).
Proof. unfold ensure_disk. by rewrite lookup_insert_eq. Qed.

Lemma ensure_disk_lookup_ne job_id d j :
  job_id ≠ j → ensure_disk job_id d !! j = d !! j.
Proof. intros. unfold ensure_disk. by rewrite lookup_insert_ne. Qed.

Lemma ensure_disk_files job_id d j : job_files (ensure_disk job_id d) j = job_files d j.
Proof.
  unfold job_files, status_doc, result_doc. destruct (decide (job_id = j)) as [->|Hne].
  - rewrite ensure_disk_lookup. destruct (d !! j) as [[i o s l]|]; simpl; [|done].
    by destruct o, i.
  - by rewrite ensure_disk_lookup_ne.
Qed.

Lemma ensure_disk_status job_id d j : status_doc (ensure_disk job_id d) j = status_doc d j.
Proof. pose proof (ensure_disk_files job_id d j) as H. unfold job_files in H. congruence. Qed.

Lemma ensure_disk_result job_id d j : result_doc (ensure_disk job_id d) j = result_doc d j.
Proof. pose proof (ensure_disk_files job_id d j) as H. unfold job_files in H. congruence. Qed.

Lemma ensure_disk_state job_id d j : job_state (ensure_disk job_id d) j = job_state d j.
Proof. unfold job_state. by rewrite ensure_disk_status. Qed.

Lemma ensure_disk_layout job_id d : has_layout d job_id → ensure_disk job_id d = d.
Proof.
  intros ([i o s l] & Hj & [i' Hi] & [o' Ho]). simpl in *. subst.
  unfold ensure_disk. rewrite Hj. simpl. by apply insert_id.
Qed.

Lemma ensure_disk_idemp job_id d :
  ensure_disk job_id (ensure_disk job_id d) = ensure_disk job_id d.
Proof.
  apply ensure_disk_layout. eexists. split; [apply ensure_disk_lookup|].
  destruct (d !! job_id) as [[i o s l]|]; simpl; eauto.
Qed.

Lemma ensure_disk_fresh job_id d :
  d !! job_id = None → ensure_disk job_id d = <[job_id := empty_layout]> d.
Proof. intros H. unfold ensure_disk. by rewrite H. Qed.

Lemma read_status_run job_id w :
  read_status job_id w =
    (Ok match status_doc (disk w) job_id with
        | Some (Doc j) => j
        | _ => JNull
        end,
     World (ensure_disk job_id (disk w)) (snapshots w)).
Proof.
  unfold read_status. rewrite bind_run, ensure_job_dirs_run.
  rewrite bind_run. simpl. rewrite ensure_disk_status.
  by destruct (status_doc (disk w) job_id) as [[]|].
Qed.

(** The disk after [status]: only the layout of the job was made. *)
Lemma cmd_status_disk job_id w :
  disk (cmd_status job_id w).2 = ensure_disk job_id (disk w).
Proof.
  unfold cmd_status. rewrite bind_run, read_status_run.
  destruct (status_doc (disk w) job_id) as [[[]|]|]; simpl; try done;
    repeat (match goal with |- context [if ?b then _ else _] => destruct b end); done.
Qed.


Lemma cmd_status_unknown job_id w :
  status_doc (disk w) job_id = None →
  (cmd_status job_id w).1 = Ok (not_found job_id).
Proof.
  intros H. unfold cmd_status. rewrite bind_run, read_status_run, H. done.
Qed.

Lemma cmd_result_disk repr_of job_id decode_error w :
  disk (cmd_result repr_of job_id decode_error w).2 = ensure_disk job_id (disk w).
Proof.
  unfold cmd_result. rewrite bind_run, ensure_job_dirs_run, bind_run. simpl.
  rewrite ensure_disk_result.
  destruct (result_doc (disk w) job_id) as [[]|]; simpl; try done.
  rewrite bind_run, read_status_run. simpl. rewrite ensure_disk_status, ensure_disk_idemp.
  destruct (status_doc (disk w) job_id) as [[[]|]|]; simpl; try done;
    repeat (match goal with |- context [if ?b then _ else _] => destruct b end); done.
Qed.

(** Claim C7, as amended.  For a job identifier that is one path component,
    on a store whose job directories are named by such identifiers:
    [status] and [result] leave the disk in the same state as each other,
    still a store of that kind; no status document, result document, log or
    input file of any job changes, and no other job's directory does.  When
    the three directories of the job exist the disk is unchanged.  For an
    identifier with no directory, the directories of that identifier are
    made, empty, and [status] answers "Job not found" with code 1. *)
Theorem queries_touch_only_the_layout repr_of decode_error (job_id : string) (w : world) :
  component job_id = true →
  flat (disk w) →
  let after_status := disk (cmd_status job_id w).2 in
  let after_result := disk (cmd_result repr_of job_id decode_error w).2 in
  after_status = after_result ∧
  flat after_status ∧
  (∀ j, job_files after_status j = job_files (disk w) j) ∧
  (∀ j, j ≠ job_id → after_status !! j = disk w !! j) ∧
  (has_layout (disk w) job_id → after_status = disk w) ∧
  (disk w !! job_id = None →
     after_status = <[job_id := empty_layout]> (disk w) ∧
     (cmd_status job_id w).1 = Ok (not_found job_id)).
Proof.
  intros Hid Hflat after_status after_result. unfold after_status, after_result.
  rewrite cmd_status_disk, cmd_result_disk.
  split; [done|]. split.
  { intros j Hj. destruct (decide (job_id = j)) as [<-|Hne]; [done|].
    rewrite ensure_disk_lookup_ne in Hj by done. by apply Hflat. }
  split; [apply ensure_disk_files|]. split.
  { intros j Hj. by apply ensure_disk_lookup_ne. }
  split; [apply ensure_disk_layout|].
  intros Hnone. split; [by apply ensure_disk_fresh|].
  apply cmd_status_unknown. unfold status_doc. by rewrite Hnone.
Qed.

Lemma queries_touch_only_the_layout_witness :
  let other := JobDir (Some ∅) (Some None)
                 (Some (Doc (JObj {[ "state" := JStr "queued" ]}))) None in
  let w := World {[ "77aa" := other ]} [] in
  component "4f2a" = true ∧
  flat (disk w) ∧
  disk (cmd_status "4f2a" w).2 !! "77aa" = Some other ∧
  (cmd_status "4f2a" w).1 = Ok (not_found "4f2a").
Proof.
  intros other w.
  assert (Hid : component "4f2a" = true) by reflexivity.
  assert (Hflat : flat (disk w)).
  { intros j [x Hx]. simpl in Hx. destruct (decide (j = "77aa")) as [->|Hne]; [reflexivity|].
    rewrite lookup_singleton_ne in Hx by done. discriminate Hx. }
  split; [exact Hid|]. split; [exact Hflat|].
  destruct (queries_touch_only_the_layout (λ _, EmptyString) EmptyString "4f2a" w Hid Hflat)
    as (_ & _ & _ & Hother & _ & Hnew).
  split.
  - rewrite (Hother "77aa") by discriminate. reflexivity.
  - exact (proj2 (Hnew eq_refl)).
Defined.

(** Claim C7 fails as stated: on an empty store, [status] and [result] for
    an identifier that was never used leave its directories behind. *)
Lemma status_of_unknown_job_makes_directories :
  let w := World ∅ [] in
  disk w !! "4f2a" = None ∧
  disk (cmd_status "4f2a" w).2 !! "4f2a" = Some (JobDir (Some ∅) (Some None) None None) ∧
  disk (cmd_result (λ _, EmptyString) "4f2a" EmptyString w).2 !! "4f2a"
    = Some (JobDir (Some ∅) (Some None) None None) ∧
  disk (cmd_status "4f2a" w).2 ≠ disk w.
Proof.
  intros w. split; [done|]. split; [done|]. split; [done|].
  intros H. apply (f_equal (λ d : store, d !! "4f2a")) in H. discriminate H.
Qed.

Section Submit.
Variable JOBS_DIR : string.
Variable resolve : string → string.
Variable path_name : string → string.
Variable file_at : string → image_file.
Local Abbreviation cmd_submit := (cmd_submit JOBS_DIR resolve path_name file_at).

(** Claim C6, as amended.  When the image does not exist and the fresh
    identifier has no directory yet, [submit] prints the "Image not found"
    error with code 1 and launches no worker; it writes no status document,
    result document, log or input file, but it leaves the empty directories
    of the new identifier on the disk; [status] for that identifier then
    answers "Job not found". *)
Theorem submit_missing_image_leaves_empty_layout
    (job_id image : string) (scale_low scale_high : option Q)
    (downsample timeout : option Z) (now : Q) (w : world) :
  file_at (resolve image) = Missing →
  disk w !! job_id = None →
  ∃ w',
    cmd_submit job_id image scale_low scale_high downsample timeout now w
      = (Ok (image_not_found (resolve image)), w') ∧
    disk w' = <[job_id := empty_layout]> (disk w) ∧
    (∀ j, job_files (disk w') j = job_files (disk w) j) ∧
    (cmd_status job_id w').1 = Ok (not_found job_id).
Proof.
  intros Hmiss Hfresh. unfold Jobs.cmd_submit.
  rewrite bind_run, ensure_job_dirs_run, Hmiss. simpl.
  eexists. split; [reflexivity|]. simpl.
  split; [by apply ensure_disk_fresh|]. split; [apply ensure_disk_files|].
  apply cmd_status_unknown. simpl. rewrite ensure_disk_status.
  unfold status_doc. by rewrite Hfresh.
Qed.

End Submit.

Lemma submit_missing_image_leaves_empty_layout_witness :
  let file_at : string → image_file := λ _, Missing in
  let w := World ∅ [] in
  file_at "/tmp/nothing.jpg" = Missing ∧
  disk w !! "4f2a" = None ∧
  ∃ w',
    cmd_submit "/srv/astro_jobs" (λ p, p) (λ p, p) file_at
      "4f2a" "/tmp/nothing.jpg" None None (Some 2%Z) (Some 600%Z) 0%Q w
      = (Ok (image_not_found "/tmp/nothing.jpg"), w') ∧
    disk w' = <["4f2a" := empty_layout]> (disk w).
Proof.
  intros file_at w.
  assert (H1 : file_at "/tmp/nothing.jpg" = Missing) by reflexivity.
  assert (H2 : disk w !! "4f2a" = None) by reflexivity.
  split; [exact H1|]. split; [exact H2|].
  destruct (submit_missing_image_leaves_empty_layout "/srv/astro_jobs" (λ p, p) (λ p, p)
              file_at "4f2a" "/tmp/nothing.jpg" None None (Some 2%Z) (Some 600%Z) 0%Q w H1 H2)
    as (w' & Hrun & Hdisk & _).
  exists w'. by split.
Defined.

(** Claim C6 fails as stated: after a submission whose image is missing the
    store holds the directories of the new identifier. *)
Lemma submit_missing_image_makes_directories :
  let w := World ∅ [] in
  let run := cmd_submit "/srv/astro_jobs" (λ p, p) (λ p, p) (λ _, Missing)
               "4f2a" "/tmp/nothing.jpg" None None (Some 2%Z) (Some 600%Z) 0%Q w in
  run.1 = Ok (image_not_found "/tmp/nothing.jpg") ∧
  disk run.2 !! "4f2a" = Some (JobDir (Some ∅) (Some None) None None) ∧
  disk run.2 ≠ disk w.
Proof.
  intros w run. split; [done|]. split; [done|].
  intros H. apply (f_equal (λ d : store, d !! "4f2a")) in H. discriminate H.
Qed.

Lemma result_behind_ensure s job_id j d :
  result_behind s job_id d → result_behind s job_id (ensure_disk j d).
Proof.
  unfold result_behind, has_result. by rewrite ensure_disk_state, ensure_disk_result.
Qed.

Lemma has_result_ensure job_id j d :
  has_result (ensure_disk j d) job_id ↔ has_result d job_id.
Proof. unfold has_result. by rewrite ensure_disk_result. Qed.

(** The disk after a write to the status file of a job whose directory exists. *)
Lemma status_written job_id c (d : store) j0 :
  d !! job_id = Some j0 →
  let d' := <[job_id := JobDir (input_dir j0) (output_dir j0) (Some c) (log_file j0)]> d in
  status_doc d' job_id = Some c ∧ result_doc d' job_id = result_doc d job_id.
Proof.
  intros Hj. unfold status_doc, result_doc. rewrite lookup_insert_eq, Hj. done.
Qed.

(** What [write_status] does to a world. *)
Lemma write_status_run job_id state message params now w r w' :
  write_status job_id state message params now w = (r, w') →
  (∃ c, r = Ok (JObj c) ∧ c !! "state" = Some (JStr state) ∧
        c !! "message" = Some (from_option JStr JNull message) ∧
        is_Some (status_base job_id now (status_doc (disk w) job_id)) ∧
        status_doc (disk w') job_id = Some (Doc (JObj c)) ∧
        result_doc (disk w') job_id = result_doc (disk w) job_id ∧
        has_layout (disk w') job_id ∧
        seen w' = ensure_disk job_id (disk w) :: snapshots w)
  ∨ (∃ e, r = Raised e ∧ status_base job_id now (status_doc (disk w) job_id) = None ∧
        w' = World (ensure_disk job_id (disk w)) (snapshots w)).
Proof.
  unfold write_status. rewrite bind_run, ensure_job_dirs_run, bind_run. simpl.
  rewrite ensure_disk_status.
  set (cur := match status_doc (disk w) job_id with
              | Some (Doc j) => j
              | Some (Text _) => JObj ∅
              | None => JObj (<["created_at" := JFloat now]> (<["job_id" := JStr job_id]> ∅))
              end).
  assert (Hcur : match cur with
                 | JObj o => status_base job_id now (status_doc (disk w) job_id) = Some o
                 | _ => status_base job_id now (status_doc (disk w) job_id) = None
                 end).
  { unfold cur, status_base. by destruct (status_doc (disk w) job_id) as [[[]|]|]. }
  destruct cur as [| | | | | |o]; try (intros [= <- <-]; right; eauto).
  rewrite bind_run. unfold write_status_file. rewrite bind_run. simpl.
  rewrite ensure_disk_lookup. simpl. intros [= <- <-]. left.
  eexists. split; [reflexivity|].
  split; [by simplify_map_eq|]. split; [by simplify_map_eq|].
  split; [by rewrite Hcur|].
  destruct (status_written job_id (Doc (JObj
     (<["updated_at":=JFloat now]> (<["params":=
        match params with
        | Some p => if bool_decide (p ≠ ∅) then JObj p else get "params" o
        | None => get "params" o
        end]> (<["message":=from_option JStr JNull message]>
          (<["state":=JStr state]> (<["job_id":=JStr job_id]> o)))))))
     (ensure_disk job_id (disk w)) _ (ensure_disk_lookup job_id (disk w))) as [H1 H2].
  simpl. split; [exact H1|]. split.
  { rewrite <- (ensure_disk_result job_id (disk w) job_id). exact H2. }
  split; [|done]. eexists. split; [apply lookup_insert_eq|].
  simpl. destruct (disk w !! job_id) as [[i o' s l]|]; simpl; eauto.
Qed.

Lemma job_state_of_status d job_id c :
  status_doc d job_id = Some (Doc (JObj c)) → job_state d job_id = c !! "state".
Proof. unfold job_state. by intros ->. Qed.

Lemma append_log_run job_id s w :
  has_layout (disk w) job_id →
  ∃ w', append_log job_id s w = (Ok tt, w') ∧
    status_doc (disk w') job_id = status_doc (disk w) job_id ∧
    result_doc (disk w') job_id = result_doc (disk w) job_id ∧
    has_layout (disk w') job_id ∧
    seen w' = snapshots w.
Proof.
  intros (j & Hj & Hi & Ho). unfold append_log. rewrite bind_run. simpl. rewrite Hj.
  eexists. split; [reflexivity|]. simpl.
  unfold status_doc, result_doc, has_layout. rewrite lookup_insert_eq, Hj. simpl.
  repeat split; try done. eauto.
Qed.

Lemma write_result_file_run job_id c w :
  has_layout (disk w) job_id →
  ∃ w', write_result_file job_id c w = (Ok tt, w') ∧
    status_doc (disk w') job_id = status_doc (disk w) job_id ∧
    result_doc (disk w') job_id = Some c ∧
    has_layout (disk w') job_id ∧
    seen w' = snapshots w.
Proof.
  intros ([i o st l] & Hj & Hi & [o' Ho]). simpl in *. subst o.
  unfold write_result_file. rewrite bind_run. simpl. rewrite Hj.
  eexists. split; [reflexivity|]. simpl.
  unfold status_doc, result_doc, has_layout. rewrite lookup_insert_eq, Hj. simpl.
  repeat split; try done. eauto.
Qed.

(** A status write keeps "a reader who sees [s] finds the result" on every
    state of the disk, when it writes another state or the result is there. *)
Lemma write_status_keeps s job_id state message params now w r w' :
  write_status job_id state message params now w = (r, w') →
  Forall (result_behind s job_id) (snapshots w) →
  state ≠ s ∨ has_result (disk w) job_id →
  Forall (result_behind s job_id) (snapshots w').
Proof.
  intros Hrun Hinv Hcase.
  assert (Hens : result_behind s job_id (ensure_disk job_id (disk w))).
  { apply result_behind_ensure. by apply Forall_cons in Hinv as [? _]. }
  destruct (write_status_run _ _ _ _ _ _ _ _ Hrun)
    as [(c & -> & Hst & _ & _ & Hdoc & Hres & _ & Hseen)|(e & -> & _ & ->)].
  - unfold snapshots at 1. rewrite Hseen. constructor; [|by constructor].
    unfold result_behind, has_result.
    rewrite (job_state_of_status _ _ _ Hdoc), Hst, Hres.
    intros [= <-]. by destruct Hcase.
  - by constructor.
Qed.

Lemma append_log_keeps s job_id text w :
  has_layout (disk w) job_id →
  Forall (result_behind s job_id) (snapshots w) →
  ∃ w', append_log job_id text w = (Ok tt, w') ∧
    has_layout (disk w') job_id ∧
    (has_result (disk w) job_id → has_result (disk w') job_id) ∧
    job_state (disk w') job_id = job_state (disk w) job_id ∧
    Forall (result_behind s job_id) (snapshots w').
Proof.
  intros Hl Hinv. destruct (append_log_run job_id text w Hl) as (w' & Hrun & Hst & Hres & Hl' & Hseen).
  exists w'. unfold has_result, job_state. rewrite Hst, Hres.
  repeat split; try done.
  unfold snapshots at 1. rewrite Hseen. constructor; [|done].
  apply Forall_cons in Hinv as [H0 _]. unfold result_behind, has_result, job_state in *.
  by rewrite Hst, Hres.
Qed.

Lemma write_result_file_keeps s job_id c w :
  has_layout (disk w) job_id →
  Forall (result_behind s job_id) (snapshots w) →
  ∃ w', write_result_file job_id c w = (Ok tt, w') ∧
    has_layout (disk w') job_id ∧
    result_doc (disk w') job_id = Some c ∧
    job_state (disk w') job_id = job_state (disk w) job_id ∧
    Forall (result_behind s job_id) (snapshots w').
Proof.
  intros Hl Hinv.
  destruct (write_result_file_run job_id c w Hl) as (w' & Hrun & Hst & Hres & Hl' & Hseen).
  exists w'. unfold job_state. rewrite Hst. repeat split; try done.
  unfold snapshots at 1. rewrite Hseen. constructor; [|done].
  unfold result_behind, has_result. rewrite Hres. eauto.
Qed.

Section Worker.

Variable ASTRO_EXTRACT_BIN : string.
Variable shlex_quote : string → string.
Variable str_of_float : Q → string.
Variable repr_of : json → string.
Variable subprocess_run : string → run_result.
Variable json_loads : string → option json.

Local Abbreviation run_worker :=
  (run_worker ASTRO_EXTRACT_BIN shlex_quote str_of_float repr_of subprocess_run json_loads).
Local Abbreviation worker_cmd_line :=
  (worker_cmd_line ASTRO_EXTRACT_BIN shlex_quote str_of_float).
Local Abbreviation interpret := (interpret json_loads).

Lemma run_worker_keeps s job_id image_path scale_low scale_high downsample timeout now1 now2 w :
  s = "done"
  ∨ (s = "error" ∧
     ∃ proc, subprocess_run
               (worker_cmd_line image_path scale_low scale_high downsample timeout)
             = RunReturns proc) →
  Forall (result_behind s job_id) (snapshots w) →
  Forall (result_behind s job_id)
    (snapshots (run_worker job_id image_path scale_low scale_high downsample timeout
                  now1 now2 w).2).
Proof.
  intros Hs Hinv. unfold Jobs.run_worker.
  rewrite bind_run, ensure_job_dirs_run, bind_run.
  assert (Hinv1 : Forall (result_behind s job_id)
            (snapshots (World (ensure_disk job_id (disk w)) (snapshots w)))).
  { constructor; [|done]. apply result_behind_ensure. by apply Forall_cons in Hinv as [? _]. }
  destruct (write_status job_id "processing" _ _ now1 _) as [r1 w2] eqn:H1.
  assert (Hinv2 : Forall (result_behind s job_id) (snapshots w2)).
  { eapply write_status_keeps; [exact H1|exact Hinv1|]. left. by destruct Hs as [->|[-> _]]. }
  destruct (write_status_run _ _ _ _ _ _ _ _ H1)
    as [(c & -> & _ & _ & _ & _ & _ & Hl2 & _)|(e & -> & _ & _)]; [|done].
  destruct (subprocess_run _) as [e|proc] eqn:Hrun.
  - rewrite bind_run.
    destruct (write_status job_id "error" _ _ now2 _) as [r3 w3] eqn:H3.
    assert (Hinv3 : Forall (result_behind s job_id) (snapshots w3)).
    { eapply write_status_keeps; [exact H3|exact Hinv2|]. left.
      destruct Hs as [->|[_ [proc Hp]]]; [done|congruence]. }
    by destruct r3.
  - rewrite bind_run.
    destruct (append_log_keeps s job_id
                ("[cmd] " +:+ worker_cmd_line image_path scale_low scale_high downsample timeout
                 +:+ nl +:+ "[stdout]" +:+ nl +:+ stdout proc +:+ nl
                 +:+ "[stderr]" +:+ nl +:+ stderr proc +:+ nl) w2 Hl2 Hinv2)
      as (w3 & -> & Hl3 & _ & _ & Hinv3).
    rewrite bind_run.
    destruct (write_result_file_keeps s job_id (Doc (interpret proc)) w3 Hl3 Hinv3)
      as (w4 & -> & Hl4 & Hres4 & _ & Hinv4).
    destruct (interpret proc) as [| | | | | |r]; try done.
    assert (Hhas : has_result (disk w4) job_id) by (unfold has_result; rewrite Hres4; eauto).
    destruct (truthy (get "ok" r)); rewrite bind_run.
    + destruct (write_status job_id "done" _ _ now2 _) as [r5 w5] eqn:H5.
      assert (Forall (result_behind s job_id) (snapshots w5)).
      { eapply write_status_keeps; [exact H5|exact Hinv4|by right]. }
      by destruct r5.
    + destruct (write_status job_id "error" _ _ now2 _) as [r5 w5] eqn:H5.
      assert (Forall (result_behind s job_id) (snapshots w5)).
      { eapply write_status_keeps; [exact H5|exact Hinv4|by right]. }
      by destruct r5.
Qed.


(** A child that ran to its end: the result is stored, then the state is
    [done] or [error]. *)
Lemma worker_finishes job_id image_path scale_low scale_high downsample timeout now1 now2 w proc r :
  subprocess_run (worker_cmd_line image_path scale_low scale_high downsample timeout)
    = RunReturns proc →
  interpret proc = JObj r →
  is_Some (status_base job_id now1 (status_doc (disk w) job_id)) →
  let run := run_worker job_id image_path scale_low scale_high downsample timeout now1 now2 w in
  result_doc (disk run.2) job_id = Some (Doc (JObj r)) ∧
  ∃ c, status_doc (disk run.2) job_id = Some (Doc (JObj c)) ∧
    if truthy (get "ok" r)
    then run.1 = Ok 0%Z ∧ c !! "state" = Some (JStr "done")
    else run.1 = Ok 2%Z ∧ c !! "state" = Some (JStr "error")
         ∧ c !! "message" = Some (JStr (py_str repr_of (get "error" r))).
Proof.
  intros Hrun Hres Hbase run. unfold run, Jobs.run_worker.
  rewrite bind_run, ensure_job_dirs_run, bind_run.
  destruct (write_status job_id "processing" _ _ now1 _) as [r1 w2] eqn:H1.
  destruct (write_status_run _ _ _ _ _ _ _ _ H1)
    as [(c & -> & _ & _ & _ & Hdoc2 & _ & Hl2 & _)|(e & -> & Hnone & _)]; cycle 1.
  { simpl in Hnone. rewrite ensure_disk_status in Hnone. rewrite Hnone in Hbase.
    by destruct Hbase. }
  rewrite Hrun, bind_run.
  destruct (append_log_run job_id
              ("[cmd] " +:+ worker_cmd_line image_path scale_low scale_high downsample timeout
               +:+ nl +:+ "[stdout]" +:+ nl +:+ stdout proc +:+ nl
               +:+ "[stderr]" +:+ nl +:+ stderr proc +:+ nl) w2 Hl2)
    as (w3 & -> & Hst3 & _ & Hl3 & _).
  rewrite bind_run.
  destruct (write_result_file_run job_id (Doc (interpret proc)) w3 Hl3)
    as (w4 & -> & Hst4 & Hres4 & Hl4 & _).
  rewrite Hres in *.
  assert (Hbase4 : ∀ now, is_Some (status_base job_id now (status_doc (disk w4) job_id))).
  { intros now. rewrite Hst4, Hst3, Hdoc2. simpl. eauto. }
  destruct (truthy (get "ok" r)); rewrite bind_run.
  - destruct (write_status job_id "done" _ _ now2 _) as [r5 w5] eqn:H5.
    destruct (write_status_run _ _ _ _ _ _ _ _ H5)
      as [(c5 & -> & Hstate & _ & _ & Hdoc5 & Hres5 & _)|(e & -> & Hnone & _)]; cycle 1.
    { destruct (Hbase4 now2) as [? Hb]. congruence. }
    simpl. split; [congruence|]. eauto.
  - destruct (write_status job_id "error" _ _ now2 _) as [r5 w5] eqn:H5.
    destruct (write_status_run _ _ _ _ _ _ _ _ H5)
      as [(c5 & -> & Hstate & Hmsg & _ & Hdoc5 & Hres5 & _)|(e & -> & Hnone & _)]; cycle 1.
    { destruct (Hbase4 now2) as [? Hb]. congruence. }
    simpl. split; [congruence|]. eauto.
Qed.

(** The record built for a child that failed without a usable document. *)
Lemma interpret_exit_code proc :
  returncode proc ≠ 0%Z → returncode proc ≠ 2%Z →
  interpret proc =
    JObj (<["error" := JStr ("astro_extract exit code " +:+ pretty (returncode proc))]>
            (<["ok" := JBool false]> ∅)).
Proof.
  intros H0 H2. unfold Jobs.interpret. rewrite bool_decide_eq_false_2; [done|]. tauto.
Qed.

Lemma interpret_invalid_json proc :
  (returncode proc = 0 ∨ returncode proc = 2)%Z → json_loads (stdout proc) = None →
  interpret proc =
    JObj (<["raw" := JStr (last_chars 2000 (stdout proc))]>
            (<["error" := JStr "Invalid JSON from astro_extract"]>
               (<["ok" := JBool false]> ∅))).
Proof.
  intros Hrc Hj. unfold Jobs.interpret. rewrite bool_decide_eq_true_2 by done. by rewrite Hj.
Qed.

(** [result] gives a stored document back as it is. *)
Lemma cmd_result_stored job_id decode_error w data :
  result_doc (disk w) job_id = Some (Doc data) →
  (cmd_result repr_of job_id decode_error w).1 = Ok (Report data 0 None).
Proof.
  intros H. unfold cmd_result. rewrite bind_run, ensure_job_dirs_run, bind_run. simpl.
  by rewrite ensure_disk_result, H.
Qed.

(** The sibling failure path: a child that ends with a code other than 0
    and 2 gets a minimal error record, stored before the status turns to
    [error], and [result] gives that record back. *)
Lemma worker_records_exit_code job_id image_path scale_low scale_high downsample timeout
    now1 now2 decode_error w proc :
  subprocess_run (worker_cmd_line image_path scale_low scale_high downsample timeout)
    = RunReturns proc →
  returncode proc ≠ 0%Z → returncode proc ≠ 2%Z →
  is_Some (status_base job_id now1 (status_doc (disk w) job_id)) →
  let run := run_worker job_id image_path scale_low scale_high downsample timeout now1 now2 w in
  let record :=
    JObj (<["error" := JStr ("astro_extract exit code " +:+ pretty (returncode proc))]>
            (<["ok" := JBool false]> ∅)) in
  run.1 = Ok 2%Z ∧
  result_doc (disk run.2) job_id = Some (Doc record) ∧
  job_state (disk run.2) job_id = Some (JStr "error") ∧
  (cmd_result repr_of job_id decode_error run.2).1 = Ok (Report record 0 None).
Proof.
  intros Hrun H0 H2 Hbase run record.
  destruct (worker_finishes job_id image_path scale_low scale_high downsample timeout
              now1 now2 w proc _ Hrun (interpret_exit_code proc H0 H2) Hbase)
    as (Hdoc & c & Hst & Hcase).
  fold run in Hdoc, Hst, Hcase. fold record in Hdoc.
  assert (Hok : truthy (get "ok" (<["error" :=
              JStr ("astro_extract exit code " +:+ pretty (returncode proc))]>
              (<["ok" := JBool false]> ∅))) = false) by (unfold get; by simplify_map_eq).
  rewrite Hok in Hcase. destruct Hcase as (Hret & Hstate & _).
  split; [done|]. split; [done|]. split.
  - by rewrite (job_state_of_status _ _ _ Hst).
  - by apply cmd_result_stored.
Qed.

(** Claim C4.  Take any run of the worker from a store on which a reader
    who sees [done] finds the result document, at every state the disk went
    through.  The same holds at every state of the disk during and after
    the run: the result is written before the status turns to [done].  When
    the child process ran to its end the same holds for [error].  And the
    successful path does end so: when the child's document is a dict whose
    [ok] is true, the worker returns 0 with the status [done] and that
    document stored as the result. *)
Theorem worker_stores_result_before_done
    (job_id image_path : string) (scale_low scale_high : option Q)
    (downsample timeout : option Z) (now1 now2 : Q) (w : world) :
  Forall (result_behind "done" job_id) (snapshots w) →
  let cmd := worker_cmd_line image_path scale_low scale_high downsample timeout in
  let run := run_worker job_id image_path scale_low scale_high downsample timeout now1 now2 w in
  Forall (result_behind "done" job_id) (snapshots run.2) ∧
  (∀ proc, subprocess_run cmd = RunReturns proc →
     Forall (result_behind "error" job_id) (snapshots w) →
     Forall (result_behind "error" job_id) (snapshots run.2)) ∧
  (∀ proc r, subprocess_run cmd = RunReturns proc →
     interpret proc = JObj r → truthy (get "ok" r) = true →
     is_Some (status_base job_id now1 (status_doc (disk w) job_id)) →
     run.1 = Ok 0%Z ∧
     job_state (disk run.2) job_id = Some (JStr "done") ∧
     result_doc (disk run.2) job_id = Some (Doc (JObj r))).
Proof.
  intros Hinv cmd run. split; [|split].
  - apply run_worker_keeps; [by left|done].
  - intros proc Hrun Herr. apply run_worker_keeps; [right; eauto|done].
  - intros proc r Hrun Hres Hok Hbase.
    destruct (worker_finishes job_id image_path scale_low scale_high downsample timeout
                now1 now2 w proc r Hrun Hres Hbase) as (Hdoc & c & Hst & Hcase).
    rewrite Hok in Hcase. destruct Hcase as [Hret Hstate].
    split; [done|]. split; [|done]. unfold run.
    by rewrite (job_state_of_status _ _ _ Hst).
Qed.

End Worker.

Lemma queued_world_state :
  job_state (disk queued_world) "4f2a" = Some (JStr "queued") ∧
  seen queued_world ≠ [].
Proof. split; [vm_compute; reflexivity|vm_compute; discriminate]. Qed.

Lemma worker_stores_result_before_done_witness :
  let subprocess_run : string → run_result :=
    λ _, RunReturns (Completed 0 "{ok: true, astrometry: ...}" EmptyString) in
  let json_loads : string → option json :=
    λ _, Some (JObj {[ "ok" := JBool true ]}) in
  let run :=
    run_worker "astro_extract.py" (λ s, s) (λ _, EmptyString) (λ _, EmptyString)
      subprocess_run json_loads
      "4f2a" "/srv/astro_jobs/4f2a/input/m42.jpg" None None (Some 2%Z) (Some 600%Z)
      1%Q 2%Q queued_world in
  Forall (result_behind "done" "4f2a") (snapshots queued_world) ∧
  Forall (result_behind "done" "4f2a") (snapshots run.2).
Proof.
  intros subprocess_run json_loads run.
  assert (H : Forall (result_behind "done" "4f2a") (snapshots queued_world)).
  { repeat constructor; intros Hs; vm_compute in Hs; discriminate Hs. }
  split; [exact H|].
  exact (proj1 (worker_stores_result_before_done "astro_extract.py" (λ s, s)
                  (λ _, EmptyString) (λ _, EmptyString) subprocess_run json_loads
                  "4f2a" "/srv/astro_jobs/4f2a/input/m42.jpg" None None
                  (Some 2%Z) (Some 600%Z) 1%Q 2%Q queued_world H)).
Defined.

(** Claim C5 at a failing input.  The job was queued by [submit]; running the
    child raises.  The worker returns 1 with the status [error] and no
    result document, so a reader who sees [error] does not find one, and
    [result] answers "Job not ready (state=error)" with code 1 instead of a
    stored record. *)
Theorem worker_exec_failure_persists_no_result :
  let run := failed_run "OSError: cannot run /bin/sh" in
  run.1 = Ok 1%Z ∧
  job_state (disk run.2) "4f2a" = Some (JStr "error") ∧
  result_doc (disk run.2) "4f2a" = None ∧
  ¬ result_behind "error" "4f2a" (disk run.2) ∧
  (cmd_result (λ _, EmptyString) "4f2a" EmptyString run.2).1
    = Ok (not_ready "4f2a" "error").
Proof.
  intros run.
  assert (Hs : job_state (disk run.2) "4f2a" = Some (JStr "error")) by (vm_compute; reflexivity).
  assert (Hr : result_doc (disk run.2) "4f2a" = None) by (vm_compute; reflexivity).
  split; [vm_compute; reflexivity|]. split; [exact Hs|]. split; [exact Hr|]. split.
  - intros H. specialize (H Hs). unfold has_result in H. rewrite Hr in H. by destruct H.
  - vm_compute. reflexivity.
Qed.

End JobFacts.

(** * Further properties of the code *)

(** ** The two parsers *)

Section ParserFacts.
Import Text Tokens FieldBlock ObjsFile Reconciler.

Lemma split_ws_words s : Forall word (split_ws s).
Proof.
  induction s as [|a s IH]; simpl; [constructor|].
  destruct (is_space a) eqn:Ha; [done|].
  destruct s as [|b s'].
  { repeat constructor. simpl. by rewrite Ha. }
  destruct (is_space b) eqn:Hb.
  { constructor; [|done]. split; [done|]. simpl. by rewrite Ha. }
  destruct (split_ws (String b s')) as [|w ws] eqn:Hw.
  { repeat constructor. simpl. by rewrite Ha. }
  apply Forall_cons in IH as [[Hw1 Hw2] IH]. constructor; [|done].
  split; [done|]. simpl. by rewrite Ha, Hw2.
Qed.

Lemma split_ws_word w : word w → split_ws w = [w].
Proof.
  intros [Hne Hns]. induction w as [|a w IH]; [done|].
  simpl in Hns. apply andb_prop in Hns as [Ha Hns]. apply negb_true_iff in Ha.
  simpl. rewrite Ha. destruct w as [|b w']; [done|].
  specialize (IH eq_refl Hns).
  simpl in Hns. apply andb_prop in Hns as [Hb _]. apply negb_true_iff in Hb.
  rewrite Hb. by rewrite IH.
Qed.

Lemma rev_app_list s1 s2 :
  String.list_ascii_of_string (String.rev_app s1 s2)
  = rev_append (String.list_ascii_of_string s1) (String.list_ascii_of_string s2).
Proof. revert s2. induction s1 as [|a s1 IH]; intros s2; simpl; [done|]. by rewrite IH. Qed.

Lemma rev_list s : String.list_ascii_of_string (String.rev s) = List.rev (String.list_ascii_of_string s).
Proof. unfold String.rev. by rewrite rev_app_list, rev_append_rev, app_nil_r. Qed.

Lemma rev_rev s : String.rev (String.rev s) = s.
Proof.
  rewrite <- (String.string_of_list_ascii_of_string (String.rev (String.rev s))).
  rewrite !rev_list, rev_involutive. apply String.string_of_list_ascii_of_string.
Qed.

Lemma no_space_list s :
  no_space s = true ↔ Forall (λ c, is_space c = false) (String.list_ascii_of_string s).
Proof.
  induction s as [|a s IH]; simpl.
  - split; [constructor|done].
  - rewrite andb_true_iff, negb_true_iff, Forall_cons. by rewrite IH.
Qed.

Lemma lstrip_no_space s : no_space s = true → lstrip s = s.
Proof.
  destruct s as [|a s]; [done|]. simpl. intros [Ha _]%andb_prop.
  apply negb_true_iff in Ha. by rewrite Ha.
Qed.

Lemma strip_no_space s : no_space s = true → strip s = s.
Proof.
  intros Hs. unfold strip, rstrip. rewrite (lstrip_no_space s Hs).
  rewrite lstrip_no_space; [apply rev_rev|].
  apply no_space_list. rewrite rev_list. apply Forall_rev. by apply no_space_list.
Qed.

Lemma unwords_nonempty w ws : nonempty w = true → nonempty (unwords (w :: ws)) = true.
Proof.
  simpl. revert w. induction ws as [|q ws IH]; intros w Hw; simpl; [done|].
  apply IH. by destruct w.
Qed.

Lemma length_split_on c s : length (split_on c s) = S (count_char c s).
Proof.
  induction s as [|a s IH]; simpl; [done|].
  destruct (Ascii.eqb a c); simpl; [by rewrite IH|].
  destruct (split_on c s); simpl in *; done.
Qed.

Lemma index_of_None x lines : x ∉ lines → index_of x lines = None.
Proof.
  induction lines as [|l lines IH]; [done|]. intros Hx. simpl.
  apply not_elem_of_cons in Hx as [Hne Hx].
  destruct (String.eqb_spec l x); [congruence|]. by rewrite IH.
Qed.

Lemma index_of_app x pre rest :
  x ∉ pre → index_of x (pre ++ x :: rest) = Some (length pre).
Proof.
  induction pre as [|l pre IH]; simpl.
  - by rewrite String.eqb_refl.
  - intros [Hne Hx]%not_elem_of_cons.
    destruct (String.eqb_spec l x); [congruence|]. by rewrite IH.
Qed.

Lemma index_of_Some x lines i :
  index_of x lines = Some i → lines !! i = Some x.
Proof.
  revert i. induction lines as [|l lines IH]; intros i; simpl; [done|].
  destruct (String.eqb_spec l x) as [->|_].
  - by intros [= <-].
  - destruct (index_of x lines) as [j|]; [|done]. intros [= <-]. by apply IH.
Qed.

Lemma field_block_nonblank body rest :
  Forall (λ l, nonempty (strip l) = true) body →
  field_block (body ++ rest)
  = ((λ l, mention_of_line (strip l)) <$> body) ++ field_block rest.
Proof.
  induction 1 as [|l body Hl _ IH]; [done|]. simpl. by rewrite Hl, IH.
Qed.

Lemma length_field_block lines : (length (field_block lines) ≤ length lines)%nat.
Proof.
  induction lines as [|l lines IH]; simpl; [done|].
  destruct (nonempty (strip l)); simpl; lia.
Qed.

Lemma mention_with_catalog line name c i :
  word c → nonempty i = true →
  block_mention line (stdout_mention line name (Some c) (Some i)).
Proof.
  intros Hc Hi. split; [by eexists _, _, _, _|].
  unfold stdout_mention, set_if_true. rewrite (proj1 Hc), Hi.
  simplify_map_eq. repeat split; [by eexists|by right; eexists _, _|].
  rewrite !dom_insert, dom_empty. set_solver.
Qed.

Lemma mention_without_catalog line name ident :
  block_mention line (stdout_mention line name None ident).
Proof.
  split; [by eexists _, _, _, _|].
  unfold stdout_mention, set_if_true.
  destruct ident as [i|]; repeat case_match; simplify_map_eq;
    (repeat split; [by eexists|by left|]);
    rewrite ?dom_insert, ?dom_empty; set_solver.
Qed.

Lemma two_words parts :
  Forall word parts → (2 <=? length parts)%nat = true →
  ∃ c, head parts = Some c ∧ word c ∧ nonempty (unwords (drop 1 parts)) = true.
Proof.
  intros Hw Hlen. destruct parts as [|c [|q parts]]; [done..|].
  apply Forall_cons in Hw as [Hc Hw]. apply Forall_cons in Hw as [Hq _].
  exists c. repeat split; try apply Hc.
  apply unwords_nonempty, Hq.
Qed.

Lemma mention_of_line_shape line : block_mention line (mention_of_line line).
Proof.
  unfold mention_of_line.
  destruct (split_once "/" line) as [[lhs rhs]|].
  - destruct (2 <=? length (split_ws (strip lhs)))%nat eqn:Hlen.
    + destruct (two_words _ (split_ws_words (strip lhs)) Hlen) as (c & Hc & Hw & Hi).
      rewrite Hc. by apply mention_with_catalog.
    + apply mention_without_catalog.
  - destruct (2 <=? length (split_ws line))%nat eqn:Hlen.
    + destruct (two_words _ (split_ws_words line) Hlen) as (c & Hc & Hw & Hi).
      rewrite Hc. change (default EmptyString (Some c)) with c.
      cbn [andb]. destruct (isalpha c).
      * by apply mention_with_catalog.
      * exact (mention_without_catalog line line None).
    + exact (mention_without_catalog line line None).
Qed.

Lemma field_block_shape lines :
  Forall (λ o, ∃ l, l ∈ lines ∧ nonempty (strip l) = true ∧ block_mention (strip l) o)
    (field_block lines).
Proof.
  induction lines as [|l lines IH]; simpl; [constructor|].
  destruct (nonempty (strip l)) eqn:Hl; [|constructor].
  constructor.
  - exists l. split; [set_solver|]. split; [done|]. apply mention_of_line_shape.
  - eapply Forall_impl; [exact IH|]. intros o (l' & Hin & H). exists l'. split; [set_solver|done].
Qed.

(** Property X1.  The objects read from the solver's report: without a line
    equal to the marker there are none; otherwise they are the records of
    the lines that follow the first marker line, one per line and in order,
    up to the first line that is blank once stripped, the end of the report,
    or the fiftieth line, whichever comes first. *)
Theorem stdout_objects_block (pre body rest : list string) :
  marker ∉ pre →
  Forall (λ l, nonempty (strip l) = true) body →
  (length body ≤ 50)%nat →
  length body = 50%nat ∨ rest = [] ∨ (∃ l rest', rest = l :: rest' ∧ strip l = EmptyString) →
  stdout_objects pre = [] ∧
  stdout_objects (pre ++ marker :: body ++ rest)
  = (λ l, mention_of_line (strip l)) <$> body.
Proof.
  intros Hpre Hbody Hlen Hend. split.
  { unfold stdout_objects. by rewrite index_of_None. }
  unfold stdout_objects. rewrite index_of_app by done.
  replace (drop (S (length pre)) (pre ++ marker :: body ++ rest)) with (body ++ rest).
  2:{ rewrite (cons_middle marker pre), (assoc_L (++)).
      rewrite drop_app_length'; [done|]. rewrite length_app. simpl. lia. }
  destruct Hend as [H50|[->|(l & rest' & -> & Hl)]].
  - rewrite take_app_length' by done.
    rewrite <- (app_nil_r body) at 1. by rewrite field_block_nonblank, app_nil_r.
  - rewrite app_nil_r, take_ge by lia.
    rewrite <- (app_nil_r body) at 1. by rewrite field_block_nonblank, app_nil_r.
  - rewrite take_app, (take_ge body) by lia.
    rewrite field_block_nonblank by done.
    destruct (50 - length body)%nat; simpl; [by rewrite app_nil_r|].
    rewrite Hl. simpl. by rewrite app_nil_r.
Qed.

Lemma stdout_objects_block_witness :
  let pre := ["Field center: (RA,Dec) = (304.0, 39.0) deg."] in
  let body := ["  NGC 6888 / Crescent Nebula"; "  The star Sadr"] in
  let rest := [EmptyString; "Field rotation angle: up is 1.0 degrees E of N"] in
  stdout_objects (pre ++ marker :: body ++ rest)
  = [stdout_mention "NGC 6888 / Crescent Nebula" "Crescent Nebula" (Some "NGC") (Some "6888");
     stdout_mention "The star Sadr" "The star Sadr" (Some "The") (Some "star Sadr")].
Proof.
  intros pre body rest.
  refine (eq_trans (proj2 (stdout_objects_block pre body rest _ _ _ _)) _).
  - unfold pre, marker. set_solver.
  - unfold body. repeat constructor.
  - simpl. lia.
  - right. right. by eexists _, _.
  - reflexivity.
Defined.

(** Property X2.  Whatever the report holds, at most fifty objects are read
    from it, and each of them is the record of one of its lines: it keeps
    that line, stripped and not empty, under ["raw"], it has a name, its
    only other keys are ["catalog"] and ["id"], and a catalog is always one
    word that comes with a non-empty identifier.  In particular the objects
    have the shape the merge expects of text mentions. *)
Theorem stdout_objects_shape (lines : list string) :
  (length (stdout_objects lines) ≤ 50)%nat ∧
  Forall text_mention (stdout_objects lines) ∧
  Forall (λ o, ∃ l, l ∈ lines ∧ nonempty (strip l) = true ∧ block_mention (strip l) o)
    (stdout_objects lines).
Proof.
  unfold stdout_objects. destruct (index_of marker lines) as [i|]; [|by repeat split; try constructor; simpl; lia].
  assert (Hshape := field_block_shape (take 50 (drop (S i) lines))).
  split; [|split].
  - etrans; [apply length_field_block|]. rewrite length_take. lia.
  - eapply Forall_impl; [exact Hshape|]. by intros o (l & _ & _ & Ho & _).
  - eapply Forall_impl; [exact Hshape|]. intros o (l & Hin & H). exists l. split; [|done].
    apply elem_of_take in Hin as (j & Hj & _). rewrite lookup_drop in Hj.
    by eapply list_elem_of_lookup_2.
Qed.

(** *** [parse_objs_file] *)

Section ObjsFacts.
Variable float_of_str : string → option R.
Local Abbreviation csv_attempt := (csv_attempt float_of_str).
Local Abbreviation token_attempt := (token_attempt float_of_str).
Local Abbreviation parse_objs_line := (parse_objs_line float_of_str).
Local Abbreviation parse_lines := (parse_lines float_of_str).
Local Abbreviation parse_objs_file := (parse_objs_file float_of_str).

Lemma catalog_of_cases name :
  catalog_of name = (None, None)
  ∨ ∃ c i, catalog_of name = (Some c, Some i) ∧ word c ∧ nonempty i = true.
Proof.
  unfold catalog_of. destruct name as [n|]; [|by left].
  destruct (nonempty n); [|by left].
  destruct (2 <=? length (split_ws n))%nat eqn:Hlen; [|by left].
  destruct (two_words _ (split_ws_words n) Hlen) as (c & Hc & Hw & Hi).
  rewrite Hc. change (default EmptyString (Some c)) with c. cbn [andb].
  destruct (isalpha c); [|by left]. right. by eexists _, _.
Qed.

Lemma catalog_of_word o : (∀ w, o = Some w → word w) → catalog_of o = (None, None).
Proof.
  intros Hw. unfold catalog_of. destruct o as [w|]; [|done].
  destruct (nonempty w); [|done]. by rewrite (split_ws_word w (Hw w eq_refl)).
Qed.

Lemma objs_record_cases t name ra dec catalog ident :
  (catalog = None ∧ ident = None)
  ∨ (∃ c i, catalog = Some c ∧ ident = Some i ∧ word c ∧ nonempty i = true) →
  let p := objs_record t name ra dec catalog ident in
  p = {[ "raw" := VStr t ]} ∨ located p.
Proof.
  intros Hcat p. unfold p, objs_record.
  destruct name as [name|], ra as [ra|], dec as [dec|]; try by left.
  destruct (nonempty name) eqn:Hname; [|by left]. right.
  destruct Hcat as [[-> ->]|(c & i & -> & -> & Hc & Hi)]; unfold located, set_if_true.
  - simplify_map_eq. split; [by eexists _, _, _|]. split; [done|]. split; [by left|].
    rewrite !dom_insert, dom_empty. set_solver.
  - rewrite (proj1 Hc), Hi. simplify_map_eq.
    split; [by eexists _, _, _|]. split; [done|]. split; [by right; eexists _, _|].
    rewrite !dom_insert, dom_empty. set_solver.
Qed.

Lemma parse_objs_line_cases t :
  aux_record (parse_objs_line t)
  ∧ (parse_objs_line t = {[ "raw" := VStr t ]} ∨ located (parse_objs_line t)).
Proof.
  unfold parse_objs_line, ObjsFile.parse_objs_line.
  destruct (csv_attempt t) as [[name ra] dec].
  destruct (token_attempt t name ra dec) as [[name' ra'] dec'].
  destruct (catalog_of_cases name') as [Hc|(c & i & Hc & Hw & Hi)]; rewrite Hc.
  - split; [by eexists _, _, _, _, _, _|]. apply objs_record_cases. by left.
  - split; [by eexists _, _, _, _, _, _|]. apply objs_record_cases. right. by eexists _, _.
Qed.

(** Property X3.  A missing [.objs] file gives no record.  A readable one
    gives exactly one record for each of its lines that is neither blank nor
    a comment, in file order; a record is either the stripped line alone
    under ["raw"], or it has a non-empty name and both coordinates as floats
    (and then no ["raw"], and a catalog only as one word together with a
    non-empty identifier).  In particular the records have the shape the
    merge expects. *)
Theorem parse_objs_file_records (lines : list string) :
  parse_objs_file NoObjs = Some [] ∧
  ∃ items, parse_objs_file (ObjsLines lines) = Some items ∧
    Forall aux_record items ∧
    Forall2 (λ t p, nonempty t = true ∧ starts_with "#" t = false
                    ∧ (p = {[ "raw" := VStr t ]} ∨ located p))
      (filter (λ t, skipped t = false) (strip <$> lines)) items.
Proof.
  split; [done|]. eexists. split; [done|]. unfold parse_lines, ObjsFile.parse_lines.
  induction (strip <$> lines) as [|t ts IH]; [by split; constructor|].
  rewrite filter_cons. destruct (decide (skipped t = false)) as [Ht|Ht]; [|done].
  rewrite fmap_cons. destruct IH as [IH1 IH2].
  destruct (parse_objs_line_cases t) as [H1 H2].
  split; constructor; try done.
  unfold skipped in Ht. apply orb_false_iff in Ht as [Ht1 Ht2].
  apply negb_false_iff in Ht1. done.
Qed.

Lemma token_attempt_nochange t name ra dec :
  token_attempt t name (Some ra) (Some dec) = (name, Some ra, Some dec).
Proof. done. Qed.

(** Property X4.  A line with two commas or more whose first field is not
    blank and whose second and third fields are floats gives a record named
    by the first field, stripped, with these two floats as coordinates: the
    other two attempts are not made. *)
Theorem csv_line_record (t p0 p1 p2 : string) (more : list string) (ra dec : R) :
  split_on "," t = p0 :: p1 :: p2 :: more →
  nonempty (strip p0) = true →
  float_of_str (strip p1) = Some ra →
  float_of_str (strip p2) = Some dec →
  let p := parse_objs_line t in
  p !! "name" = Some (VStr (strip p0)) ∧
  p !! "ra_deg" = Some (VNum ra) ∧
  p !! "dec_deg" = Some (VNum dec) ∧
  p !! "raw" = None.
Proof.
  intros Hsplit Hname Hra Hdec p.
  assert (Hcsv : csv_attempt t = (Some (strip p0), Some ra, Some dec)).
  { unfold csv_attempt, ObjsFile.csv_attempt.
    pose proof (length_split_on "," t) as Hlen. rewrite Hsplit in Hlen. simpl in Hlen.
    replace (2 <=? count_char "," t)%nat with true by (symmetry; apply Nat.leb_le; lia).
    rewrite Hsplit. unfold nth_text. simpl. by rewrite Hra, Hdec. }
  unfold p, parse_objs_line, ObjsFile.parse_objs_line. rewrite Hcsv.
  change (ObjsFile.token_attempt float_of_str t (Some (strip p0)) (Some ra) (Some dec))
    with (Some (strip p0), Some ra, Some dec).
  cbv iota beta.
  destruct (catalog_of (Some (strip p0))) as [c i].
  unfold objs_record, set_if_true. rewrite Hname.
  destruct c as [c|], i as [i|]; repeat case_match; by simplify_map_eq.
Qed.

Lemma scan_tokens_pair toks ra dec : ∃ ra' dec', scan_tokens float_of_str toks ra dec = (ra', dec').
Proof. destruct (scan_tokens float_of_str toks ra dec); by eexists _, _. Qed.

Lemma token_attempt_name t : (token_attempt t None None None).1.1 = head (tokens t).
Proof.
  unfold token_attempt, ObjsFile.token_attempt. cbn [is_none orb].
  pose proof (split_ws_words (replace_char "009" " " (replace_char "=" " " t))) as Hw.
  fold (tokens t) in Hw |- *.
  destruct (scan_tokens float_of_str (tokens t) None None) as [ra dec].
  destruct (tokens t) as [|w ws]; simpl.
  { by rewrite andb_false_r. }
  apply Forall_cons in Hw as [[_ Hw] _].
  rewrite strip_no_space by done.
  destruct (is_none ra || is_none dec), (length ws) as [|[|n]]; simpl;
    repeat case_match; by simplify_eq.
Qed.

(** Property X5.  A line with fewer than two commas never gives a catalog or
    an identifier, and the name of its record, when it has one, is the first
    token of the line (the line cut at white space, with [=] and tabs read
    as spaces). *)
Theorem plain_line_record (t : string) :
  (count_char "," t < 2)%nat →
  let p := parse_objs_line t in
  p !! "catalog" = None ∧
  p !! "id" = None ∧
  ∀ v, p !! "name" = Some v → ∃ w, head (tokens t) = Some w ∧ v = VStr w.
Proof.
  intros Hc p. unfold p, parse_objs_line, ObjsFile.parse_objs_line.
  unfold ObjsFile.csv_attempt.
  replace (2 <=? count_char "," t)%nat with false by (symmetry; apply Nat.leb_gt; lia).
  pose proof (token_attempt_name t) as Hname.
  destruct (ObjsFile.token_attempt float_of_str t None None None) as [[name ra] dec].
  simpl in Hname. subst name.
  rewrite catalog_of_word.
  2:{ intros w Hw. pose proof (split_ws_words (replace_char "009" " " (replace_char "=" " " t))) as HF.
      fold (tokens t) in HF. destruct (tokens t) as [|w' ws]; [done|].
      simpl in Hw. injection Hw as <-. by apply Forall_cons in HF as [? _]. }
  unfold objs_record, set_if_true.
  destruct (head (tokens t)) as [w|], ra, dec; repeat case_match; simplify_map_eq;
    repeat split; try done; intros v; rewrite ?lookup_insert_ne by done;
    try rewrite lookup_insert_eq; try rewrite lookup_empty; try done;
    intros [= <-]; by eexists.
Qed.

End ObjsFacts.

End ParserFacts.

(** ** From the parsers to the sorted list *)

Section PipelineFacts.
Import Text Tokens Geometry FieldBlock ObjsFile Reconciler Pipeline.

Variable float_of_str : string → option R.
Local Abbreviation parse_lines := (parse_lines float_of_str).

Lemma parse_lines_shape lines :
  Forall aux_record (parse_lines lines)
  ∧ Forall (λ p, is_Some (p !! "name") → located p) (parse_lines lines).
Proof.
  unfold parse_lines, ObjsFile.parse_lines.
  induction (filter _ _) as [|t ts [IH1 IH2]]; [by split; constructor|].
  rewrite fmap_cons. destruct (parse_objs_line_cases float_of_str t) as [H1 H2].
  split; constructor; try done.
  intros [v Hv]. destruct H2 as [H2|H2]; [|done]. rewrite H2 in Hv. by simplify_map_eq.
Qed.

(** Property X6.  Merging what the two parsers return never raises.  The
    merged list starts with one entry for every object of the report, in the
    report's order and with its ["raw"] line unchanged; the entries after
    them are records of the [.objs] file that have a name and both
    coordinates. *)
Theorem merge_of_parsed (lines objs_lines : list string) :
  let A := stdout_objects lines in
  let B := parse_lines objs_lines in
  ∃ merged, merge A B = Some merged ∧
    (length A ≤ length merged ≤ length A + length B)%nat ∧
    (λ o : obj, o !! "raw") <$> take (length A) merged = (λ o : obj, o !! "raw") <$> A ∧
    Forall (λ p, p ∈ B ∧ located p) (drop (length A) merged).
Proof.
  intros A B.
  destruct (stdout_objects_shape lines) as (_ & HA & _).
  destruct (parse_lines_shape objs_lines) as [HB HB'].
  destruct (merge_spec A B HA HB) as (head & Hm & H2).
  exists (head ++ filter (λ p, unmatched (keys_of A) p) B). split; [done|].
  pose proof (Forall2_length _ _ _ H2) as Hlen.
  rewrite Hlen, take_app_length, drop_app_length, length_app. split; [|split].
  - pose proof (length_filter (λ p, unmatched (keys_of A) p) B). fold B. lia.
  - clear Hm Hlen. induction H2 as [|o o2 A' head' (key & _ & Hcase) _ IH]; [done|].
    rewrite !fmap_cons, IH. f_equal.
    destruct Hcase as [(p & _ & ->)|[_ ->]]; [|done].
    rewrite update_from_lookup. done.
  - apply Forall_forall. intros p [Hun Hp]%list_elem_of_filter. split; [done|].
    rewrite Forall_forall in HB'. apply HB'; [done|].
    unfold unmatched in Hun. destruct (p !! "name"); [by eexists|done].
Qed.

Lemma insert_sorted_same x l :
  sort_key x = VNum missing_sep → Forall (λ o, sort_key o = VNum missing_sep) l →
  insert_sorted x l = Some (x :: l).
Proof.
  intros Hx Hl. destruct l as [|y l]; [done|]. simpl.
  apply Forall_cons in Hl as [Hy _]. rewrite Hx, Hy. simpl.
  unfold Rltb. destruct (Rlt_dec missing_sep missing_sep) as [H|_]; [|done].
  by apply Rlt_irrefl in H.
Qed.

Lemma sort_by_sep_same l :
  Forall (λ o, sort_key o = VNum missing_sep) l → sort_by_sep l = Some l.
Proof.
  induction 1 as [|x l Hx Hl IH]; [done|]. simpl. rewrite IH. simpl.
  by apply insert_sorted_same.
Qed.

(** Property X7.  When the field centre is not known in full (no right
    ascension or no declination), the reconciler returns the merged list as
    it is: no entry gets a separation and the merge order is kept. *)
Theorem reconcile_without_centre (ra_c dec_c : option R) (A B : list obj) :
  Forall text_mention A → Forall aux_record B →
  ra_c = None ∨ dec_c = None →
  reconcile float_of_str ra_c dec_c A B = merge A B
  ∧ ∃ merged, merge A B = Some merged ∧ Forall (λ o, sep_of o = None) merged.
Proof.
  intros HA HB Hc.
  destruct (merge_spec A B HA HB) as (head & Hm & _).
  pose proof (merge_plain float_of_str A B _ HA HB Hm) as Hplain.
  unfold reconcile. rewrite Hm. simpl.
  assert (Hsep : separations float_of_str ra_c dec_c
                   (head ++ filter (λ p, unmatched (keys_of A) p) B)
                 = Some (head ++ filter (λ p, unmatched (keys_of A) p) B)).
  { unfold separations. apply mapM_Some. apply Forall2_same_length_lookup.
    split; [done|]. intros i x y Hx Hy. assert (x = y) as <- by congruence.
    unfold with_sep. destruct Hc as [-> | ->]; [done|]. by destruct ra_c. }
  rewrite Hsep. simpl. split.
  - apply sort_by_sep_same. eapply Forall_impl; [exact Hplain|].
    intros o (Ho & _). unfold sort_key. by rewrite Ho.
  - eexists. split; [done|]. eapply Forall_impl; [exact Hplain|].
    intros o (Ho & _). unfold sep_of. by rewrite Ho.
Qed.

Lemma with_sep_value ra_c dec_c o :
  plain o →
  ∃ o', with_sep float_of_str (Some ra_c) (Some dec_c) o = Some o'
        ∧ numeric o' ∧ sep_from ra_c dec_c o'.
Proof.
  intros (Hsep & Hra & Hdec). unfold with_sep, sep_from.
  destruct (o !! "ra_deg") as [v1|] eqn:H1.
  2:{ exists o. rewrite H1. repeat split; [|done].
      unfold numeric, num_key, sort_key, sep_of. by rewrite Hsep. }
  destruct (Hra v1 eq_refl) as [x ->].
  destruct (o !! "dec_deg") as [v2|] eqn:H2.
  2:{ exists o. rewrite H1, H2. repeat split; [|done].
      unfold numeric, num_key, sort_key, sep_of. by rewrite Hsep. }
  destruct (Hdec v2 eq_refl) as [y ->]. simpl.
  eexists. split; [done|]. split.
  - unfold numeric, num_key, sort_key, sep_of. by rewrite lookup_insert_eq.
  - rewrite lookup_insert_ne, H1 by done. rewrite lookup_insert_ne, H2 by done. by rewrite lookup_insert_eq.
Qed.

Lemma separations_value ra_c dec_c merged :
  Forall plain merged →
  ∃ pre, separations float_of_str (Some ra_c) (Some dec_c) merged = Some pre
         ∧ Forall numeric pre ∧ Forall (sep_from ra_c dec_c) pre.
Proof.
  induction 1 as [|o merged Ho _ (pre & Hpre & IH1 & IH2)].
  - exists []. by repeat split.
  - destruct (with_sep_value ra_c dec_c o Ho) as (o' & Ho' & Hnum & Hsep).
    exists (o' :: pre). unfold separations in *. rewrite mapM_Some in Hpre.
    split; [apply mapM_Some; by constructor|]. split; by constructor.
Qed.

(** Property X8.  With a field centre, every entry of the reconciler's
    output that has both coordinates carries the great-circle distance from
    the centre to them, in arc-minutes (sixty times [angsep_deg]); an entry
    that lacks a coordinate carries no separation. *)
Theorem reconcile_separation_values (ra_c dec_c : R) (A B : list obj) :
  Forall text_mention A → Forall aux_record B →
  ∃ out, reconcile float_of_str (Some ra_c) (Some dec_c) A B = Some out
         ∧ Forall (sep_from ra_c dec_c) out.
Proof.
  intros HA HB.
  destruct (merge_spec A B HA HB) as (head & Hm & _).
  pose proof (merge_plain float_of_str A B _ HA HB Hm) as Hplain.
  destruct (separations_value ra_c dec_c _ Hplain) as (pre & Hpre & Hnum & Hsep).
  exists (sort_num pre). split.
  - unfold reconcile. rewrite Hm. simpl. rewrite Hpre. simpl. by apply sort_by_sep_num.
  - by rewrite sort_num_perm.
Qed.

End PipelineFacts.

Section MoreGeometry.
Import Geometry.
Local Open Scope R_scope.

(** Property X9.  The separation does not depend on which of the two points
    comes first. *)
Theorem angsep_deg_symmetric (ra1 dec1 ra2 dec2 : R) :
  angsep_deg ra1 dec1 ra2 dec2 = angsep_deg ra2 dec2 ra1 dec1.
Proof.
  unfold angsep_deg. do 4 f_equal.
  replace (radians ra2 - radians ra1) with (- (radians ra1 - radians ra2)) by lra.
  rewrite cos_neg. lra.
Qed.

End MoreGeometry.

(** ** The header step, again *)

Section MoreHeaderFacts.
Import Reconciler Wcs.
Variable float_of_str : string → option R.
Local Abbreviation wcs_step := (wcs_step float_of_str).

Lemma setdefault_keeps k x (astro : gmap string aval) k' v :
  astro !! k' = Some v → setdefault k x astro !! k' = Some v.
Proof.
  intros Hv. unfold setdefault. destruct (astro !! k) eqn:Hk; [done|].
  rewrite lookup_insert_ne; [done|]. intros ->. congruence.
Qed.

Lemma setdefault_is_Some k x (astro : gmap string aval) : is_Some (setdefault k x astro !! k).
Proof.
  unfold setdefault. destruct (astro !! k) eqn:Hk; [by rewrite Hk|].
  by rewrite lookup_insert_eq.
Qed.

(** Property X10.  The [.wcs] step writes nothing but the two centre
    coordinates and the plate matrix: every other entry of [astro] is left
    as it is, a centre coordinate that is already there (read from the
    report) is never replaced, and a declination is only ever added next to
    a right ascension. *)
Theorem wcs_step_frame (wcs : wcs_file) (astro : gmap string aval) :
  let astro' := wcs_step wcs astro in
  (∀ k, k ≠ "ra_center" → k ≠ "dec_center" → k ≠ "cd_matrix" → astro' !! k = astro !! k) ∧
  (∀ v, astro !! "ra_center" = Some v → astro' !! "ra_center" = Some v) ∧
  (∀ v, astro !! "dec_center" = Some v → astro' !! "dec_center" = Some v) ∧
  (is_Some (astro' !! "dec_center") →
     is_Some (astro !! "dec_center") ∨ is_Some (astro' !! "ra_center")).
Proof.
  intros astro'. unfold astro', wcs_step, Wcs.wcs_step.
  destruct wcs as [| |hdr]; [by repeat split; auto..|].
  destruct (float_of_card float_of_str (hdr !! "CRVAL1")) as [ra|]; [|by repeat split; auto].
  pose proof (setdefault_keeps "ra_center" (AFloat ra) astro) as Hk1.
  pose proof (setdefault_is_Some "ra_center" (AFloat ra) astro) as Hs1.
  pose proof (setdefault_other "ra_center" (AFloat ra) astro) as Ho1.
  set (astro1 := setdefault "ra_center" (AFloat ra) astro) in *.
  destruct (float_of_card float_of_str (hdr !! "CRVAL2")) as [dec|].
  2:{ repeat split; auto. }
  pose proof (setdefault_keeps "dec_center" (AFloat dec) astro1) as Hk2.
  pose proof (setdefault_other "dec_center" (AFloat dec) astro1) as Ho2.
  set (astro2 := setdefault "dec_center" (AFloat dec) astro1) in *.
  assert (Hframe : (∀ k, k ≠ "ra_center" → k ≠ "dec_center" → astro2 !! k = astro !! k)
                   ∧ (∀ v, astro !! "ra_center" = Some v → astro2 !! "ra_center" = Some v)
                   ∧ (∀ v, astro !! "dec_center" = Some v → astro2 !! "dec_center" = Some v)
                   ∧ is_Some (astro2 !! "ra_center")).
  { repeat split.
    - intros k ??. by rewrite Ho2, Ho1.
    - intros v Hv. by apply Hk2, Hk1.
    - intros v Hv. by apply Hk2, Hk1.
    - destruct Hs1 as [v Hv]. exists v. by apply Hk2. }
  destruct Hframe as (H1 & H2 & H3 & H4).
  destruct (cd_entries float_of_str hdr cd_keys) as [cd|]; [case_bool_decide|].
  - repeat split; intros; rewrite ?lookup_insert_ne by done; auto.
  - repeat split; auto.
  - repeat split; auto.
Qed.

End MoreHeaderFacts.

(** ** [to_native], again *)

Section MoreNativeFacts.
Import Native Conversion.
Variable repr_of : pyobj → string.
Local Abbreviation to_native := (to_native repr_of).

Lemma floatable_list l : foldr (λ x P, floatable x ∧ P) True l ↔ Forall floatable l.
Proof. induction l as [|x l IH]; simpl; [by split|]. by rewrite Forall_cons, IH. Qed.

Lemma floatable_items (items : list (pyobj * pyobj)) :
  foldr (λ kv P, floatable kv.2 ∧ P) True items ↔ Forall (λ kv, floatable kv.2) items.
Proof. induction items as [|x l IH]; simpl; [by split|]. by rewrite Forall_cons, IH. Qed.

Lemma mapM_floatable l :
  Forall (λ obj, is_Some (to_native obj) → floatable obj) l →
  is_Some (mapM to_native l) → Forall floatable l.
Proof.
  intros IH H%mapM_is_Some.
  induction IH as [|x l Hx _ IHl]; [done|].
  apply Forall_cons in H as [H1 H2]. constructor; [by apply Hx|by apply IHl].
Qed.

(** Whenever [to_native] returns, every [Fraction] and [Decimal] it reached
    converted to a float. *)
Lemma to_native_Some_floatable (obj : pyobj) : is_Some (to_native obj) → floatable obj.
Proof.
  induction obj as [| | | | |f|f t|d h|item IH|l t IH|items IH|l IH|l IH|l IH|t]
    using pyobj_nested_ind; cbn [Native.to_native floatable]; try done.
  - destruct f; simpl; [by eauto|by intros [? ?]].
  - intros H. apply floatable_items.
    assert (Hm : is_Some (mapM (λ kv : pyobj * pyobj,
                            v ← to_native kv.2; Some (Native.py_str repr_of kv.1, v)) items)).
    { destruct (mapM _ items) eqn:Hm; [by eauto|]. simpl in H. by destruct H. }
    apply mapM_is_Some in Hm. clear H.
    induction IH as [|kv items [_ Hkv] _ IHl]; [done|].
    apply Forall_cons in Hm as [H1 H2]. constructor; [|by apply IHl].
    apply Hkv. simpl in H1. destruct (to_native kv.2) eqn:Hv; [by eauto|].
    simpl in H1. by destruct H1.
  - intros H. apply floatable_list, mapM_floatable; [exact IH|].
    destruct (mapM to_native l) eqn:Hm; [by eauto|]. simpl in H. by destruct H.
  - intros H. apply floatable_list, mapM_floatable; [exact IH|].
    destruct (mapM to_native l) eqn:Hm; [by eauto|]. simpl in H. by destruct H.
  - intros H. apply floatable_list, mapM_floatable; [exact IH|].
    destruct (mapM to_native l) eqn:Hm; [by eauto|]. simpl in H. by destruct H.
Qed.

(** Property X11.  [to_native] raises whenever it reaches, through dicts,
    lists, tuples and sets, a [Fraction] or [Decimal] whose conversion to a
    float raises: that exception is not caught and no text stands in for
    the value, however deep the value lies. *)
Theorem to_native_raises_on_failing_rational (obj : pyobj) :
  ¬ floatable obj → to_native obj = None.
Proof.
  intros Hn. destruct (to_native obj) as [v|] eqn:Hv; [|done].
  destruct Hn. apply to_native_Some_floatable. by rewrite Hv.
Qed.

(** Property X12.  When every numpy scalar inside the object has a
    JSON-safe [item()], what [to_native] returns is JSON-safe ([None],
    booleans, numbers, text, lists, dicts with distinct text keys) and
    [to_native] returns it unchanged when applied again. *)
Theorem to_native_json_safe_and_stable (obj v : pyobj) :
  tame obj → to_native obj = Some v →
  native v ∧ to_native v = Some v.
Proof.
  intros Ht Hv. pose proof (to_native_gives_native repr_of obj v Ht Hv) as Hn.
  split; [done|]. by apply to_native_native.
Qed.

End MoreNativeFacts.

(** ** Photo metadata *)

Section CaptureFacts.
Import Native Capture.
Variable float_of : pyobj → option R.
Local Abbreviation extract_photo_metadata := (extract_photo_metadata float_of).
Local Abbreviation gps_of := (gps_of float_of).

Lemma gps_of_dict lat lon alt g : gps_of lat lon alt = Some g → gps_dict g.
Proof.
  unfold gps_of, Capture.gps_of. intros H.
  destruct (negb (is_py_none lat) && negb (is_py_none lon)); [|done].
  destruct (float_of lat) as [la|]; [|done]. destruct (float_of lon) as [lo|]; [|done].
  simpl in H. destruct (negb (is_py_none alt)).
  - destruct (float_of alt) as [al|]; [|done]. injection H as <-.
    exists la, lo. right. by exists al.
  - injection H as <-. exists la, lo. by left.
Qed.

(** Property X13.  The capture dict never holds [None]: its keys are among
    the ten names of [capture_keys], each at most once and in that order, a
    tag whose value is [None] is left out, the width and height are integers
    that come together, and ["gps"], when present, is a dict of floats with
    ["lat"] and ["lon"] and at most ["alt"]. *)
Theorem capture_has_no_none (exiftool pillow : gmap string pyobj) (size : option (Z * Z)) :
  let capture := extract_photo_metadata exiftool pillow size in
  Forall (λ kv, kv.2 ≠ PyNone) capture ∧
  sublist (capture.*1) capture_keys ∧
  (∀ g, ("gps", g) ∈ capture → gps_dict g) ∧
  (∀ v, ("image_width", v) ∈ capture →
     ∃ w h, size = Some (w, h) ∧ v = PyInt w ∧ ("image_height", PyInt h) ∈ capture).
Proof.
  intros capture. unfold capture, extract_photo_metadata, Capture.extract_photo_metadata.
  set (exif := exif_of exiftool pillow).
  set (base := [("datetime", _); _; _; _; _; _; ("camera_model", _)]).
  set (g := Capture.gps_of float_of _ _ _).
  set (withgps := match g with Some gps => base ++ [("gps", gps)] | None => base end).
  set (all := match size with Some (w, h) => _ | None => withgps end).
  assert (Hkeys : sublist (all.*1) capture_keys).
  { unfold all, withgps, base. destruct g, size as [[w h]|]; simpl;
      unfold capture_keys; repeat first [apply sublist_skip | apply sublist_cons | apply sublist_nil]. }
  split; [|split; [|split]].
  - apply Forall_forall. intros kv [Hkv _]%list_elem_of_filter. by destruct (kv.2).
  - etrans; [|exact Hkeys]. apply fmap_sublist, sublist_filter.
  - intros gv [_ Hin]%list_elem_of_filter.
    assert (g = Some gv) as Hg.
    { unfold all, withgps, base in Hin. destruct g, size as [[w h]|]; set_solver. }
    by apply gps_of_dict in Hg.
  - intros v [_ Hin]%list_elem_of_filter.
    unfold all in *. destruct size as [[w h]|].
    + exists w, h. split; [done|].
      assert (v = PyInt w) as ->.
      { unfold withgps, base in Hin. destruct g; set_solver. }
      split; [done|]. apply list_elem_of_filter. split; [done|]. set_solver.
    + unfold withgps, base in Hin. destruct g; set_solver.
Qed.

Lemma is_py_none_false v : is_py_none v = false ↔ v ≠ PyNone.
Proof. by destruct v. Qed.

Lemma gps_of_is_Some lat lon alt :
  is_Some (gps_of lat lon alt)
  ↔ lat ≠ PyNone ∧ lon ≠ PyNone ∧ is_Some (float_of lat) ∧ is_Some (float_of lon)
    ∧ (alt = PyNone ∨ is_Some (float_of alt)).
Proof.
  unfold gps_of, Capture.gps_of. rewrite <- !is_py_none_false.
  destruct (is_py_none lat); simpl; [split; [by intros [? ?]|naive_solver]|].
  destruct (is_py_none lon); simpl; [split; [by intros [? ?]|naive_solver]|].
  destruct (float_of lat) as [la|]; simpl;
    [|split; [by intros [? ?]|intros (_ & _ & [? ?] & _); done]].
  destruct (float_of lon) as [lo|]; simpl;
    [|split; [by intros [? ?]|intros (_ & _ & _ & [? ?] & _); done]].
  destruct (is_py_none alt) eqn:Halt; simpl.
  - split; [intros _|by eauto]. repeat split; eauto. left. by destruct alt.
  - destruct (float_of alt) as [al|]; simpl.
    + split; [intros _|by eauto]. repeat split; eauto.
    + split; [by intros [? ?]|]. intros (_ & _ & _ & _ & [->|[? ?]]); done.
Qed.

(** Property X14.  The GPS entry is all or nothing.  The capture dict has
    ["gps"] exactly when the latitude and longitude tags are both present
    and not [None], both convert to floats, and the altitude tag is absent,
    [None], or converts as well; an altitude that does not convert drops the
    whole entry, latitude and longitude included. *)
Theorem gps_all_or_nothing (exiftool pillow : gmap string pyobj) (size : option (Z * Z)) :
  let exif := exif_of exiftool pillow in
  let lat := tag exif "GPSLatitude" in
  let lon := tag exif "GPSLongitude" in
  let alt := tag exif "GPSAltitude" in
  "gps" ∈ (extract_photo_metadata exiftool pillow size).*1
  ↔ lat ≠ PyNone ∧ lon ≠ PyNone ∧ is_Some (float_of lat) ∧ is_Some (float_of lon)
    ∧ (alt = PyNone ∨ is_Some (float_of alt)).
Proof.
  intros exif lat lon alt. rewrite <- gps_of_is_Some.
  unfold extract_photo_metadata, Capture.extract_photo_metadata. fold exif.
  assert (Hpick : ∀ k, pick exif [k] = tag exif k).
  { intros k. unfold tag. simpl. by destruct (exif !! k). }
  rewrite !Hpick. fold lat lon alt.
  destruct (gps_of lat lon alt) as [g|] eqn:Hg.
  - pose proof (gps_of_dict _ _ _ _ Hg) as (la & lo & Hd).
    split; [by eauto|]. intros _. apply list_elem_of_fmap. exists ("gps", g). split; [done|].
    apply list_elem_of_filter. split; [by destruct Hd as [->|[al ->]]|].
    destruct size as [[w h]|]; set_solver.
  - split; [|by intros [? ?]]. intros ((k & v) & Hk & [_ Hin]%list_elem_of_filter)%list_elem_of_fmap.
    simpl in Hk. subst k. destruct size as [[w h]|]; set_solver.
Qed.

End CaptureFacts.

(** ** The store, step by step *)

Section LedgerFacts.
Import Text Jobs Ledger.

Lemma ensure_layout_dirs x :
  is_Some (input_dir (ensure_layout x)) ∧ is_Some (output_dir (ensure_layout x)).
Proof. destruct x as [[i o s l]|]; simpl; eauto. Qed.

Lemma ensure_layout_of_layout j :
  is_Some (input_dir j) → is_Some (output_dir j) → ensure_layout (Some j) = j.
Proof. destruct j as [i o s l]. simpl. by intros [? ->] [? ->]. Qed.

Lemma has_layout_dir d job_id :
  has_layout d job_id → d !! job_id = Some (ensure_layout (d !! job_id)).
Proof. intros (j & Hj & Hi & Ho). by rewrite Hj, ensure_layout_of_layout. Qed.

Lemma update_dir_lookup job_id f d :
  update_dir job_id f d !! job_id = Some (f (ensure_layout (d !! job_id))).
Proof. apply lookup_insert_eq. Qed.

Lemma update_dir_lookup_ne job_id f d j :
  j ≠ job_id → update_dir job_id f d !! j = d !! j.
Proof. intros. by apply lookup_insert_ne. Qed.

(** Reading the files of a job off a disk that was written to. *)
Local Ltac observe :=
  unfold status_doc, result_doc, job_state, log_of, inputs_of, has_layout,
    set_status, set_result, add_log, add_input, ensure_disk, update_dir;
  rewrite ?lookup_insert_eq; simpl;
  try match goal with |- context [?d !! ?k] => destruct (d !! k) as [[? ? ? ?]|] end;
  simpl; eauto.

Lemma set_status_layout job_id c d : has_layout (set_status job_id c d) job_id.
Proof.
  unfold has_layout, set_status. rewrite update_dir_lookup. eexists. split; [done|].
  apply ensure_layout_dirs.
Qed.
Lemma set_result_layout job_id c d : has_layout (set_result job_id c d) job_id.
Proof.
  unfold has_layout, set_result. rewrite update_dir_lookup. eexists. split; [done|].
  simpl. split; [apply ensure_layout_dirs|eauto].
Qed.
Lemma add_log_layout job_id s d : has_layout (add_log job_id s d) job_id.
Proof.
  unfold has_layout, add_log. rewrite update_dir_lookup. eexists. split; [done|].
  apply ensure_layout_dirs.
Qed.
Lemma add_input_layout job_id n s d : has_layout (add_input job_id n s d) job_id.
Proof.
  unfold has_layout, add_input. rewrite update_dir_lookup. eexists. split; [done|].
  simpl. split; [eauto|apply ensure_layout_dirs].
Qed.
Lemma ensure_disk_has_layout job_id d : has_layout (ensure_disk job_id d) job_id.
Proof.
  unfold has_layout. rewrite ensure_disk_lookup. eexists. split; [done|].
  apply ensure_layout_dirs.
Qed.

Lemma set_status_status job_id c d : status_doc (set_status job_id c d) job_id = Some c.
Proof. observe. Qed.
Lemma set_status_result job_id c d :
  result_doc (set_status job_id c d) job_id = result_doc d job_id.
Proof. observe. Qed.
Lemma set_status_log job_id c d : log_of (set_status job_id c d) job_id = log_of d job_id.
Proof. observe. Qed.
Lemma set_status_inputs job_id c d :
  inputs_of (set_status job_id c d) job_id = inputs_of d job_id.
Proof. observe. Qed.
Lemma set_status_state job_id c d :
  job_state (set_status job_id (Doc (JObj c)) d) job_id = c !! "state".
Proof. unfold job_state. by rewrite set_status_status. Qed.

Lemma set_result_status job_id c d :
  status_doc (set_result job_id c d) job_id = status_doc d job_id.
Proof. observe. Qed.
Lemma set_result_result job_id c d : result_doc (set_result job_id c d) job_id = Some c.
Proof. observe. Qed.
Lemma set_result_log job_id c d : log_of (set_result job_id c d) job_id = log_of d job_id.
Proof. observe. Qed.
Lemma set_result_inputs job_id c d :
  inputs_of (set_result job_id c d) job_id = inputs_of d job_id.
Proof. observe. Qed.

Lemma add_log_status job_id s d : status_doc (add_log job_id s d) job_id = status_doc d job_id.
Proof. observe. Qed.
Lemma add_log_result job_id s d : result_doc (add_log job_id s d) job_id = result_doc d job_id.
Proof. observe. Qed.
Lemma add_log_log job_id s d : log_of (add_log job_id s d) job_id = log_of d job_id +:+ s.
Proof. observe. Qed.
Lemma add_log_inputs job_id s d : inputs_of (add_log job_id s d) job_id = inputs_of d job_id.
Proof. observe. Qed.

Lemma add_input_status job_id n s d :
  status_doc (add_input job_id n s d) job_id = status_doc d job_id.
Proof. observe. Qed.
Lemma add_input_result job_id n s d :
  result_doc (add_input job_id n s d) job_id = result_doc d job_id.
Proof. observe. Qed.
Lemma add_input_log job_id n s d : log_of (add_input job_id n s d) job_id = log_of d job_id.
Proof. observe. Qed.
Lemma add_input_inputs job_id n s d :
  inputs_of (add_input job_id n s d) job_id = <[n := s]> (inputs_of d job_id).
Proof. observe. Qed.

Lemma ensure_disk_log job_id d j : log_of (ensure_disk job_id d) j = log_of d j.
Proof.
  unfold log_of. destruct (decide (job_id = j)) as [->|Hne].
  - rewrite ensure_disk_lookup. by destruct (d !! j) as [[? ? ? ?]|].
  - by rewrite ensure_disk_lookup_ne.
Qed.
Lemma ensure_disk_inputs job_id d j : inputs_of (ensure_disk job_id d) j = inputs_of d j.
Proof.
  unfold inputs_of. destruct (decide (job_id = j)) as [->|Hne].
  - rewrite ensure_disk_lookup. by destruct (d !! j) as [[[?|] ? ? ?]|].
  - by rewrite ensure_disk_lookup_ne.
Qed.

Lemma job_state_status d d' job_id :
  status_doc d' job_id = status_doc d job_id → job_state d' job_id = job_state d job_id.
Proof. unfold job_state. by intros ->. Qed.

(** What each write does to a world. *)
Lemma append_log_eq job_id s w :
  has_layout (disk w) job_id →
  append_log job_id s w = (Ok tt, World (add_log job_id s (disk w)) (snapshots w)).
Proof.
  intros (j & Hj & Hi & Ho). unfold append_log. rewrite bind_run. simpl.
  unfold add_log, update_dir. by rewrite Hj, ensure_layout_of_layout.
Qed.

Lemma write_result_file_eq job_id c w :
  has_layout (disk w) job_id →
  write_result_file job_id c w = (Ok tt, World (set_result job_id c (disk w)) (snapshots w)).
Proof.
  intros (j & Hj & Hi & Ho). unfold write_result_file. rewrite bind_run. simpl.
  unfold set_result, update_dir. rewrite Hj, ensure_layout_of_layout by done.
  destruct j as [i o s l]. simpl in Ho. by destruct Ho as [? ->].
Qed.

Lemma copy_input_eq job_id n data w :
  has_layout (disk w) job_id →
  copy_input job_id n data w = (Ok tt, World (add_input job_id n data (disk w)) (snapshots w)).
Proof.
  intros (j & Hj & Hi & Ho). unfold copy_input. rewrite bind_run. simpl.
  unfold add_input, update_dir. rewrite Hj, ensure_layout_of_layout by done.
  destruct j as [i o s l]. simpl in Hi. by destruct Hi as [? ->].
Qed.

Lemma write_status_eq job_id state message params now w o :
  status_base job_id now (status_doc (disk w) job_id) = Some o →
  let c := updated_status job_id state message params now o in
  write_status job_id state message params now w
  = (Ok (JObj c),
     World (set_status job_id (Doc (JObj c)) (disk w))
       (ensure_disk job_id (disk w) :: snapshots w)).
Proof.
  intros Ho c. unfold write_status. rewrite bind_run, ensure_job_dirs_run, bind_run. simpl.
  rewrite ensure_disk_status.
  assert (Hcur : match status_doc (disk w) job_id with
                 | Some (Doc j) => j
                 | Some (Text _) => JObj ∅
                 | None => JObj (<["created_at" := JFloat now]> (<["job_id" := JStr job_id]> ∅))
                 end = JObj o).
  { unfold status_base in Ho. destruct (status_doc (disk w) job_id) as [[[]|]|]; congruence. }
  rewrite Hcur. rewrite bind_run. unfold write_status_file. rewrite bind_run. simpl.
  rewrite ensure_disk_lookup. simpl.
  unfold set_status, update_dir, ensure_disk. by rewrite insert_insert_eq.
Qed.

Lemma write_status_raised job_id state message params now w :
  status_base job_id now (status_doc (disk w) job_id) = None →
  write_status job_id state message params now w
  = (Raised "AttributeError: no attribute 'update'",
     World (ensure_disk job_id (disk w)) (snapshots w)).
Proof.
  intros Ho. unfold write_status. rewrite bind_run, ensure_job_dirs_run, bind_run. simpl.
  rewrite ensure_disk_status. unfold status_base in Ho.
  by destruct (status_doc (disk w) job_id) as [[[]|]|].
Qed.

Lemma status_base_cases job_id now file :
  (∃ o, status_base job_id now file = Some o)
  ∨ (status_base job_id now file = None ∧ ∃ j, file = Some (Doc j) ∧ ¬ ∃ o, j = JObj o).
Proof.
  destruct file as [[j|s]|]; simpl; eauto.
  destruct j; eauto; right; (split; [done|]); eexists; (split; [done|]); by intros [? ?].
Qed.

Lemma updated_status_other job_id state message params now o k :
  k ∉ status_keys → updated_status job_id state message params now o !! k = o !! k.
Proof.
  unfold status_keys, updated_status. intros Hk.
  rewrite !lookup_insert_ne; [done|set_solver..].
Qed.

Lemma updated_status_nonempty job_id state message params now o :
  truthy (JObj (updated_status job_id state message params now o)) = true.
Proof.
  simpl. apply bool_decide_eq_true. intros H.
  apply (f_equal (λ m : gmap string json, m !! "updated_at")) in H.
  unfold updated_status in H. by rewrite lookup_insert_eq, lookup_empty in H.
Qed.

End LedgerFacts.

Section StatusFacts.
Import Text Jobs Ledger.

(** Property X15.  A status that was written is the status that is read:
    when the stored status can be updated (it is absent, not JSON, or a JSON
    object), [write_status] returns the dict it stored and [read_status] then
    returns the same dict.  [status] prints that dict, field by field, and
    returns 0; it adds ["ok": true] only when the dict has no ["ok"] of its
    own: an ["ok"] found in the stored status is carried over by
    [write_status] and printed as it was stored.  The dict holds the job
    identifier, the state, the message and the time of the write. *)
Theorem status_round_trip (job_id state : string) (message : option string)
    (params : option (gmap string json)) (now : Q) (w : world) (o : gmap string json) :
  status_base job_id now (status_doc (disk w) job_id) = Some o →
  ∃ c w' printed,
    write_status job_id state message params now w = (Ok (JObj c), w') ∧
    (read_status job_id w').1 = Ok (JObj c) ∧
    (cmd_status job_id w').1 = Ok (Report (JObj printed) 0 None) ∧
    (∀ k, k ≠ "ok" → printed !! k = c !! k) ∧
    c !! "ok" = o !! "ok" ∧
    printed !! "ok" = Some (default (JBool true) (o !! "ok")) ∧
    c !! "job_id" = Some (JStr job_id) ∧
    c !! "state" = Some (JStr state) ∧
    c !! "message" = Some (from_option JStr JNull message) ∧
    c !! "updated_at" = Some (JFloat now).
Proof.
  intros Ho.
  exists (updated_status job_id state message params now o). eexists.
  exists (updated_status job_id state message params now o ∪ {[ "ok" := JBool true ]}).
  split; [by apply write_status_eq|].
  assert (Hok : updated_status job_id state message params now o !! "ok" = o !! "ok").
  { apply updated_status_other. unfold status_keys. set_solver. }
  set (c := updated_status job_id state message params now o) in *.
  assert (Hread : ∀ w', status_doc (disk w') job_id = Some (Doc (JObj c)) →
            read_status job_id w' = (Ok (JObj c), World (ensure_disk job_id (disk w')) (snapshots w'))).
  { intros w' Hw'. by rewrite read_status_run, Hw'. }
  split; [by rewrite Hread by apply set_status_status|].
  split.
  { unfold cmd_status. rewrite bind_run, Hread by apply set_status_status.
    pose proof (updated_status_nonempty job_id state message params now o) as Ht.
    fold c in Ht. by rewrite Ht. }
  split.
  { intros k Hk. rewrite lookup_union, lookup_singleton_ne by done.
    by destruct (c !! k). }
  split; [done|]. split.
  { rewrite lookup_union, lookup_singleton_eq, Hok. by destruct (o !! "ok"). }
  unfold c, updated_status. by simplify_map_eq.
Qed.

(** Property X16.  An update of a status keeps what it does not set: every
    field of the stored dict other than the five that [write_status] writes
    is carried over, the creation time among them, and the stored
    parameters stay when the call gives none (or an empty dict). *)
Theorem status_update_keeps_fields (job_id state : string) (message : option string)
    (params : option (gmap string json)) (now : Q) (w : world) (o : gmap string json) :
  status_doc (disk w) job_id = Some (Doc (JObj o)) →
  ∃ c w',
    write_status job_id state message params now w = (Ok (JObj c), w') ∧
    status_doc (disk w') job_id = Some (Doc (JObj c)) ∧
    (∀ k, k ∉ status_keys → c !! k = o !! k) ∧
    c !! "created_at" = o !! "created_at" ∧
    c !! "params" = Some (match params with
                          | Some p => if bool_decide (p = ∅) then get "params" o else JObj p
                          | None => get "params" o
                          end).
Proof.
  intros Hfile. eexists _, _. split.
  { apply write_status_eq. by rewrite Hfile. }
  split; [apply set_status_status|].
  split; [intros k Hk; by apply updated_status_other|].
  split; [apply updated_status_other; unfold status_keys; set_solver|].
  unfold updated_status, sticky_params. simplify_map_eq. f_equal.
  destruct params as [p|]; [|done]. simpl. by repeat case_bool_decide.
Qed.

(** Property X17.  [write_status] raises exactly when [status.json] holds
    JSON that is not an object; the job's directories are then made and
    nothing else is written.  A status file that is not JSON at all is
    replaced by a new dict, which has no creation time. *)
Theorem write_status_on_a_bad_file (job_id state : string) (message : option string)
    (params : option (gmap string json)) (now : Q) (w : world) :
  let run := write_status job_id state message params now w in
  ((∃ e, run.1 = Raised e)
   ↔ ∃ j, status_doc (disk w) job_id = Some (Doc j) ∧ ¬ ∃ o, j = JObj o) ∧
  ((∃ e, run.1 = Raised e) → disk run.2 = ensure_disk job_id (disk w)) ∧
  (∀ s, status_doc (disk w) job_id = Some (Text s) →
     ∃ c, run.1 = Ok (JObj c) ∧ status_doc (disk run.2) job_id = Some (Doc (JObj c))
          ∧ c !! "created_at" = None).
Proof.
  intros run. unfold run.
  destruct (status_base_cases job_id now (status_doc (disk w) job_id))
    as [[o Ho]|(Ho & j & Hj & Hn)].
  - rewrite (write_status_eq _ _ _ _ _ _ _ Ho). simpl. split; [|split].
    + split; [by intros [? ?]|]. intros (j & Hj & Hn). rewrite Hj in Ho. simpl in Ho.
      destruct j; try done; destruct Hn; by eexists.
    + by intros [? ?].
    + intros s Hs. eexists. split; [done|]. split; [apply set_status_status|].
      rewrite Hs in Ho. injection Ho as <-.
      rewrite updated_status_other; [done|unfold status_keys; set_solver].
  - rewrite (write_status_raised _ _ _ _ _ _ Ho). simpl. split; [|split].
    + split; [by eauto|by eauto].
    + done.
    + intros s Hs. congruence.
Qed.

End StatusFacts.

Section RunFacts.
Import Text Jobs Ledger.

Variable JOBS_DIR : string.
Variable ASTRO_EXTRACT_BIN : string.
Variable shlex_quote : string → string.
Variable str_of_float : Q → string.
Variable repr_of : json → string.
Variable subprocess_run : string → run_result.
Variable json_loads : string → option json.
Variable resolve : string → string.
Variable path_name : string → string.
Variable file_at : string → image_file.

Local Abbreviation run_worker :=
  (run_worker ASTRO_EXTRACT_BIN shlex_quote str_of_float repr_of subprocess_run json_loads).
Local Abbreviation worker_cmd_line :=
  (worker_cmd_line ASTRO_EXTRACT_BIN shlex_quote str_of_float).
Local Abbreviation interpret := (interpret json_loads).
Local Abbreviation cmd_submit := (cmd_submit JOBS_DIR resolve path_name file_at).
Local Abbreviation cmd_result := (cmd_result repr_of).
Local Abbreviation py_str := (py_str repr_of).

Section OneRun.
Variable job_id image_path : string.
Variable scale_low scale_high : option Q.
Variable downsample timeout : option Z.
Variable now1 now2 : Q.
Variable w : world.

Local Abbreviation cmd := (worker_cmd_line image_path scale_low scale_high downsample timeout).
Local Abbreviation run :=
  (run_worker job_id image_path scale_low scale_high downsample timeout now1 now2 w).
Local Abbreviation params := (params_dict scale_low scale_high downsample timeout).
Local Abbreviation d0 := (ensure_disk job_id (disk w)).

(** The run stops at its first [write_status] when the stored status cannot
    be updated. *)
Lemma run_worker_blocked :
  status_base job_id now1 (status_doc (disk w) job_id) = None →
  run = (Raised "AttributeError: no attribute 'update'", World d0 (d0 :: snapshots w)).
Proof.
  intros Ho. unfold Jobs.run_worker.
  rewrite bind_run, ensure_job_dirs_run, bind_run.
  rewrite write_status_raised by (simpl; by rewrite ensure_disk_status).
  simpl. by rewrite ensure_disk_idemp.
Qed.

Section Started.
Variable o : gmap string json.
Hypothesis Ho : status_base job_id now1 (status_doc (disk w) job_id) = Some o.

Local Abbreviation c1 :=
  (updated_status job_id "processing" (Some "Solving image…") (Some params) now1 o).
Local Abbreviation d1 := (set_status job_id (Doc (JObj c1)) d0).

(** The child cannot be run or read. *)
Lemma run_worker_failed e :
  subprocess_run cmd = RunRaises e →
  let c2 := updated_status job_id "error" (Some ("Execution failed: " +:+ e)) None now2 c1 in
  run = (Ok 1%Z,
         World (set_status job_id (Doc (JObj c2)) d1)
           (d1 :: d1 :: d0 :: d0 :: snapshots w)).
Proof.
  intros He c2. unfold Jobs.run_worker.
  rewrite bind_run, ensure_job_dirs_run, bind_run.
  rewrite (write_status_eq _ _ _ _ _ _ o) by (simpl; by rewrite ensure_disk_status).
  cbn [disk snapshots seen]. rewrite ensure_disk_idemp, He.
  rewrite bind_run.
  rewrite (write_status_eq _ _ _ _ _ _ c1) by (simpl; by rewrite set_status_status).
  cbn [disk snapshots seen]. unfold ret.
  by rewrite (ensure_disk_layout job_id d1) by apply set_status_layout.
Qed.

Section Returned.
Variable proc : completed_process.
Hypothesis Hproc : subprocess_run cmd = RunReturns proc.

Local Abbreviation d2 := (add_log job_id (log_entry cmd proc) d1).
Local Abbreviation d3 := (set_result job_id (Doc (interpret proc)) d2).

(** The child ran to its end and printed a JSON object, or nothing that
    is JSON. *)
Lemma run_worker_finished r :
  interpret proc = JObj r →
  let ok := truthy (get "ok" r) in
  let c2 :=
    if ok then updated_status job_id "done" (Some "Analysis complete") None now2 c1
    else updated_status job_id "error" (Some (py_str (get "error" r))) None now2 c1 in
  run = (Ok (if ok then 0 else 2)%Z,
         World (set_status job_id (Doc (JObj c2)) d3)
           (d3 :: d3 :: d2 :: d1 :: d0 :: d0 :: snapshots w)).
Proof.
  intros Hr ok c2. unfold Jobs.run_worker.
  rewrite bind_run, ensure_job_dirs_run, bind_run.
  rewrite (write_status_eq _ _ _ _ _ _ o) by (simpl; by rewrite ensure_disk_status).
  cbn [disk snapshots seen]. rewrite ensure_disk_idemp, Hproc.
  rewrite bind_run, append_log_eq by apply set_status_layout.
  rewrite bind_run, write_result_file_eq by apply add_log_layout.
  cbn [disk snapshots seen]. fold (log_entry cmd proc). rewrite Hr.
  assert (Hst : status_base job_id now2
                  (status_doc (set_result job_id (Doc (JObj r)) d2) job_id) = Some c1).
  { by rewrite set_result_status, add_log_status, set_status_status. }
  unfold c2, ok. destruct (truthy (get "ok" r)).
  - rewrite bind_run, (write_status_eq _ _ _ _ _ _ c1) by done.
    cbn [disk snapshots seen]. unfold ret.
    by rewrite (ensure_disk_layout job_id (set_result _ _ _)) by apply set_result_layout.
  - rewrite bind_run, (write_status_eq _ _ _ _ _ _ c1) by done.
    cbn [disk snapshots seen]. unfold ret.
    by rewrite (ensure_disk_layout job_id (set_result _ _ _)) by apply set_result_layout.
Qed.

(** The child printed JSON that is not an object. *)
Lemma run_worker_crashed :
  (¬ ∃ r, interpret proc = JObj r) →
  run = (Raised "AttributeError: no attribute 'get'",
         World d3 (d2 :: d1 :: d0 :: d0 :: snapshots w)).
Proof.
  intros Hr. unfold Jobs.run_worker.
  rewrite bind_run, ensure_job_dirs_run, bind_run.
  rewrite (write_status_eq _ _ _ _ _ _ o) by (simpl; by rewrite ensure_disk_status).
  cbn [disk snapshots seen]. rewrite ensure_disk_idemp, Hproc.
  rewrite bind_run, append_log_eq by apply set_status_layout.
  rewrite bind_run, write_result_file_eq by apply add_log_layout.
  cbn [disk snapshots seen]. fold (log_entry cmd proc).
  destruct (Jobs.interpret json_loads proc) eqn:Hi; try done.
  destruct Hr. by eexists.
Qed.

End Returned.
End Started.
End OneRun.


Lemma append_cons a s t : String a s +:+ t = String a (s +:+ t).
Proof. done. Qed.

Lemma append_empty s : s +:+ EmptyString = s.
Proof. induction s as [|a s IH]; [done|]. by rewrite append_cons, IH. Qed.

Lemma substring_all n s : (String.length s ≤ n)%nat → String.substring 0 n s = s.
Proof.
  revert n. induction s as [|a s IH]; intros [|n] Hn; simpl in *; try done; try lia.
  rewrite IH; [done|lia].
Qed.

Lemma substring_tail k s :
  (k ≤ String.length s)%nat →
  ∃ pre, s = pre +:+ String.substring k (String.length s - k) s ∧ String.length pre = k.
Proof.
  revert k. induction s as [|a s IH]; intros [|k] Hk; simpl in *; try lia.
  - by exists EmptyString.
  - exists EmptyString. split; [|done].
    change (EmptyString +:+ ?x) with x. by rewrite substring_all.
  - destruct (IH k) as (pre & Hpre & Hlen); [lia|].
    exists (String a pre). rewrite append_cons. simpl. split; [by f_equal|by f_equal].
Qed.

Lemma length_app_string a b :
  String.length (a +:+ b) = (String.length a + String.length b)%nat.
Proof. induction a as [|c a IH]; [done|]. rewrite append_cons. simpl. by rewrite IH. Qed.

(** [s[-n:]] is the end of [s], of [n] characters or all of [s]. *)
Lemma last_chars_tail n s :
  ∃ pre, s = pre +:+ last_chars n s
         ∧ String.length (last_chars n s) = Nat.min n (String.length s).
Proof.
  unfold last_chars. destruct (decide (n ≤ String.length s)%nat) as [Hn|Hn].
  - destruct (substring_tail (String.length s - n) s) as (pre & Hpre & Hlen); [lia|].
    replace (String.length s - (String.length s - n))%nat with n in Hpre by lia.
    exists pre. split; [done|].
    apply (f_equal String.length) in Hpre. rewrite length_app_string in Hpre. lia.
  - replace (String.length s - n)%nat with 0%nat by lia.
    rewrite substring_all by lia. exists EmptyString. split; [done|]. lia.
Qed.

Lemma interpret_object proc j :
  (returncode proc = 0 ∨ returncode proc = 2)%Z →
  json_loads (stdout proc) = Some j → interpret proc = j.
Proof.
  intros Hrc Hj. unfold Jobs.interpret. rewrite bool_decide_eq_true_2 by done. by rewrite Hj.
Qed.

Lemma interpret_cases proc :
  (∃ r, interpret proc = JObj r)
  ∨ ((returncode proc = 0 ∨ returncode proc = 2)%Z
     ∧ ∃ j, json_loads (stdout proc) = Some j ∧ interpret proc = j ∧ ¬ ∃ r, j = JObj r).
Proof.
  unfold Jobs.interpret. case_bool_decide as Hrc; [|by left; eexists].
  destruct (json_loads (stdout proc)) as [j|]; [|by left; eexists].
  destruct j; try (by left; eexists); right; (split; [done|]); eexists;
    (split; [done|]); (split; [done|]); by intros [? ?].
Qed.

(** Property X19.  The result query returns what the child printed: when
    the child ends with code 0 or 2 and its output is a JSON object, the
    worker stores that object, [result] prints it unchanged and returns 0,
    and the job ends in [done] (worker code 0) when the object's ["ok"] is
    true, in [error] (worker code 2) otherwise. *)
Theorem result_returns_child_document (job_id image_path : string)
    (scale_low scale_high : option Q) (downsample timeout : option Z) (now1 now2 : Q)
    (decode_error : string) (w : world) (proc : completed_process)
    (r o : gmap string json) :
  subprocess_run (worker_cmd_line image_path scale_low scale_high downsample timeout)
    = RunReturns proc →
  (returncode proc = 0 ∨ returncode proc = 2)%Z →
  json_loads (stdout proc) = Some (JObj r) →
  status_base job_id now1 (status_doc (disk w) job_id) = Some o →
  let run := run_worker job_id image_path scale_low scale_high downsample timeout now1 now2 w in
  let ok := truthy (get "ok" r) in
  run.1 = Ok (if ok then 0 else 2)%Z ∧
  job_state (disk run.2) job_id = Some (JStr (if ok then "done" else "error")) ∧
  result_doc (disk run.2) job_id = Some (Doc (JObj r)) ∧
  (cmd_result job_id decode_error run.2).1 = Ok (Report (JObj r) 0 None).
Proof.
  intros Hrun Hrc Hj Ho run ok.
  pose proof (interpret_object proc _ Hrc Hj) as Hr.
  unfold run. rewrite (run_worker_finished _ _ _ _ _ _ _ _ _ o Ho proc Hrun r Hr).
  cbn [fst snd disk]. fold ok.
  assert (Hres : ∀ c, result_doc (set_status job_id c
                        (set_result job_id (Doc (interpret proc))
                           (add_log job_id
                              (log_entry (worker_cmd_line image_path scale_low scale_high
                                            downsample timeout) proc)
                              (set_status job_id
                                 (Doc (JObj (updated_status job_id "processing"
                                               (Some "Solving image…")
                                               (Some (params_dict scale_low scale_high
                                                        downsample timeout)) now1 o)))
                                 (ensure_disk job_id (disk w)))))) job_id
                      = Some (Doc (JObj r))).
  { intros c. by rewrite set_status_result, set_result_result, Hr. }
  split; [done|]. split.
  { rewrite set_status_state. destruct ok; unfold updated_status; by simplify_map_eq. }
  split; [apply Hres|].
  apply cmd_result_stored. apply Hres.
Qed.

(** Property X20.  A child that ends with code 0 or 2 and prints JSON that
    is not an object (a list, a number, a text) makes the worker raise after
    it has stored the result: the run leaves the job in [processing], while
    [result] prints the stored value and returns 0. *)
Theorem worker_raises_on_non_object_json (job_id image_path : string)
    (scale_low scale_high : option Q) (downsample timeout : option Z) (now1 now2 : Q)
    (decode_error : string) (w : world) (proc : completed_process) (j : json)
    (o : gmap string json) :
  subprocess_run (worker_cmd_line image_path scale_low scale_high downsample timeout)
    = RunReturns proc →
  (returncode proc = 0 ∨ returncode proc = 2)%Z →
  json_loads (stdout proc) = Some j →
  (¬ ∃ r, j = JObj r) →
  status_base job_id now1 (status_doc (disk w) job_id) = Some o →
  let run := run_worker job_id image_path scale_low scale_high downsample timeout now1 now2 w in
  run.1 = Raised "AttributeError: no attribute 'get'" ∧
  job_state (disk run.2) job_id = Some (JStr "processing") ∧
  result_doc (disk run.2) job_id = Some (Doc j) ∧
  (cmd_result job_id decode_error run.2).1 = Ok (Report j 0 None).
Proof.
  intros Hrun Hrc Hj Hn Ho run.
  pose proof (interpret_object proc _ Hrc Hj) as Hi.
  unfold run. rewrite (run_worker_crashed _ _ _ _ _ _ _ _ _ o Ho proc Hrun) by (by rewrite Hi).
  cbn [fst snd disk]. split; [done|]. split.
  { erewrite job_state_status; [|by rewrite set_result_status, add_log_status].
    rewrite set_status_state. unfold updated_status. by simplify_map_eq. }
  assert (Hres : result_doc (set_result job_id (Doc (interpret proc))
                   (add_log job_id
                      (log_entry (worker_cmd_line image_path scale_low scale_high
                                    downsample timeout) proc)
                      (set_status job_id
                         (Doc (JObj (updated_status job_id "processing"
                                       (Some "Solving image…")
                                       (Some (params_dict scale_low scale_high
                                                downsample timeout)) now1 o)))
                         (ensure_disk job_id (disk w))))) job_id = Some (Doc j)).
  { by rewrite set_result_result, Hi. }
  split; [done|]. by apply cmd_result_stored.
Qed.

(** Property X21.  The log only grows, and the input copy is never
    changed: after a run the log is the log before it followed by the
    worker's entry for the child (the command line, then the child's output
    and error streams), or by nothing when the child could not be run or
    the run stopped before it. *)
Theorem worker_appends_to_the_log (job_id image_path : string)
    (scale_low scale_high : option Q) (downsample timeout : option Z) (now1 now2 : Q)
    (w : world) :
  let cmd := worker_cmd_line image_path scale_low scale_high downsample timeout in
  let run := run_worker job_id image_path scale_low scale_high downsample timeout now1 now2 w in
  let entry :=
    match status_base job_id now1 (status_doc (disk w) job_id), subprocess_run cmd with
    | Some _, RunReturns proc => log_entry cmd proc
    | _, _ => EmptyString
    end in
  log_of (disk run.2) job_id = log_of (disk w) job_id +:+ entry ∧
  inputs_of (disk run.2) job_id = inputs_of (disk w) job_id.
Proof.
  intros cmd run entry. unfold run, entry, cmd.
  destruct (status_base_cases job_id now1 (status_doc (disk w) job_id)) as [[o Ho]|[Ho _]].
  2:{ rewrite run_worker_blocked, Ho by done. simpl.
      by rewrite ensure_disk_log, ensure_disk_inputs, append_empty. }
  rewrite Ho.
  destruct (subprocess_run (worker_cmd_line image_path scale_low scale_high downsample timeout))
    as [e|proc] eqn:Hrun.
  { rewrite (run_worker_failed _ _ _ _ _ _ _ _ _ o Ho e Hrun). simpl.
    by rewrite !set_status_log, !set_status_inputs, ensure_disk_log, ensure_disk_inputs,
      append_empty. }
  destruct (interpret_cases proc) as [[r Hr]|(_ & j' & _ & Hi & Hn)].
  - rewrite (run_worker_finished _ _ _ _ _ _ _ _ _ o Ho proc Hrun r Hr). simpl.
    by rewrite !set_status_log, !set_status_inputs, set_result_log, set_result_inputs,
      add_log_log, add_log_inputs, !set_status_log, !set_status_inputs,
      ensure_disk_log, ensure_disk_inputs.
  - rewrite (run_worker_crashed _ _ _ _ _ _ _ _ _ o Ho proc Hrun) by (by rewrite Hi). simpl.
    by rewrite set_result_log, set_result_inputs,
      add_log_log, add_log_inputs, !set_status_log, !set_status_inputs,
      ensure_disk_log, ensure_disk_inputs.
Qed.

(** Property X22.  When the child ends with code 0 or 2 but its output is
    not JSON, the stored result is an error record with ["ok": false] whose
    ["raw"] field is the end of the child's output, at most 2000 characters
    of it; the worker returns 2 and the job ends in [error] with the
    message of that record. *)
Theorem invalid_json_keeps_the_tail (job_id image_path : string)
    (scale_low scale_high : option Q) (downsample timeout : option Z) (now1 now2 : Q)
    (w : world) (proc : completed_process) (o : gmap string json) :
  subprocess_run (worker_cmd_line image_path scale_low scale_high downsample timeout)
    = RunReturns proc →
  (returncode proc = 0 ∨ returncode proc = 2)%Z →
  json_loads (stdout proc) = None →
  status_base job_id now1 (status_doc (disk w) job_id) = Some o →
  let run := run_worker job_id image_path scale_low scale_high downsample timeout now1 now2 w in
  ∃ raw pre c,
    stdout proc = pre +:+ raw ∧
    String.length raw = Nat.min 2000 (String.length (stdout proc)) ∧
    result_doc (disk run.2) job_id
    = Some (Doc (JObj (<["raw" := JStr raw]>
                         (<["error" := JStr "Invalid JSON from astro_extract"]>
                            (<["ok" := JBool false]> ∅))))) ∧
    run.1 = Ok 2%Z ∧
    status_doc (disk run.2) job_id = Some (Doc (JObj c)) ∧
    c !! "state" = Some (JStr "error") ∧
    c !! "message" = Some (JStr "Invalid JSON from astro_extract").
Proof.
  intros Hrun Hrc Hj Ho run.
  destruct (last_chars_tail 2000 (stdout proc)) as (pre & Hpre & Hlen).
  exists (last_chars 2000 (stdout proc)), pre. eexists.
  split; [done|]. split; [done|].
  assert (Hr : interpret proc
               = JObj (<["raw" := JStr (last_chars 2000 (stdout proc))]>
                         (<["error" := JStr "Invalid JSON from astro_extract"]>
                            (<["ok" := JBool false]> ∅)))).
  { unfold Jobs.interpret. rewrite bool_decide_eq_true_2 by done. by rewrite Hj. }
  unfold run. rewrite (run_worker_finished _ _ _ _ _ _ _ _ _ o Ho proc Hrun _ Hr).
  cbn [fst snd disk].
  rewrite set_status_result, set_result_result, set_status_status, Hr.
  replace (truthy (get "ok" _)) with false by (unfold get; by simplify_map_eq).
  split; [done|]. split; [done|]. split; [done|].
  unfold updated_status, get. by simplify_map_eq.
Qed.

(** Property X23.  The states a reader can see during a run that could
    start (the stored status could be updated), newest first: at most one
    final state, [done] or [error]; before it [processing]; before that the
    state the job had when the run began.  A run never goes back, and it
    shows no final state only when it raised. *)
Theorem worker_state_sequence (job_id image_path : string)
    (scale_low scale_high : option Q) (downsample timeout : option Z) (now1 now2 : Q)
    (w : world) (o : gmap string json) :
  status_base job_id now1 (status_doc (disk w) job_id) = Some o →
  let run := run_worker job_id image_path scale_low scale_high downsample timeout now1 now2 w in
  ∃ final n m,
    states_of job_id (snapshots run.2)
    = final ++ replicate n (Some (JStr "processing"))
        ++ replicate m (job_state (disk w) job_id) ++ states_of job_id (seen w) ∧
    (1 ≤ n)%nat ∧ (1 ≤ m)%nat ∧
    (final = [Some (JStr "done")] ∧ run.1 = Ok 0%Z
     ∨ final = [Some (JStr "error")] ∧ (run.1 = Ok 1%Z ∨ run.1 = Ok 2%Z)
     ∨ final = [] ∧ ∃ e, run.1 = Raised e).
Proof.
  intros Ho run. unfold run.
  assert (H1 : ∀ d, status_doc d job_id
                    = Some (Doc (JObj (updated_status job_id "processing"
                                         (Some "Solving image…")
                                         (Some (params_dict scale_low scale_high
                                                  downsample timeout)) now1 o))) →
               job_state d job_id = Some (JStr "processing")).
  { intros d Hd. unfold job_state. rewrite Hd. unfold updated_status. by simplify_map_eq. }
  destruct (subprocess_run (worker_cmd_line image_path scale_low scale_high downsample timeout))
    as [e|proc] eqn:Hrun.
  { rewrite (run_worker_failed _ _ _ _ _ _ _ _ _ o Ho e Hrun).
    exists [Some (JStr "error")], 2%nat, 3%nat.
    split; [|split; [lia|split; [lia|by right; left; eauto]]].
    unfold states_of, snapshots. cbn [disk seen fst snd fmap list_fmap app replicate].
    rewrite set_status_state, !ensure_disk_state.
    rewrite (H1 (set_status _ _ _)) by apply set_status_status.
    unfold updated_status. by simplify_map_eq. }
  destruct (interpret_cases proc) as [[r Hr]|(_ & j' & _ & Hi & Hn)].
  - rewrite (run_worker_finished _ _ _ _ _ _ _ _ _ o Ho proc Hrun r Hr).
    exists [Some (JStr (if truthy (get "ok" r) then "done" else "error"))], 4%nat, 3%nat.
    split; [|split; [lia|split; [lia|]]].
    + unfold states_of, snapshots. cbn [disk seen fst snd fmap list_fmap app replicate].
      rewrite set_status_state, !ensure_disk_state.
      rewrite (H1 (set_result _ _ _))
        by (by rewrite set_result_status, add_log_status, set_status_status).
      rewrite (H1 (add_log _ _ _)) by (by rewrite add_log_status, set_status_status).
      rewrite (H1 (set_status _ _ _)) by apply set_status_status.
      destruct (truthy (get "ok" r)); unfold updated_status; by simplify_map_eq.
    + cbn [fst]. destruct (truthy (get "ok" r)); eauto.
  - rewrite (run_worker_crashed _ _ _ _ _ _ _ _ _ o Ho proc Hrun) by (by rewrite Hi).
    exists [], 3%nat, 3%nat. split; [|split; [lia|split; [lia|by right; right; eauto]]].
    unfold states_of, snapshots. cbn [disk seen fst snd fmap list_fmap app replicate].
    rewrite !ensure_disk_state.
    rewrite (H1 (set_result _ _ _))
      by (by rewrite set_result_status, add_log_status, set_status_status).
    rewrite (H1 (add_log _ _ _)) by (by rewrite add_log_status, set_status_status).
    by rewrite (H1 (set_status _ _ _)) by apply set_status_status.
Qed.

(** Property X24.  What the worker's return code says.  Code 0: the job is
    [done] and its stored result has a true ["ok"].  Code 2: the job is in
    [error] and a result with a false ["ok"] is stored.  Code 1: the child
    could not be run or read, the job is in [error] and the result file is
    as it was before the run.  There is no other code. *)
Theorem worker_return_code (job_id image_path : string)
    (scale_low scale_high : option Q) (downsample timeout : option Z) (now1 now2 : Q)
    (w : world) (code : Z) :
  let cmd := worker_cmd_line image_path scale_low scale_high downsample timeout in
  let run := run_worker job_id image_path scale_low scale_high downsample timeout now1 now2 w in
  run.1 = Ok code →
  (code = 0%Z ∧ job_state (disk run.2) job_id = Some (JStr "done")
   ∧ ∃ r, result_doc (disk run.2) job_id = Some (Doc (JObj r)) ∧ truthy (get "ok" r) = true)
  ∨ (code = 2%Z ∧ job_state (disk run.2) job_id = Some (JStr "error")
     ∧ ∃ r, result_doc (disk run.2) job_id = Some (Doc (JObj r)) ∧ truthy (get "ok" r) = false)
  ∨ (code = 1%Z ∧ job_state (disk run.2) job_id = Some (JStr "error")
     ∧ (∃ e, subprocess_run cmd = RunRaises e)
     ∧ result_doc (disk run.2) job_id = result_doc (disk w) job_id).
Proof.
  intros cmd run. unfold run, cmd.
  destruct (status_base_cases job_id now1 (status_doc (disk w) job_id)) as [[o Ho]|[Ho _]].
  2:{ by rewrite run_worker_blocked by done. }
  destruct (subprocess_run (worker_cmd_line image_path scale_low scale_high downsample timeout))
    as [e|proc] eqn:Hrun.
  { rewrite (run_worker_failed _ _ _ _ _ _ _ _ _ o Ho e Hrun). cbn [fst snd disk].
    intros [= <-]. right. right. split; [done|]. split.
    { rewrite set_status_state. unfold updated_status. by simplify_map_eq. }
    split; [by eauto|]. by rewrite !set_status_result, ensure_disk_result. }
  destruct (interpret_cases proc) as [[r Hr]|(_ & j' & _ & Hi & Hn)].
  - rewrite (run_worker_finished _ _ _ _ _ _ _ _ _ o Ho proc Hrun r Hr). cbn [fst snd disk].
    rewrite set_status_state, set_status_result, set_result_result, Hr.
    destruct (truthy (get "ok" r)) eqn:Hok; intros [= <-].
    + left. split; [done|]. split; [unfold updated_status; by simplify_map_eq|]. by eauto.
    + right. left. split; [done|]. split; [unfold updated_status; by simplify_map_eq|].
      by eauto.
  - by rewrite (run_worker_crashed _ _ _ _ _ _ _ _ _ o Ho proc Hrun) by (by rewrite Hi).
Qed.

End RunFacts.

Section SubmitFacts.
Import Text Jobs Ledger.

Variable JOBS_DIR : string.
Variable repr_of : json → string.
Variable resolve : string → string.
Variable path_name : string → string.
Variable file_at : string → image_file.
Local Abbreviation cmd_submit := (cmd_submit JOBS_DIR resolve path_name file_at).
Local Abbreviation cmd_result := (cmd_result repr_of).

(** Property X25.  A submission of an existing image under a new job
    identifier: [submit] prints the identifier with ["ok": true], returns 0
    and launches one worker on the copy of the image; the job directory then
    holds that copy, an empty log, no result, and a status in state
    [queued] with the submitted parameters, created and updated at the time
    of the call; [status] reports it with code 0 and [result] says the job
    is not ready. *)
Theorem submit_queues_the_job (job_id image : string) (scale_low scale_high : option Q)
    (downsample timeout : option Z) (now : Q) (decode_error data : string) (w : world) :
  file_at (resolve image) = Regular data →
  disk w !! job_id = None →
  let name := path_name (resolve image) in
  let c :=
    updated_status job_id "queued" (Some "Job created")
      (Some (params_dict scale_low scale_high downsample timeout)) now
      (<["created_at" := JFloat now]> (<["job_id" := JStr job_id]> ∅)) in
  ∃ w',
    cmd_submit job_id image scale_low scale_high downsample timeout now w
    = (Ok (Report (JObj (<["job_id" := JStr job_id]> (<["ok" := JBool true]> ∅))) 0
             (Some (Spawn job_id (JOBS_DIR +:+ "/" +:+ job_id +:+ "/input/" +:+ name)
                      scale_low scale_high downsample timeout))), w') ∧
    disk w' = <[job_id := JobDir (Some {[ name := data ]}) (Some None)
                            (Some (Doc (JObj c))) (Some EmptyString)]> (disk w) ∧
    c !! "state" = Some (JStr "queued") ∧
    c !! "params" = Some (JObj (params_dict scale_low scale_high downsample timeout)) ∧
    c !! "created_at" = Some (JFloat now) ∧
    (cmd_status job_id w').1 = Ok (Report (JObj (c ∪ {[ "ok" := JBool true ]})) 0 None) ∧
    (cmd_result job_id decode_error w').1 = Ok (not_ready job_id "queued").
Proof.
  intros Hfile Hnew name c.
  assert (Hstate : c !! "state" = Some (JStr "queued")).
  { unfold c, updated_status. by simplify_map_eq. }
  assert (Hp : truthy (JObj (params_dict scale_low scale_high downsample timeout)) = true).
  { simpl. apply bool_decide_eq_true. intros H.
    apply (f_equal (λ m : gmap string json, m !! "timeout")) in H.
    unfold params_dict in H. by rewrite lookup_insert_eq, lookup_empty in H. }
  assert (Hparams : c !! "params"
                    = Some (JObj (params_dict scale_low scale_high downsample timeout))).
  { unfold c, updated_status, sticky_params. rewrite Hp.
    rewrite lookup_insert_ne by done. apply lookup_insert_eq. }
  assert (Hcreated : c !! "created_at" = Some (JFloat now)).
  { unfold c, updated_status. do 5 (rewrite lookup_insert_ne by done). apply lookup_insert_eq. }
  pose proof (updated_status_nonempty job_id "queued" (Some "Job created")
                (Some (params_dict scale_low scale_high downsample timeout)) now
                (<["created_at" := JFloat now]> (<["job_id" := JStr job_id]> ∅))) as Ht.
  fold c in Ht.
  assert (Hbase : status_base job_id now
                    (status_doc (add_input job_id name data (ensure_disk job_id (disk w))) job_id)
                  = Some (<["created_at" := JFloat now]> (<["job_id" := JStr job_id]> ∅))).
  { rewrite add_input_status, ensure_disk_status. unfold status_doc. by rewrite Hnew. }
  assert (Hrun : cmd_submit job_id image scale_low scale_high downsample timeout now w
                 = (Ok (Report (JObj (<["job_id" := JStr job_id]> (<["ok" := JBool true]> ∅))) 0
                          (Some (Spawn job_id
                                   (JOBS_DIR +:+ "/" +:+ job_id +:+ "/input/" +:+ name)
                                   scale_low scale_high downsample timeout))),
                    World (add_log job_id EmptyString
                             (set_status job_id (Doc (JObj c))
                                (add_input job_id name data (ensure_disk job_id (disk w)))))
                      (snapshots
                         (World (set_status job_id (Doc (JObj c))
                                   (add_input job_id name data (ensure_disk job_id (disk w))))
                            (ensure_disk job_id
                               (add_input job_id name data (ensure_disk job_id (disk w)))
                             :: snapshots
                                  (World (add_input job_id name data
                                            (ensure_disk job_id (disk w)))
                                     (snapshots
                                        (World (ensure_disk job_id (disk w))
                                           (snapshots w))))))))).
  { unfold Jobs.cmd_submit. rewrite bind_run, ensure_job_dirs_run, Hfile.
    rewrite bind_run, copy_input_eq by apply ensure_disk_has_layout.
    rewrite bind_run,
      (write_status_eq _ _ _ _ _ _
         (<["created_at" := JFloat now]> (<["job_id" := JStr job_id]> ∅))) by exact Hbase.
    rewrite bind_run, append_log_eq by apply set_status_layout.
    reflexivity. }
  clearbody c.
  assert (Hdisk : add_log job_id EmptyString
                    (set_status job_id (Doc (JObj c))
                       (add_input job_id name data (ensure_disk job_id (disk w))))
                  = <[job_id := JobDir (Some {[ name := data ]}) (Some None)
                                  (Some (Doc (JObj c))) (Some EmptyString)]> (disk w)).
  { unfold add_log, set_status, add_input, ensure_disk, update_dir.
    rewrite !lookup_insert_eq, Hnew. cbn [ensure_layout input_dir output_dir status_file
      log_file default from_option]. rewrite !insert_insert_eq.
    reflexivity. }
  rewrite Hdisk in Hrun.
  eexists. split; [exact Hrun|]. cbn [disk].
  split; [done|]. split; [done|]. split; [done|]. split; [done|].
  match goal with |- context [World ?d ?h] => generalize h end. intros h.
  assert (Hst : status_doc (<[job_id := JobDir (Some {[ name := data ]})
                        (Some None) (Some (Doc (JObj c))) (Some EmptyString)]> (disk w)) job_id
                = Some (Doc (JObj c))).
  { unfold status_doc. by rewrite lookup_insert_eq. }
  assert (Hres : result_doc (<[job_id := JobDir (Some {[ name := data ]})
                        (Some None) (Some (Doc (JObj c))) (Some EmptyString)]> (disk w)) job_id
                = None).
  { unfold result_doc. by rewrite lookup_insert_eq. }
  split.
  - unfold cmd_status. rewrite bind_run, read_status_run. cbn [disk]. rewrite Hst.
    by rewrite Ht.
  - unfold Jobs.cmd_result. rewrite bind_run, ensure_job_dirs_run, bind_run.
    cbn [get_disk disk snapshots seen fst snd]. rewrite ensure_disk_result, Hres.
    rewrite bind_run, read_status_run. cbn [disk]. rewrite ensure_disk_status, Hst.
    rewrite Ht. cbn [negb ret fst].
    unfold get. by rewrite Hstate.
Qed.

End SubmitFacts.

(** ** The further properties at concrete inputs *)

Section ParserWitnesses.
Import Text Tokens FieldBlock ObjsFile Reconciler.

Lemma csv_line_record_witness :
  split_on "," "M 42, 83.82, -5.39" = ["M 42"; " 83.82"; " -5.39"] ∧
  nonempty (strip "M 42") = true ∧
  two_floats (strip " 83.82") = Some 83.82%R ∧
  two_floats (strip " -5.39") = Some (-5.39)%R ∧
  parse_objs_line two_floats "M 42, 83.82, -5.39" !! "name" = Some (VStr "M 42").
Proof.
  assert (H1 : split_on "," "M 42, 83.82, -5.39" = ["M 42"; " 83.82"; " -5.39"])
    by reflexivity.
  assert (H2 : nonempty (strip "M 42") = true) by reflexivity.
  assert (H3 : two_floats (strip " 83.82") = Some 83.82%R) by reflexivity.
  assert (H4 : two_floats (strip " -5.39") = Some (-5.39)%R) by reflexivity.
  split; [exact H1|]. split; [exact H2|]. split; [exact H3|]. split; [exact H4|].
  exact (proj1 (csv_line_record two_floats "M 42, 83.82, -5.39" "M 42" " 83.82" " -5.39" []
                  83.82%R (-5.39)%R H1 H2 H3 H4)).
Defined.

Lemma plain_line_record_witness :
  (count_char "," "M42 83.82 -5.39" < 2)%nat ∧
  parse_objs_line two_floats "M42 83.82 -5.39" !! "catalog" = None.
Proof.
  assert (H : (count_char "," "M42 83.82 -5.39" < 2)%nat) by (vm_compute; lia).
  split; [exact H|].
  exact (proj1 (plain_line_record two_floats "M42 83.82 -5.39" H)).
Defined.

End ParserWitnesses.

Section PipelineWitnesses.
Import Text Tokens FieldBlock ObjsFile Reconciler Pipeline.

Lemma reconcile_without_centre_witness :
  let A := [stdout_mention "NGC 6888 / Crescent Nebula" "Crescent Nebula"
              (Some "NGC") (Some "6888")] in
  let B := [objs_record "IC 1318 305 40" (Some "IC 1318") (Some 305%R) (Some 40%R)
              (Some "IC") (Some "1318")] in
  Forall text_mention A ∧ Forall aux_record B ∧
  reconcile (λ _, None) (Some 304%R) None A B = merge A B.
Proof.
  intros A B.
  assert (HA : Forall text_mention A) by (repeat constructor; by eexists _, _, _, _).
  assert (HB : Forall aux_record B) by (repeat constructor; by eexists _, _, _, _, _, _).
  split; [exact HA|]. split; [exact HB|].
  exact (proj1 (reconcile_without_centre (λ _, None) (Some 304%R) None A B HA HB
                  (or_intror eq_refl))).
Defined.

Lemma reconcile_separation_values_witness :
  let A := [stdout_mention "NGC 6888 / Crescent Nebula" "Crescent Nebula"
              (Some "NGC") (Some "6888")] in
  let B := [objs_record "IC 1318 305 40" (Some "IC 1318") (Some 305%R) (Some 40%R)
              (Some "IC") (Some "1318")] in
  Forall text_mention A ∧ Forall aux_record B ∧
  ∃ out, reconcile (λ _, None) (Some 304%R) (Some 39%R) A B = Some out
         ∧ Forall (sep_from 304 39) out.
Proof.
  intros A B.
  assert (HA : Forall text_mention A) by (repeat constructor; by eexists _, _, _, _).
  assert (HB : Forall aux_record B) by (repeat constructor; by eexists _, _, _, _, _, _).
  split; [exact HA|]. split; [exact HB|].
  exact (reconcile_separation_values (λ _, None) 304%R 39%R A B HA HB).
Defined.

End PipelineWitnesses.

Section NativeWitnesses.
Import Native Conversion.

Lemma to_native_raises_on_failing_rational_witness :
  let obj := PyDict [(PyStr "exposure", PyList [PyInt 1; PyRational None])] in
  ¬ floatable obj ∧ to_native (λ _, EmptyString) obj = None.
Proof.
  intros obj.
  assert (H : ¬ floatable obj).
  { simpl. intros [[_ [[x Hx] _]] _]. discriminate Hx. }
  split; [exact H|].
  exact (to_native_raises_on_failing_rational (λ _, EmptyString) obj H).
Defined.

Lemma to_native_json_safe_and_stable_witness :
  let repr_of : pyobj → string := λ _, EmptyString in
  let obj := PyTuple [PyNpScalar (PyInt 3); PyBytes (Some "ab") "6162"] in
  let v := PyList [PyInt 3; PyStr "ab"] in
  tame obj ∧ to_native repr_of obj = Some v ∧ native v ∧ to_native repr_of v = Some v.
Proof.
  intros repr_of obj v.
  assert (Ht : tame obj) by (simpl; tauto).
  assert (Hv : to_native repr_of obj = Some v) by reflexivity.
  split; [exact Ht|]. split; [exact Hv|].
  exact (to_native_json_safe_and_stable repr_of obj v Ht Hv).
Defined.

End NativeWitnesses.

Section JobWitnesses.
Import Text Jobs Ledger.

Lemma status_round_trip_witness :
  let w := World ∅ [] in
  let o : gmap string json := <["created_at" := JFloat 7%Q]> (<["job_id" := JStr "4f2a"]> ∅) in
  status_base "4f2a" 7%Q (status_doc (disk w) "4f2a") = Some o ∧
  ∃ c w',
    write_status "4f2a" "queued" (Some "Job created") None 7%Q w = (Ok (JObj c), w') ∧
    (read_status "4f2a" w').1 = Ok (JObj c).
Proof.
  intros w o.
  assert (H : status_base "4f2a" 7%Q (status_doc (disk w) "4f2a") = Some o) by reflexivity.
  split; [exact H|].
  destruct (status_round_trip "4f2a" "queued" (Some "Job created") None 7%Q w o H)
    as (c & w' & printed & H1 & H2 & _).
  exists c, w'. split; [exact H1|exact H2].
Defined.

Lemma status_update_keeps_fields_witness :
  let o : gmap string json := {[ "created_at" := JFloat 7%Q ]} in
  let w := World {[ "4f2a" := JobDir (Some ∅) (Some None) (Some (Doc (JObj o))) None ]} [] in
  status_doc (disk w) "4f2a" = Some (Doc (JObj o)) ∧
  ∃ c w',
    write_status "4f2a" "processing" None None 9%Q w = (Ok (JObj c), w') ∧
    c !! "created_at" = o !! "created_at".
Proof.
  intros o w.
  assert (H : status_doc (disk w) "4f2a" = Some (Doc (JObj o))) by reflexivity.
  split; [exact H|].
  destruct (status_update_keeps_fields "4f2a" "processing" None None 9%Q w o H)
    as (c & w' & H1 & _ & _ & H2 & _).
  exists c, w'. split; [exact H1|exact H2].
Defined.

Lemma result_returns_child_document_witness :
  let proc := Completed 2 "{ok: false, error: solve-field timeout}" EmptyString in
  let r : gmap string json :=
    <["error" := JStr "solve-field timeout"]> (<["ok" := JBool false]> ∅) in
  let run := demo_worker (λ _, RunReturns proc) (λ _, Some (JObj r)) (World ∅ []) in
  (returncode proc = 0 ∨ returncode proc = 2)%Z ∧
  status_base "4f2a" 1%Q (status_doc (disk (World ∅ [])) "4f2a") = Some fresh_status ∧
  run.1 = Ok 2%Z ∧
  (cmd_result (λ _, EmptyString) "4f2a" EmptyString run.2).1 = Ok (Report (JObj r) 0 None).
Proof.
  intros proc r run.
  assert (Hrc : (returncode proc = 0 ∨ returncode proc = 2)%Z) by (right; reflexivity).
  assert (Hb : status_base "4f2a" 1%Q (status_doc (disk (World ∅ [])) "4f2a")
               = Some fresh_status) by reflexivity.
  split; [exact Hrc|]. split; [exact Hb|].
  destruct (result_returns_child_document "astro_extract.py" (λ s, s) (λ _, EmptyString)
              (λ _, EmptyString) (λ _, RunReturns proc) (λ _, Some (JObj r))
              "4f2a" "/srv/astro_jobs/4f2a/input/m42.jpg" None None (Some 2%Z) (Some 600%Z)
              1%Q 2%Q EmptyString (World ∅ []) proc r fresh_status
              eq_refl Hrc eq_refl Hb) as (H1 & _ & _ & H2).
  split; [exact H1|exact H2].
Defined.

Lemma worker_raises_on_non_object_json_witness :
  let proc := Completed 0 "[]" EmptyString in
  let run := demo_worker (λ _, RunReturns proc) (λ _, Some (JArr [])) (World ∅ []) in
  (returncode proc = 0 ∨ returncode proc = 2)%Z ∧
  (¬ ∃ r, JArr [] = JObj r) ∧
  status_base "4f2a" 1%Q (status_doc (disk (World ∅ [])) "4f2a") = Some fresh_status ∧
  run.1 = Raised "AttributeError: no attribute 'get'" ∧
  job_state (disk run.2) "4f2a" = Some (JStr "processing").
Proof.
  intros proc run.
  assert (Hrc : (returncode proc = 0 ∨ returncode proc = 2)%Z) by (left; reflexivity).
  assert (Hn : ¬ ∃ r, JArr [] = JObj r) by (intros [r Hr]; discriminate Hr).
  assert (Hb : status_base "4f2a" 1%Q (status_doc (disk (World ∅ [])) "4f2a")
               = Some fresh_status) by reflexivity.
  split; [exact Hrc|]. split; [exact Hn|]. split; [exact Hb|].
  destruct (worker_raises_on_non_object_json "astro_extract.py" (λ s, s) (λ _, EmptyString)
              (λ _, EmptyString) (λ _, RunReturns proc) (λ _, Some (JArr []))
              "4f2a" "/srv/astro_jobs/4f2a/input/m42.jpg" None None (Some 2%Z) (Some 600%Z)
              1%Q 2%Q EmptyString (World ∅ []) proc (JArr []) fresh_status
              eq_refl Hrc eq_refl Hn Hb) as (H1 & H2 & _).
  split; [exact H1|exact H2].
Defined.

Lemma invalid_json_keeps_the_tail_witness :
  let proc := Completed 0 "Traceback (most recent call last)" EmptyString in
  let run := demo_worker (λ _, RunReturns proc) (λ _, None) (World ∅ []) in
  (returncode proc = 0 ∨ returncode proc = 2)%Z ∧
  status_base "4f2a" 1%Q (status_doc (disk (World ∅ [])) "4f2a") = Some fresh_status ∧
  ∃ raw pre, stdout proc = pre +:+ raw ∧ run.1 = Ok 2%Z.
Proof.
  intros proc run.
  assert (Hrc : (returncode proc = 0 ∨ returncode proc = 2)%Z) by (left; reflexivity).
  assert (Hb : status_base "4f2a" 1%Q (status_doc (disk (World ∅ [])) "4f2a")
               = Some fresh_status) by reflexivity.
  split; [exact Hrc|]. split; [exact Hb|].
  destruct (invalid_json_keeps_the_tail "astro_extract.py" (λ s, s) (λ _, EmptyString)
              (λ _, EmptyString) (λ _, RunReturns proc) (λ _, None)
              "4f2a" "/srv/astro_jobs/4f2a/input/m42.jpg" None None (Some 2%Z) (Some 600%Z)
              1%Q 2%Q (World ∅ []) proc fresh_status
              eq_refl Hrc eq_refl Hb)
    as (raw & pre & c & H1 & _ & _ & H2 & _).
  exists raw, pre. split; [exact H1|exact H2].
Defined.

Lemma worker_state_sequence_witness :
  let w := World ∅ [] in
  let run := demo_worker (λ _, RunRaises "OSError") (λ _, None) w in
  status_base "4f2a" 1%Q (status_doc (disk w) "4f2a") = Some fresh_status ∧
  ∃ final n m,
    states_of "4f2a" (snapshots run.2)
    = final ++ replicate n (Some (JStr "processing"))
        ++ replicate m (job_state (disk w) "4f2a")
        ++ states_of "4f2a" (seen w).
Proof.
  intros w run.
  assert (Hb : status_base "4f2a" 1%Q (status_doc (disk w) "4f2a")
               = Some fresh_status) by reflexivity.
  split; [exact Hb|].
  destruct (worker_state_sequence "astro_extract.py" (λ s, s) (λ _, EmptyString)
              (λ _, EmptyString) (λ _, RunRaises "OSError") (λ _, None)
              "4f2a" "/srv/astro_jobs/4f2a/input/m42.jpg" None None (Some 2%Z) (Some 600%Z)
              1%Q 2%Q w fresh_status Hb)
    as (final & n & m & H & _).
  exists final, n, m. exact H.
Defined.

Lemma worker_return_code_witness :
  let run := demo_worker (λ _, RunRaises "OSError") (λ _, None) (World ∅ []) in
  run.1 = Ok 1%Z ∧ job_state (disk run.2) "4f2a" = Some (JStr "error").
Proof.
  intros run.
  assert (H : run.1 = Ok 1%Z) by (vm_compute; reflexivity).
  split; [exact H|].
  destruct (worker_return_code "astro_extract.py" (λ s, s) (λ _, EmptyString)
              (λ _, EmptyString) (λ _, RunRaises "OSError") (λ _, None)
              "4f2a" "/srv/astro_jobs/4f2a/input/m42.jpg" None None (Some 2%Z) (Some 600%Z)
              1%Q 2%Q (World ∅ []) 1%Z H) as [(Hc & _)|[(Hc & _)|(_ & Hs & _)]].
  - discriminate Hc.
  - discriminate Hc.
  - exact Hs.
Defined.

Lemma submit_queues_the_job_witness :
  let file_at : string → image_file := λ _, Regular "JPEG" in
  let w := World ∅ [] in
  file_at "/data/m42.jpg" = Regular "JPEG" ∧
  disk w !! "4f2a" = None ∧
  ∃ w',
    (cmd_submit "/srv/astro_jobs" (λ p, p) (λ _, "m42.jpg") file_at
       "4f2a" "/data/m42.jpg" None None (Some 2%Z) (Some 600%Z) 0%Q w).2 = w' ∧
    (cmd_result (λ _, EmptyString) "4f2a" EmptyString w').1 = Ok (not_ready "4f2a" "queued").
Proof.
  intros file_at w.
  assert (H1 : file_at "/data/m42.jpg" = Regular "JPEG") by reflexivity.
  assert (H2 : disk w !! "4f2a" = None) by reflexivity.
  split; [exact H1|]. split; [exact H2|].
  destruct (submit_queues_the_job "/srv/astro_jobs" (λ _, EmptyString) (λ p, p)
              (λ _, "m42.jpg") file_at
              "4f2a" "/data/m42.jpg" None None (Some 2%Z) (Some 600%Z) 0%Q
              EmptyString "JPEG" w H1 H2) as (w' & Hrun & _ & _ & _ & _ & _ & Hres).
  exists w'. split; [by rewrite Hrun|exact Hres].
Defined.

End JobWitnesses.
